(** * wxchat: the long-text display fixes of [public/js/mobileTextFix.js]

    The file holds two browser scripts, [MobileTextFix] and [LongTextFix].
    Both walk the chat messages of the page and overwrite inline CSS
    declarations so that long text is never clipped.

    The page is modelled as

    - a document tree ([Node]) whose elements are told apart by an identity
      ([node_id]), as JavaScript object references are;
    - the inline declarations of all elements, a finite map from
      (element, CSS property) to (value, priority);
    - the facts the scripts read from the browser ([Browser]): viewport
      width, user agent, layout measurements, and which [setProperty]
      calls raise;
    - the effects the scripts have ([State]): inline declarations, the
      console, pending timers, intervals, listeners, observers, and the
      fields of the two script instances.

    Methods are written in a state-and-exception monad [M] and follow the
    source statement by statement. *)

From Stdlib Require Import ZArith List String Ascii Bool Lia DecimalString.
From Stdlib Require Import Sorted.
From stdpp Require Import gmap strings list.
Import ListNotations.
Local Open Scope string_scope.
Local Open Scope list_scope.
Local Open Scope Z_scope.
Local Set Warnings "-register-all,-clear-no-such-hyp".

(* ================================================================== *)
(** ** JavaScript strings *)
(* ================================================================== *)

Module Js.

(** [String.prototype.toLowerCase] on the ASCII letters. *)
Definition lower_ascii (c : ascii) : ascii :=
  let n := nat_of_ascii c in
  if ((65 <=? n) && (n <=? 90))%nat then ascii_of_nat (n + 32) else c.

Definition is_upper (c : ascii) : bool :=
  let n := nat_of_ascii c in ((65 <=? n) && (n <=? 90))%nat.

Fixpoint toLowerCase (s : string) : string :=
  match s with
  | EmptyString => EmptyString
  | String c r => String (lower_ascii c) (toLowerCase r)
  end.

Definition upper_ascii (c : ascii) : ascii :=
  let n := nat_of_ascii c in
  if ((97 <=? n) && (n <=? 122))%nat then ascii_of_nat (n - 32) else c.

Fixpoint toUpperCase (s : string) : string :=
  match s with
  | EmptyString => EmptyString
  | String c r => String (upper_ascii c) (toUpperCase r)
  end.

(** [s.replace(/([A-Z])/g, '-$1')]: a hyphen before every capital. *)
Fixpoint hyphenate (s : string) : string :=
  match s with
  | EmptyString => EmptyString
  | String c r =>
      if is_upper c then String "-"%char (String c (hyphenate r))
      else String c (hyphenate r)
  end.

(** [property.replace(/([A-Z])/g, '-$1').toLowerCase()] *)
Definition cssProperty (property : string) : string :=
  toLowerCase (hyphenate property).

(** Substring search, for [RegExp.prototype.test] on alternations of
    literals. *)
Fixpoint includes (pat s : string) : bool :=
  String.prefix pat s ||
  match s with
  | EmptyString => false
  | String _ r => includes pat r
  end.

(** [/p1|p2|.../i.test(s)] for literal alternatives. *)
Definition test_any_ci (pats : list string) (s : string) : bool :=
  existsb (fun p => includes (toLowerCase p) (toLowerCase s)) pats.

(** Number to string for the integers the DOM reports. *)
Definition string_of_Z (z : Z) : string :=
  NilZero.string_of_int (Z.to_int z).

(** Text is a sequence of UTF-16 code units. *)
Definition text := list N.

(** The code units matched by [\s]. *)
Definition is_space (c : N) : bool :=
  ((9 <=? c) && (c <=? 13) || (c =? 32) || (c =? 160) || (c =? 5760)
   || (8192 <=? c) && (c <=? 8202) || (c =? 8232) || (c =? 8233)
   || (c =? 8239) || (c =? 8287) || (c =? 12288) || (c =? 65279))%N.

(** [text.split(/(\s+)/)]: the words and, between them, the runs of white
    space (the capture group keeps the separators).  [cur] is the piece
    being read, reversed; [inws] tells whether it is a run of white
    space. *)
Fixpoint split_ws_go (cur : text) (inws : bool) (s : text) : list text :=
  match s with
  | [] => if inws then [rev cur; []] else [rev cur]
  | c :: r =>
      if is_space c then
        if inws then split_ws_go (c :: cur) true r
        else rev cur :: split_ws_go [c] true r
      else
        if inws then rev cur :: split_ws_go [c] false r
        else split_ws_go (c :: cur) false r
  end.

Definition split_ws (s : text) : list text := split_ws_go [] false s.

(** [/\s/.test(word)] *)
Definition has_space (w : text) : bool := existsb is_space w.

End Js.

(* ================================================================== *)
(** ** The document *)
(* ================================================================== *)

(** A DOM node.  [eid] is the identity of the node object; [tagName] is
    upper case, as the DOM reports it for HTML elements; [messageId] is
    [dataset.messageId], absent when the element has no [data-message-id]
    attribute; [id] is the empty string when there is no [id] attribute. *)
Inductive Node : Type :=
| Element (eid : nat) (tagName : string) (classList : list string)
          (id : string) (messageId : option string) (childNodes : list Node)
| TextNode (eid : nat) (textContent : Js.text).

Definition node_id (n : Node) : nat :=
  match n with Element e _ _ _ _ _ => e | TextNode e _ => e end.

Definition isElement (n : Node) : bool :=
  match n with Element _ _ _ _ _ _ => true | TextNode _ _ => false end.

Definition isText (n : Node) : bool := negb (isElement n).

Definition node_tagName (n : Node) : string :=
  match n with Element _ t _ _ _ _ => t | TextNode _ _ => "" end.

Definition node_id_attr (n : Node) : string :=
  match n with Element _ _ _ i _ _ => i | TextNode _ _ => "" end.

Definition dataset_messageId (n : Node) : option string :=
  match n with Element _ _ _ _ d _ => d | TextNode _ _ => None end.

Definition node_text (n : Node) : Js.text :=
  match n with Element _ _ _ _ _ _ => [] | TextNode _ t => t end.

(** [node.classList.contains(c)] *)
Definition classList_contains (n : Node) (c : string) : bool :=
  match n with
  | Element _ _ cl _ _ _ => bool_decide (c ∈ cl)
  | TextNode _ _ => false
  end.

(** All descendants in document order. *)
Fixpoint descendants (n : Node) : list Node :=
  match n with
  | Element _ _ _ _ _ cs =>
      (fix go (l : list Node) : list Node :=
         match l with
         | [] => []
         | c :: r => c :: descendants c ++ go r
         end) cs
  | TextNode _ _ => []
  end.

(** The selectors the scripts use: a class or a tag name. *)
Inductive Selector := ByClass (c : string) | ByTag (t : string).

Definition matches (sel : Selector) (n : Node) : bool :=
  isElement n &&
  match sel with
  | ByClass c => classList_contains n c
  | ByTag t => bool_decide (node_tagName n = Js.toUpperCase t)
  end.

(** [node.querySelectorAll(sel)]: matching descendants, document order. *)
Definition querySelectorAll (n : Node) (sel : Selector) : list Node :=
  List.filter (matches sel) (descendants n).

(** [node.querySelector(sel)]: the first match, or null. *)
Definition querySelector (n : Node) (sel : Selector) : option Node :=
  head (querySelectorAll n sel).

(** The ancestors of the node [target] inside [n], nearest first; [Some []]
    when [n] is the target itself. *)
Fixpoint path_to (target : nat) (n : Node) : option (list Node) :=
  if Nat.eqb (node_id n) target then Some []
  else
    match n with
    | Element _ _ _ _ _ cs =>
        (fix go (l : list Node) : option (list Node) :=
           match l with
           | [] => None
           | c :: r =>
               match path_to target c with
               | Some p => Some (p ++ [n])
               | None => go r
               end
           end) cs
    | TextNode _ _ => None
    end.

(** [node.parentElement], [node.parentElement.parentElement], ... *)
Definition parentChain (document : Node) (n : Node) : list Node :=
  match path_to (node_id n) document with
  | Some p => p
  | None => []
  end.

(** The text nodes a [TreeWalker] with [NodeFilter.SHOW_TEXT] visits. *)
Definition textNodesOf (n : Node) : list Node :=
  List.filter isText (descendants n).

(* ================================================================== *)
(** ** Browser, state and effects *)
(* ================================================================== *)

(** Inline declarations: (element, property) to (value, priority). *)
Abbreviation Styles := (gmap (nat * string) (string * string)).

(** What the scripts read from the browser.

    - [document] is the tree the selectors search; it is fixed while a
      method runs.
    - [readyState_loading] is [document.readyState === 'loading'].
    - [ontouchstart_in_window] is ['ontouchstart' in window].
    - [scrollHeight] and [clientHeight] are the measurements of the layout
      engine; they may depend on every inline declaration in force when
      they are read.
    - [setProperty_throws e p] tells whether assigning CSS property [p] on
      the style of element [e] raises.

    The engine's validation of property names and values is not modelled:
    an assignment that does not raise is recorded as it was passed. *)
Record Browser := {
  document : Node;
  readyState_loading : bool;
  userAgent : string;
  ontouchstart_in_window : bool;
  maxTouchPoints : Z;
  innerWidth : Z;
  scrollHeight : Styles -> nat -> Z;
  clientHeight : Styles -> nat -> Z;
  setProperty_throws : nat -> string -> bool
}.

(** The exception of a failed [setProperty] call. *)
Inductive JsError := SetPropertyError (el : nat) (property : string).

(** The lines the scripts write to the console, one constructor for each
    [console.log] and [console.warn] of the methods modelled here, with
    the values it prints. *)
Inductive ConsoleMsg :=
| MobileSkipped
| MobileDetected
| MobileOverflow (el : nat) (sh ch : Z)
| MobileStyleFailed (property : string) (err : JsError)
| MobileFixFailed (err : JsError)
| LongOverflow (el : nat) (sh ch : Z)
| LongStyleFailed (property : string) (err : JsError)
| LongFixFailed (err : JsError)
| LongManualFix.

(** What a method leaves in the log of the page, in the order it happens:
    console output and the [setProperty] calls that did not raise. *)
Inductive Effect :=
| ConsoleLog (m : ConsoleMsg)
| ConsoleWarn (m : ConsoleMsg)
| SetProperty (el : nat) (property value priority : string).

(** The function values the scripts hand to the browser. *)
Inductive Callback :=
| MobileStart
| MobileOrientationChange
| MobileOrientationSettled
| MobileResize
| MobileScan
| MobileMutations
| MobileResetHeight (textMessage : Node)
| LongStart
| LongMutations
| LongScan
| LongResetHeight (textMessage : Node).

Inductive EventTarget := TheDocument | TheWindow.

(** The mutable part of the page: inline declarations, the log of
    effects, what was handed to [setTimeout], [setInterval],
    [addEventListener] and [MutationObserver.observe], and the fields of
    the two instances [window.MobileTextFix] ([mtf_]) and
    [window.LongTextFix] ([ltf_]). *)
Record State := {
  inlineStyle : Styles;
  effects : list Effect;
  timeouts : list (Callback * Z);
  intervals : list (Callback * Z);
  listeners : list (EventTarget * string * Callback);
  observing : list (Callback * nat);
  mtf_isMobile : bool;
  mtf_isSmallScreen : bool;
  ltf_observer : option Callback;
  ltf_fixedElements : gset string;
  ltf_isMobile : bool
}.

(** How a statement ends: normally with a value, or with an exception. *)
Inductive Completion (A : Type) :=
| Normal (a : A)
| Throw (e : JsError).
Arguments Normal {A} a.
Arguments Throw {A} e.

(** A computation: the effects made before an exception stay. *)
Definition M (A : Type) : Type := State -> Completion A * State.

Definition ret {A} (a : A) : M A := fun st => (Normal a, st).

Definition bind {A B} (m : M A) (k : A -> M B) : M B :=
  fun st =>
    match m st with
    | (Normal a, st') => k a st'
    | (Throw e, st') => (Throw e, st')
    end.

(** [try { body } catch (error) { handler }] *)
Definition try_catch (body : M unit) (handler : JsError -> M unit) : M unit :=
  fun st =>
    match body st with
    | (Normal a, st') => (Normal a, st')
    | (Throw e, st') => handler e st'
    end.

Declare Scope js_scope.
Delimit Scope js_scope with js.
Notation "x <- m ;; k" := (bind m (fun x => k))
  (at level 100, m at next level, right associativity) : js_scope.
Notation "m ;; k" := (bind m (fun _ => k))
  (at level 100, right associativity) : js_scope.
Local Open Scope js_scope.

(** [list.forEach(f)] *)
Fixpoint forEach {A} (f : A -> M unit) (l : list A) : M unit :=
  match l with
  | [] => ret tt
  | x :: r => f x ;; forEach f r
  end.

Definition exec {A} (m : M A) (st : State) : State := snd (m st).
Definition completion {A} (m : M A) (st : State) : Completion A := fst (m st).

Definition gets {A} (f : State -> A) : M A := fun st => (Normal (f st), st).

(** The state [st] with new inline declarations, more effects and more
    pending timers. *)
Definition with_style (st : State) (s : Styles) (ev : list Effect)
    (ts : list (Callback * Z)) : State :=
  {| inlineStyle := s;
     effects := effects st ++ ev;
     timeouts := timeouts st ++ ts;
     intervals := intervals st;
     listeners := listeners st;
     observing := observing st;
     mtf_isMobile := mtf_isMobile st;
     mtf_isSmallScreen := mtf_isSmallScreen st;
     ltf_observer := ltf_observer st;
     ltf_fixedElements := ltf_fixedElements st;
     ltf_isMobile := ltf_isMobile st |}.

Definition emit (e : Effect) : M unit :=
  fun st => (Normal tt, with_style st (inlineStyle st) [e] []).

Definition console_log (m : ConsoleMsg) : M unit := emit (ConsoleLog m).
Definition console_warn (m : ConsoleMsg) : M unit := emit (ConsoleWarn m).

(** [setTimeout(cb, ms)] *)
Definition setTimeout (cb : Callback) (ms : Z) : M unit :=
  fun st => (Normal tt, with_style st (inlineStyle st) [] [(cb, ms)]).

(** [setInterval(cb, ms)] *)
Definition setInterval (cb : Callback) (ms : Z) : M unit :=
  fun st =>
    (Normal tt,
     {| inlineStyle := inlineStyle st; effects := effects st;
        timeouts := timeouts st;
        intervals := intervals st ++ [(cb, ms)];
        listeners := listeners st; observing := observing st;
        mtf_isMobile := mtf_isMobile st;
        mtf_isSmallScreen := mtf_isSmallScreen st;
        ltf_observer := ltf_observer st;
        ltf_fixedElements := ltf_fixedElements st;
        ltf_isMobile := ltf_isMobile st |}).

(** [target.addEventListener(type, cb)] *)
Definition addEventListener (target : EventTarget) (type : string)
    (cb : Callback) : M unit :=
  fun st =>
    (Normal tt,
     {| inlineStyle := inlineStyle st; effects := effects st;
        timeouts := timeouts st; intervals := intervals st;
        listeners := listeners st ++ [(target, type, cb)];
        observing := observing st;
        mtf_isMobile := mtf_isMobile st;
        mtf_isSmallScreen := mtf_isSmallScreen st;
        ltf_observer := ltf_observer st;
        ltf_fixedElements := ltf_fixedElements st;
        ltf_isMobile := ltf_isMobile st |}).

(** [new MutationObserver(cb).observe(target, {childList, subtree})] *)
Definition observe (cb : Callback) (target : Node) : M unit :=
  fun st =>
    (Normal tt,
     {| inlineStyle := inlineStyle st; effects := effects st;
        timeouts := timeouts st; intervals := intervals st;
        listeners := listeners st;
        observing := observing st ++ [(cb, node_id target)];
        mtf_isMobile := mtf_isMobile st;
        mtf_isSmallScreen := mtf_isSmallScreen st;
        ltf_observer := ltf_observer st;
        ltf_fixedElements := ltf_fixedElements st;
        ltf_isMobile := ltf_isMobile st |}).

(** Assignments to the fields of [window.MobileTextFix]. *)
Definition set_mtf_isMobile (b : bool) : M unit :=
  fun st =>
    (Normal tt,
     {| inlineStyle := inlineStyle st; effects := effects st;
        timeouts := timeouts st; intervals := intervals st;
        listeners := listeners st; observing := observing st;
        mtf_isMobile := b;
        mtf_isSmallScreen := mtf_isSmallScreen st;
        ltf_observer := ltf_observer st;
        ltf_fixedElements := ltf_fixedElements st;
        ltf_isMobile := ltf_isMobile st |}).

Definition set_mtf_isSmallScreen (b : bool) : M unit :=
  fun st =>
    (Normal tt,
     {| inlineStyle := inlineStyle st; effects := effects st;
        timeouts := timeouts st; intervals := intervals st;
        listeners := listeners st; observing := observing st;
        mtf_isMobile := mtf_isMobile st;
        mtf_isSmallScreen := b;
        ltf_observer := ltf_observer st;
        ltf_fixedElements := ltf_fixedElements st;
        ltf_isMobile := ltf_isMobile st |}).

(** Assignments to the fields of [window.LongTextFix]. *)
Definition set_ltf_observer (o : option Callback) : M unit :=
  fun st =>
    (Normal tt,
     {| inlineStyle := inlineStyle st; effects := effects st;
        timeouts := timeouts st; intervals := intervals st;
        listeners := listeners st; observing := observing st;
        mtf_isMobile := mtf_isMobile st;
        mtf_isSmallScreen := mtf_isSmallScreen st;
        ltf_observer := o;
        ltf_fixedElements := ltf_fixedElements st;
        ltf_isMobile := ltf_isMobile st |}).

Definition set_ltf_fixedElements (s : gset string) (st : State) : State :=
  {| inlineStyle := inlineStyle st; effects := effects st;
     timeouts := timeouts st; intervals := intervals st;
     listeners := listeners st; observing := observing st;
     mtf_isMobile := mtf_isMobile st;
     mtf_isSmallScreen := mtf_isSmallScreen st;
     ltf_observer := ltf_observer st;
     ltf_fixedElements := s;
     ltf_isMobile := ltf_isMobile st |}.

Definition set_ltf_isMobile (b : bool) : M unit :=
  fun st =>
    (Normal tt,
     {| inlineStyle := inlineStyle st; effects := effects st;
        timeouts := timeouts st; intervals := intervals st;
        listeners := listeners st; observing := observing st;
        mtf_isMobile := mtf_isMobile st;
        mtf_isSmallScreen := mtf_isSmallScreen st;
        ltf_observer := ltf_observer st;
        ltf_fixedElements := ltf_fixedElements st;
        ltf_isMobile := b |}).

(** [element.style.setProperty(property, value, priority)].  The call
    either raises or records the declaration. *)
Definition setProperty (br : Browser) (element : Node)
    (property value priority : string) : M unit :=
  fun st =>
    if setProperty_throws br (node_id element) property
    then (Throw (SetPropertyError (node_id element) property), st)
    else (Normal tt,
          with_style st
            (<[(node_id element, property) := (value, priority)]>
               (inlineStyle st))
            [SetProperty (node_id element) property value priority] []).

(** [element.scrollHeight] and [element.clientHeight], measured against the
    declarations now in force. *)
Definition get_scrollHeight (br : Browser) (element : Node) : M Z :=
  gets (fun st => scrollHeight br (inlineStyle st) (node_id element)).

Definition get_clientHeight (br : Browser) (element : Node) : M Z :=
  gets (fun st => clientHeight br (inlineStyle st) (node_id element)).

(** A record handed to a [MutationObserver] callback. *)
Record MutationRecord := {
  mutation_type : string;
  addedNodes : list Node
}.

(** [/Android|iPhone|iPad|iPod|BlackBerry|IEMobile|Opera Mini/i.test(ua)],
    then touch support and a viewport of at most 768 px.  Both scripts
    define the same method. *)
Definition detectMobile (br : Browser) : bool :=
  let isMobileUA :=
    Js.test_any_ci
      ["Android"; "iPhone"; "iPad"; "iPod"; "BlackBerry"; "IEMobile";
       "Opera Mini"] (userAgent br) in
  let isTouchDevice :=
    ontouchstart_in_window br || (0 <? maxTouchPoints br) in
  let isSmallScreen := innerWidth br <=? 768 in
  isMobileUA || (isTouchDevice && isSmallScreen).

(** Whether two function values are the same callback. *)
Definition same_callback (a b : Callback) : bool :=
  match a, b with
  | MobileStart, MobileStart => true
  | MobileOrientationChange, MobileOrientationChange => true
  | MobileOrientationSettled, MobileOrientationSettled => true
  | MobileResize, MobileResize => true
  | MobileScan, MobileScan => true
  | MobileMutations, MobileMutations => true
  | MobileResetHeight x, MobileResetHeight y => Nat.eqb (node_id x) (node_id y)
  | LongStart, LongStart => true
  | LongMutations, LongMutations => true
  | LongScan, LongScan => true
  | LongResetHeight x, LongResetHeight y => Nat.eqb (node_id x) (node_id y)
  | _, _ => false
  end.

(** [observer.disconnect()]: the observer watches nothing any more. *)
Definition disconnect (observer : Callback) : M unit :=
  fun st =>
    (Normal tt,
     {| inlineStyle := inlineStyle st; effects := effects st;
        timeouts := timeouts st; intervals := intervals st;
        listeners := listeners st;
        observing :=
          List.filter (fun '(cb, _) => negb (same_callback cb observer))
            (observing st);
        mtf_isMobile := mtf_isMobile st;
        mtf_isSmallScreen := mtf_isSmallScreen st;
        ltf_observer := ltf_observer st;
        ltf_fixedElements := ltf_fixedElements st;
        ltf_isMobile := ltf_isMobile st |}).

(** What the diagnostic methods read beyond [Browser]: computed styles (by
    the name of the JavaScript property), [offsetHeight], the width and
    height of the bounding box, [window.innerHeight] and
    [window.devicePixelRatio].  [Num] is the type of the fractional numbers
    among them. *)
Record Inspector (Num : Type) := {
  getComputedStyle : Styles -> nat -> string -> string;
  offsetHeight : Styles -> nat -> Z;
  getBoundingClientRect : Styles -> nat -> Num * Num;
  innerHeight : Z;
  devicePixelRatio : Num
}.
Arguments getComputedStyle {Num} _ _ _ _.
Arguments offsetHeight {Num} _ _ _.
Arguments getBoundingClientRect {Num} _ _ _.
Arguments innerHeight {Num} _.
Arguments devicePixelRatio {Num} _.

(** [node.textContent] *)
Definition textContentOf (n : Node) : Js.text :=
  match n with
  | TextNode _ t => t
  | Element _ _ _ _ _ _ => concat (map node_text (textNodesOf n))
  end.

(** [text.substring(0, n) + '...'] *)
Definition excerpt (n : nat) (text : Js.text) : Js.text :=
  firstn n text ++ [46; 46; 46]%N.

(** The pairs (index, element) that [list.forEach((element, index) => ...)]
    goes through. *)
Definition indexed {A} (l : list A) : list (nat * A) :=
  combine (seq 0 (length l)) l.

(** [message.dataset.messageId || 'unknown'] *)
Definition diagnosticId (message : Node) : string :=
  match dataset_messageId message with
  | Some d => if bool_decide (d = "") then "unknown" else d
  | None => "unknown"
  end.

(** An entry of [getMobileDiagnostics().messages]. *)
Record MobileDiagnostic (Num : Type) := {
  mdiag_index : Z;
  mdiag_messageId : string;
  mdiag_width : Num;
  mdiag_height : Num;
  mdiag_scrollHeight : Z;
  mdiag_clientHeight : Z;
  mdiag_isOverflowing : bool;
  mdiag_styles : list (string * string);
  mdiag_content : Js.text
}.
Arguments mdiag_index {Num} _.
Arguments mdiag_messageId {Num} _.
Arguments mdiag_width {Num} _.
Arguments mdiag_height {Num} _.
Arguments mdiag_scrollHeight {Num} _.
Arguments mdiag_clientHeight {Num} _.
Arguments mdiag_isOverflowing {Num} _.
Arguments mdiag_styles {Num} _.
Arguments mdiag_content {Num} _.

(** [getMobileDiagnostics().deviceInfo] *)
Record DeviceInfo (Num : Type) := {
  info_isMobile : bool;
  info_isSmallScreen : bool;
  info_screenSize : string;
  info_userAgent : string;
  info_devicePixelRatio : Num
}.

(** The value of [getMobileDiagnostics()]. *)
Record MobileDiagnostics (Num : Type) := {
  deviceInfo : DeviceInfo Num;
  messages : list (MobileDiagnostic Num)
}.
Arguments deviceInfo {Num} _.
Arguments messages {Num} _.

(** An entry of [getDiagnostics()]. *)
Record Diagnostic := {
  diag_index : Z;
  diag_messageId : string;
  diag_scrollHeight : Z;
  diag_clientHeight : Z;
  diag_offsetHeight : Z;
  diag_isOverflowing : bool;
  diag_styles : list (string * string);
  diag_content : Js.text
}.

(* ================================================================== *)
(** ** class MobileTextFix *)
(* ================================================================== *)

Module MobileTextFix.
Section Methods.
Variable br : Browser.

Definition applyMobileStyles (element : Node)
    (styles : list (string * string)) : M unit :=
  forEach
    (fun '(property, value) =>
       try_catch
         (let cssProperty := Js.cssProperty property in
          setProperty br element cssProperty value "important")
         (fun error => console_warn (MobileStyleFailed property error)))
    styles.

Definition checkMobileOverflow (textMessage : Node) : M unit :=
  sh <- get_scrollHeight br textMessage ;;
  ch <- get_clientHeight br textMessage ;;
  if ch + 5 <? sh then
    sh1 <- get_scrollHeight br textMessage ;;
    ch1 <- get_clientHeight br textMessage ;;
    console_warn (MobileOverflow (node_id textMessage) sh1 ch1) ;;
    sh2 <- get_scrollHeight br textMessage ;;
    applyMobileStyles textMessage
      [("height", "auto");
       ("minHeight", String.append (Js.string_of_Z sh2) "px");
       ("overflow", "visible")] ;;
    setTimeout (MobileResetHeight textMessage) 100
  else ret tt.

(** The body of the timer set by [checkMobileOverflow]. *)
Definition resetHeight (textMessage : Node) : M unit :=
  applyMobileStyles textMessage
    [("height", "auto"); ("minHeight", "auto")].

(** The flag [hasLongWord] that [breakLongWords] computes for one text
    node: some piece of [text.split(/(\s+)/)] is longer than
    [Math.floor(window.innerWidth / 12)] and holds no white space. *)
Definition hasLongWord (text : Js.text) : bool :=
  let words := Js.split_ws text in
  existsb
    (fun word =>
       let maxLength := innerWidth br / 12 in
       (maxLength <? Z.of_nat (length word)) && negb (Js.has_space word))
    words.

(** For every text node with a long word, the nearest ancestor with class
    [text-message] (the [while] loop over [parentElement]) gets the two
    word-breaking styles. *)
Definition breakLongWords (textMessage : Node) : M unit :=
  let textNodes := textNodesOf textMessage in
  forEach
    (fun textNode =>
       if hasLongWord (node_text textNode) then
         match
           List.find (fun parent => classList_contains parent "text-message")
             (parentChain (document br) textNode)
         with
         | Some parent =>
             applyMobileStyles parent
               [("wordBreak", "break-all"); ("overflowWrap", "anywhere")]
         | None => ret tt
         end
       else ret tt)
    textNodes.

(** The object [mobileStyles] once the small-screen entries are added. *)
Definition mobileStyles (isSmallScreen : bool) (textMessage : Node)
    : list (string * string) :=
  [("maxHeight", "none");
   ("height", "auto");
   ("minHeight", "auto");
   ("overflow", "visible");
   ("overflowX", "visible");
   ("overflowY", "visible");
   ("wordBreak", "break-all");
   ("overflowWrap", "anywhere");
   ("webkitHyphens", "auto");
   ("mozHyphens", "auto");
   ("hyphens", "auto");
   ("whiteSpace",
     if classList_contains textMessage "markdown-rendered"
     then "normal" else "pre-wrap")]
  ++ (if isSmallScreen
      then [("fontSize", "0.9rem"); ("lineHeight", "1.4")]
      else []).

Definition linkStyles (isSmallScreen : bool) : list (string * string) :=
  [("wordBreak", "break-all");
   ("overflowWrap", "anywhere");
   ("whiteSpace", "normal");
   ("fontSize", if isSmallScreen then "0.85rem" else "inherit")].

Definition fixMobileTextMessage (textMessage : Node) : M unit :=
  isSmallScreen <- gets mtf_isSmallScreen ;;
  applyMobileStyles textMessage (mobileStyles isSmallScreen textMessage) ;;
  let links := querySelectorAll textMessage (ByTag "a") in
  forEach
    (fun link =>
       isSmallScreen <- gets mtf_isSmallScreen ;;
       applyMobileStyles link (linkStyles isSmallScreen))
    links ;;
  breakLongWords textMessage ;;
  checkMobileOverflow textMessage.

Definition containerStyles (isSmallScreen : bool) : list (string * string) :=
  [("maxWidth", if isSmallScreen then "95%" else "90%");
   ("maxHeight", "none");
   ("height", "auto");
   ("overflow", "visible")].

Definition contentStyles : list (string * string) :=
  [("maxHeight", "none");
   ("height", "auto");
   ("overflow", "visible");
   ("wordWrap", "break-word");
   ("wordBreak", "break-word")].

Definition fixMobileMessage (messageElement : Node) : M unit :=
  try_catch
    (isSmallScreen <- gets mtf_isSmallScreen ;;
     applyMobileStyles messageElement (containerStyles isSmallScreen) ;;
     let messageContent :=
       querySelector messageElement (ByClass "message-content") in
     match messageContent with
     | Some messageContent =>
         applyMobileStyles messageContent contentStyles
     | None => ret tt
     end ;;
     let textMessages :=
       querySelectorAll messageElement (ByClass "text-message") in
     forEach fixMobileTextMessage textMessages)
    (fun error => console_warn (MobileFixFailed error)).

Definition applyMobileFixes : M unit :=
  let messages := querySelectorAll (document br) (ByClass "message") in
  forEach fixMobileMessage messages.

(** The callback given to the [MutationObserver]. *)
Definition onMutations (mutations : list MutationRecord) : M unit :=
  let hasNewMessages :=
    existsb
      (fun mutation =>
         bool_decide (mutation_type mutation = "childList") &&
         existsb
           (fun node =>
              isElement node &&
              (classList_contains node "message"
               || bool_decide
                    (is_Some (querySelector node (ByClass "message")))))
           (addedNodes mutation))
      mutations in
  if hasNewMessages then setTimeout MobileScan 100 else ret tt.

Definition setupObserver : M unit :=
  let messageList := querySelector (document br) (ByClass "message-list") in
  match messageList with
  | Some messageList => observe MobileMutations messageList
  | None => ret tt
  end.

Definition startMobileFix : M unit :=
  applyMobileFixes ;;
  setupObserver ;;
  setInterval MobileScan 3000.

(** The [orientationchange] listener and the timer it sets. *)
Definition onOrientationChange : M unit :=
  setTimeout MobileOrientationSettled 500.

Definition onOrientationSettled : M unit :=
  set_mtf_isSmallScreen (innerWidth br <=? 480) ;;
  applyMobileFixes.

(** The [resize] listener. *)
Definition onResize : M unit :=
  set_mtf_isSmallScreen (innerWidth br <=? 480) ;;
  applyMobileFixes.

Definition init : M unit :=
  isMobile <- gets mtf_isMobile ;;
  if negb isMobile then
    console_log MobileSkipped
  else
    console_log MobileDetected ;;
    (if readyState_loading br
     then addEventListener TheDocument "DOMContentLoaded" MobileStart
     else startMobileFix) ;;
    addEventListener TheWindow "orientationchange" MobileOrientationChange ;;
    addEventListener TheWindow "resize" MobileResize.

Definition constructor : M unit :=
  set_mtf_isMobile (detectMobile br) ;;
  set_mtf_isSmallScreen (innerWidth br <=? 480) ;;
  init.

(** The entry [getMobileDiagnostics] pushes for the message at position
    [index] whose first text message is [textMessage]. *)
Definition mobileDiagnostic {Num} (ins : Inspector Num) (s : Styles)
    (index : nat) (message textMessage : Node) : MobileDiagnostic Num :=
  let rect := getBoundingClientRect ins s (node_id textMessage) in
  let style := getComputedStyle ins s (node_id textMessage) in
  {| mdiag_index := Z.of_nat index + 1;
     mdiag_messageId := diagnosticId message;
     mdiag_width := fst rect;
     mdiag_height := snd rect;
     mdiag_scrollHeight := scrollHeight br s (node_id textMessage);
     mdiag_clientHeight := clientHeight br s (node_id textMessage);
     mdiag_isOverflowing :=
       clientHeight br s (node_id textMessage)
       <? scrollHeight br s (node_id textMessage);
     mdiag_styles :=
       [("wordBreak", style "wordBreak");
        ("overflowWrap", style "overflowWrap");
        ("overflow", style "overflow");
        ("maxHeight", style "maxHeight");
        ("fontSize", style "fontSize")];
     mdiag_content := excerpt 50 (textContentOf textMessage) |}.

Definition getMobileDiagnostics {Num} (ins : Inspector Num)
    : M (MobileDiagnostics Num) :=
  gets
    (fun st =>
       let messages := querySelectorAll (document br) (ByClass "message") in
       {| deviceInfo :=
            {| info_isMobile := mtf_isMobile st;
               info_isSmallScreen := mtf_isSmallScreen st;
               info_screenSize :=
                 String.append (Js.string_of_Z (innerWidth br))
                   (String.append "×" (Js.string_of_Z (innerHeight ins)));
               info_userAgent := userAgent br;
               info_devicePixelRatio := devicePixelRatio ins |};
          messages :=
            flat_map
              (fun '(index, message) =>
                 match querySelector message (ByClass "text-message") with
                 | Some textMessage =>
                     [mobileDiagnostic ins (inlineStyle st) index message
                        textMessage]
                 | None => []
                 end)
              (indexed messages) |}).

End Methods.
End MobileTextFix.

(* ================================================================== *)
(** ** class LongTextFix *)
(* ================================================================== *)

Module LongTextFix.
Section Methods.
Variable br : Browser.

Definition fixElementStyles (element : Node)
    (styles : list (string * string)) : M unit :=
  forEach
    (fun '(property, value) =>
       try_catch
         (let cssProperty := Js.cssProperty property in
          setProperty br element cssProperty value "important")
         (fun error => console_warn (LongStyleFailed property error)))
    styles.

(** The body of the timer set by [checkForOverflow]. *)
Definition resetHeight (textMessage : Node) : M unit :=
  fixElementStyles textMessage
    [("height", "auto"); ("minHeight", "auto")].

(** The function given to [textMessages.forEach] in [checkForOverflow]. *)
Definition checkTextMessage (textMessage : Node) : M unit :=
  sh <- get_scrollHeight br textMessage ;;
  ch <- get_clientHeight br textMessage ;;
  if ch <? sh then
    sh1 <- get_scrollHeight br textMessage ;;
    ch1 <- get_clientHeight br textMessage ;;
    console_warn (LongOverflow (node_id textMessage) sh1 ch1) ;;
    sh2 <- get_scrollHeight br textMessage ;;
    sh3 <- get_scrollHeight br textMessage ;;
    fixElementStyles textMessage
      [("height", String.append (Js.string_of_Z sh2) "px");
       ("minHeight", String.append (Js.string_of_Z sh3) "px")] ;;
    setTimeout (LongResetHeight textMessage) 100
  else ret tt.

Definition checkForOverflow (messageElement : Node) : M unit :=
  let textMessages :=
    querySelectorAll messageElement (ByClass "text-message") in
  forEach checkTextMessage textMessages.

Definition containerStyles : list (string * string) :=
  [("maxHeight", "none");
   ("height", "auto");
   ("minHeight", "auto");
   ("overflow", "visible");
   ("overflowX", "visible");
   ("overflowY", "visible");
   ("display", "flex");
   ("flexDirection", "column");
   ("flexShrink", "0");
   ("flexGrow", "0")].

Definition contentStyles : list (string * string) :=
  [("maxHeight", "none");
   ("height", "auto");
   ("minHeight", "auto");
   ("overflow", "visible");
   ("overflowX", "visible");
   ("overflowY", "visible");
   ("wordWrap", "break-word");
   ("wordBreak", "break-word");
   ("display", "block");
   ("flexShrink", "0");
   ("flexGrow", "0")].

Definition textStyles (textMessage : Node) : list (string * string) :=
  [("maxHeight", "none");
   ("height", "auto");
   ("minHeight", "auto");
   ("overflow", "visible");
   ("overflowX", "visible");
   ("overflowY", "visible");
   ("textOverflow", "clip");
   ("webkitLineClamp", "none");
   ("lineClamp", "none");
   ("webkitBoxOrient", "unset");
   ("display", "block");
   ("flexShrink", "0");
   ("flexGrow", "0");
   ("whiteSpace",
     if classList_contains textMessage "markdown-rendered"
     then "normal" else "pre-wrap");
   ("wordWrap", "break-word");
   ("wordBreak", "break-word");
   ("overflowWrap", "break-word");
   ("hyphens", "auto")].

Definition linkStyles : list (string * string) :=
  [("wordWrap", "break-word");
   ("wordBreak", "break-all");
   ("whiteSpace", "normal");
   ("overflowWrap", "break-word");
   ("hyphens", "auto")].

Definition preStyles : list (string * string) :=
  [("maxHeight", "none");
   ("height", "auto");
   ("overflowX", "auto");
   ("overflowY", "visible");
   ("whiteSpace", "pre-wrap");
   ("wordWrap", "break-word")].

Definition codeStyles : list (string * string) :=
  [("whiteSpace", "pre-wrap");
   ("wordWrap", "break-word");
   ("wordBreak", "break-word")].

(** [!code.parentElement || code.parentElement.tagName !== 'PRE'] *)
Definition notInsidePre (code : Node) : bool :=
  match head (parentChain (document br) code) with
  | None => true
  | Some parentElement =>
      negb (bool_decide (node_tagName parentElement = "PRE"))
  end.

(** The function given to [textMessages.forEach] in [applyFixes]. *)
Definition fixTextMessage (textMessage : Node) : M unit :=
  fixElementStyles textMessage (textStyles textMessage) ;;
  let links := querySelectorAll textMessage (ByTag "a") in
  forEach (fun link => fixElementStyles link linkStyles) links ;;
  let codeBlocks := querySelectorAll textMessage (ByTag "pre") in
  forEach (fun pre => fixElementStyles pre preStyles) codeBlocks ;;
  let inlineCodes := querySelectorAll textMessage (ByTag "code") in
  forEach
    (fun code =>
       if notInsidePre code then fixElementStyles code codeStyles
       else ret tt)
    inlineCodes.

Definition applyFixes (messageElement : Node) : M unit :=
  try_catch
    (fixElementStyles messageElement containerStyles ;;
     let messageContent :=
       querySelector messageElement (ByClass "message-content") in
     match messageContent with
     | Some messageContent =>
         fixElementStyles messageContent contentStyles
     | None => ret tt
     end ;;
     let textMessages :=
       querySelectorAll messageElement (ByClass "text-message") in
     forEach fixTextMessage textMessages ;;
     checkForOverflow messageElement)
    (fun error => console_warn (LongFixFailed error)).

(** [message.dataset.messageId || message.id || 'unknown']: an absent or
    empty string is falsy. *)
Definition messageIdOf (message : Node) : string :=
  match dataset_messageId message with
  | Some d =>
      if bool_decide (d = "") then
        if bool_decide (node_id_attr message = "") then "unknown"
        else node_id_attr message
      else d
  | None =>
      if bool_decide (node_id_attr message = "") then "unknown"
      else node_id_attr message
  end.

Definition fixMessageElement (element : Node) : M unit :=
  let messages :=
    if classList_contains element "message" then [element]
    else querySelectorAll element (ByClass "message") in
  forEach
    (fun message =>
       let messageId := messageIdOf message in
       fixedElements <- gets ltf_fixedElements ;;
       if bool_decide (messageId ∈ fixedElements) then ret tt
       else
         applyFixes message ;;
         (fun st =>
            (Normal tt,
             set_ltf_fixedElements
               ({[messageId]} ∪ ltf_fixedElements st) st)))
    messages.

Definition fixAllMessages : M unit :=
  let messages := querySelectorAll (document br) (ByClass "message") in
  forEach fixMessageElement messages.

(** The callback given to the [MutationObserver]. *)
Definition onMutations (mutations : list MutationRecord) : M unit :=
  forEach
    (fun mutation =>
       if bool_decide (mutation_type mutation = "childList") then
         forEach
           (fun node =>
              if isElement node then fixMessageElement node else ret tt)
           (addedNodes mutation)
       else ret tt)
    mutations.

Definition startMonitoring : M unit :=
  fixAllMessages ;;
  set_ltf_observer (Some LongMutations) ;;
  let messageList := querySelector (document br) (ByClass "message-list") in
  match messageList with
  | Some messageList => observe LongMutations messageList
  | None => ret tt
  end ;;
  setInterval LongScan 5000.

Definition init : M unit :=
  if readyState_loading br
  then addEventListener TheDocument "DOMContentLoaded" LongStart
  else startMonitoring.

Definition constructor : M unit :=
  set_ltf_observer None ;;
  (fun st => (Normal tt, set_ltf_fixedElements ∅ st)) ;;
  set_ltf_isMobile (detectMobile br) ;;
  init.

Definition manualFix : M unit :=
  console_log LongManualFix ;;
  (fun st => (Normal tt, set_ltf_fixedElements ∅ st)) ;;
  fixAllMessages.

Definition stop : M unit :=
  observer <- gets ltf_observer ;;
  match observer with
  | Some observer => disconnect observer ;; set_ltf_observer None
  | None => ret tt
  end.

(** The entry [getDiagnostics] pushes for the message at position [index]
    whose first text message is [textMessage]. *)
Definition diagnostic {Num} (ins : Inspector Num) (s : Styles)
    (index : nat) (message textMessage : Node) : Diagnostic :=
  let computedStyle := getComputedStyle ins s (node_id textMessage) in
  {| diag_index := Z.of_nat index + 1;
     diag_messageId := diagnosticId message;
     diag_scrollHeight := scrollHeight br s (node_id textMessage);
     diag_clientHeight := clientHeight br s (node_id textMessage);
     diag_offsetHeight := offsetHeight ins s (node_id textMessage);
     diag_isOverflowing :=
       clientHeight br s (node_id textMessage)
       <? scrollHeight br s (node_id textMessage);
     diag_styles :=
       [("maxHeight", computedStyle "maxHeight");
        ("height", computedStyle "height");
        ("overflow", computedStyle "overflow");
        ("overflowY", computedStyle "overflowY");
        ("whiteSpace", computedStyle "whiteSpace");
        ("wordWrap", computedStyle "wordWrap");
        ("wordBreak", computedStyle "wordBreak");
        ("textOverflow", computedStyle "textOverflow");
        ("webkitLineClamp", computedStyle "webkitLineClamp");
        ("display", computedStyle "display")];
     diag_content := excerpt 50 (textContentOf textMessage) |}.

Definition getDiagnostics {Num} (ins : Inspector Num)
    : M (list Diagnostic) :=
  gets
    (fun st =>
       let messages := querySelectorAll (document br) (ByClass "message") in
       flat_map
         (fun '(index, message) =>
            match querySelector message (ByClass "text-message") with
            | Some textMessage =>
                [diagnostic ins (inlineStyle st) index message textMessage]
            | None => []
            end)
         (indexed messages)).

End Methods.
End LongTextFix.

(** What the browser runs when it fires a registered callback; [mutations]
    is the argument of a [MutationObserver] callback. *)
Definition invoke (br : Browser) (cb : Callback)
    (mutations : list MutationRecord) : M unit :=
  match cb with
  | MobileStart => MobileTextFix.startMobileFix br
  | MobileOrientationChange => MobileTextFix.onOrientationChange
  | MobileOrientationSettled => MobileTextFix.onOrientationSettled br
  | MobileResize => MobileTextFix.onResize br
  | MobileScan => MobileTextFix.applyMobileFixes br
  | MobileMutations => MobileTextFix.onMutations mutations
  | MobileResetHeight textMessage => MobileTextFix.resetHeight br textMessage
  | LongStart => LongTextFix.startMonitoring br
  | LongMutations => LongTextFix.onMutations br mutations
  | LongScan => LongTextFix.fixAllMessages br
  | LongResetHeight textMessage => LongTextFix.resetHeight br textMessage
  end.

(* ================================================================== *)
(** ** Vocabulary for stating the properties *)
(* ================================================================== *)

(** A [setProperty] call made with top priority. *)
Definition important_effect (e : Effect) : Prop :=
  match e with
  | SetProperty _ _ _ priority => priority = "important"
  | _ => True
  end.

(** [style_step small m G]: from a state whose small-screen flag is
    [small], the method [m] completes normally, turns the inline
    declarations [s] into [G s], appends effects and timers, and touches
    nothing else. *)
Definition style_step (small : bool) (m : M unit) (G : Styles -> Styles)
    : Prop :=
  ∀ st, mtf_isSmallScreen st = small →
    ∃ evs ts,
      m st = (Normal tt, with_style st (G (inlineStyle st)) evs ts)
      ∧ Forall important_effect evs.

(** One assignment: element, CSS property, value. *)
Definition Write : Type := nat * string * string.

Definition write (br : Browser) (s : Styles) (w : Write) : Styles :=
  let '(e, p, v) := w in
  if setProperty_throws br e p then s
  else <[(e, p) := (v, "important")]> s.

Definition apply_writes (br : Browser) (W : list Write) (s : Styles)
    : Styles :=
  fold_left (write br) W s.

(** The assignments one call of [applyMobileStyles] or [fixElementStyles]
    attempts. *)
Definition writes_of (element : Node) (styles : list (string * string))
    : list Write :=
  map (fun '(property, value) =>
         (node_id element, Js.cssProperty property, value)) styles.

(** The key [k] is assigned by [W] and the assignment does not raise. *)
Definition written (br : Browser) (W : list Write) (k : nat * string) : Prop :=
  setProperty_throws br k.1 k.2 = false ∧ ∃ v, In (k.1, k.2, v) W.

(** CSS names assigned by a style object. *)
Definition css_keys (styles : list (string * string)) : list string :=
  map (fun '(property, _) => Js.cssProperty property) styles.

(** What one entry of a style object leaves in the effect log: the
    assignment, or the warning of the [catch] clause. *)
Definition attempt (br : Browser) (mk : string → JsError → ConsoleMsg)
    (el : Node) (entry : string * string) : Effect :=
  let '(property, value) := entry in
  if setProperty_throws br (node_id el) (Js.cssProperty property)
  then ConsoleWarn
         (mk property (SetPropertyError (node_id el) (Js.cssProperty property)))
  else SetProperty (node_id el) (Js.cssProperty property) value "important".

(** Whether an effect is an assignment on element [e]. *)
Definition assigns_on (e : nat) (ev : Effect) : bool :=
  match ev with
  | SetProperty e' _ _ _ => Nat.eqb e e'
  | _ => false
  end.

(** No entry of the style object is passed to [setProperty] under a name
    that begins with a hyphen. *)
Definition unprefixed (styles : list (string * string)) : bool :=
  forallb
    (fun '(property, _) =>
       match String.get 0 (Js.cssProperty property) with
       | Some c => negb (Ascii.eqb c "-")
       | None => true
       end)
    styles.

(** The [setProperty] calls of an effect log that name the property [p]. *)
Definition calls_of (p : string) (evs : list Effect) : list Effect :=
  List.filter
    (fun ev =>
       match ev with
       | SetProperty _ p' _ _ => String.eqb p' p
       | _ => false
       end)
    evs.

(** The inline declarations MobileTextFix leaves behind, method by method.
    [small] is the small-screen flag of the instance. *)
Module MobileEffects.
Import MobileTextFix.
Section Effects.
Variable small : bool.
Variable br : Browser.

(** The styles of the height pulse, for a measured scroll height. *)
Definition pulseStyles (sh : Z) : list (string * string) :=
  [("height", "auto");
   ("minHeight", String.append (Js.string_of_Z sh) "px");
   ("overflow", "visible")].

(** The declarations after [checkMobileOverflow]. *)
Definition afterCheck (textMessage : Node) (s : Styles) : Styles :=
  if clientHeight br s (node_id textMessage) + 5
     <? scrollHeight br s (node_id textMessage)
  then apply_writes br
         (writes_of textMessage
            (pulseStyles (scrollHeight br s (node_id textMessage)))) s
  else s.

(** The assignments of [breakLongWords]. *)
Definition breakWrites (textMessage : Node) : list Write :=
  flat_map
    (fun textNode =>
       if hasLongWord br (node_text textNode) then
         match
           List.find (fun parent => classList_contains parent "text-message")
             (parentChain (document br) textNode)
         with
         | Some parent =>
             writes_of parent
               [("wordBreak", "break-all"); ("overflowWrap", "anywhere")]
         | None => []
         end
       else [])
    (textNodesOf textMessage).

(** The assignments [fixMobileTextMessage] makes before it measures. *)
Definition textWrites (textMessage : Node) : list Write :=
  writes_of textMessage (mobileStyles small textMessage)
  ++ flat_map (fun link => writes_of link (linkStyles small))
       (querySelectorAll textMessage (ByTag "a"))
  ++ breakWrites textMessage.

Definition afterText (textMessage : Node) (s : Styles) : Styles :=
  afterCheck textMessage (apply_writes br (textWrites textMessage) s).

Definition afterMessage (messageElement : Node) (s : Styles) : Styles :=
  fold_left (fun s tm => afterText tm s)
    (querySelectorAll messageElement (ByClass "text-message"))
    (apply_writes br
       (writes_of messageElement (containerStyles small)
        ++ match querySelector messageElement (ByClass "message-content") with
           | Some messageContent => writes_of messageContent contentStyles
           | None => []
           end) s).

Definition afterScan (s : Styles) : Styles :=
  fold_left (fun s m => afterMessage m s)
    (querySelectorAll (document br) (ByClass "message")) s.

End Effects.
End MobileEffects.

(** The inline declarations LongTextFix leaves behind, method by method. *)
Module LongEffects.
Import LongTextFix.
Section Effects.
Variable br : Browser.

(** The styles of the height pulse, for a measured scroll height. *)
Definition pulseStyles (sh : Z) : list (string * string) :=
  [("height", String.append (Js.string_of_Z sh) "px");
   ("minHeight", String.append (Js.string_of_Z sh) "px")].

(** The declarations after the overflow check of one text message. *)
Definition afterCheck (textMessage : Node) (s : Styles) : Styles :=
  if clientHeight br s (node_id textMessage)
     <? scrollHeight br s (node_id textMessage)
  then apply_writes br
         (writes_of textMessage
            (pulseStyles (scrollHeight br s (node_id textMessage)))) s
  else s.

Definition afterChecks (messageElement : Node) (s : Styles) : Styles :=
  fold_left (fun s tm => afterCheck tm s)
    (querySelectorAll messageElement (ByClass "text-message")) s.

(** The assignments made for one text message. *)
Definition textWrites (textMessage : Node) : list Write :=
  writes_of textMessage (textStyles textMessage)
  ++ flat_map (fun link => writes_of link linkStyles)
       (querySelectorAll textMessage (ByTag "a"))
  ++ flat_map (fun pre => writes_of pre preStyles)
       (querySelectorAll textMessage (ByTag "pre"))
  ++ flat_map
       (fun code =>
          if notInsidePre br code then writes_of code codeStyles else [])
       (querySelectorAll textMessage (ByTag "code")).

(** The assignments [applyFixes] makes before it measures. *)
Definition messageWrites (messageElement : Node) : list Write :=
  writes_of messageElement containerStyles
  ++ match querySelector messageElement (ByClass "message-content") with
     | Some messageContent => writes_of messageContent contentStyles
     | None => []
     end
  ++ flat_map textWrites
       (querySelectorAll messageElement (ByClass "text-message")).

Definition afterFixes (messageElement : Node) (s : Styles) : Styles :=
  afterChecks messageElement
    (apply_writes br (messageWrites messageElement) s).

(** What a scan does with one message. *)
Definition visit (st : State) (message : Node) : State :=
  if bool_decide (messageIdOf message ∈ ltf_fixedElements st) then st
  else set_ltf_fixedElements
         ({[messageIdOf message]} ∪ ltf_fixedElements st)
         (exec (applyFixes br message) st).

End Effects.
End LongEffects.

(* ================================================================== *)
(** ** Concrete pages *)
(* ================================================================== *)

Module Page.

(** "hello" and a 40-letter token. *)
Definition hello : Js.text := [104; 101; 108; 108; 111]%N.
Definition token : Js.text := repeat 120%N 40.

Definition link : Node :=
  Element 14 "A" [] "" None [TextNode 15 token].

Definition textMessage1 : Node :=
  Element 12 "DIV" ["text-message"] "" None [TextNode 13 hello; link].

Definition message1 : Node :=
  Element 10 "DIV" ["message"] "" (Some "m1")
    [Element 11 "DIV" ["message-content"] "" None [textMessage1]].

Definition textMessage2 : Node :=
  Element 22 "DIV" ["text-message"; "markdown-rendered"] "" None
    [TextNode 23 hello].

(** Two messages without [data-message-id] and without [id]; the second
    has no sub-elements at all. *)
Definition message2 : Node :=
  Element 20 "DIV" ["message"] "" None [textMessage2].

Definition message3 : Node :=
  Element 30 "DIV" ["message"] "" None [].

Definition body : Node :=
  Element 0 "BODY" [] "" None
    [Element 1 "DIV" ["message-list"] "" None
       [message1; message2; message3]].

(** A desktop browser; text message 12 is 3 px taller than its box. *)
Definition desktop : Browser :=
  {| document := body;
     readyState_loading := false;
     userAgent := "Mozilla/5.0 (X11; Linux x86_64) Firefox/128.0";
     ontouchstart_in_window := false;
     maxTouchPoints := 0;
     innerWidth := 1280;
     scrollHeight := fun _ e => if Nat.eqb e 12 then 103 else 40;
     clientHeight := fun _ e => if Nat.eqb e 12 then 100 else 40;
     setProperty_throws := fun _ _ => false |}.

(** A phone; text message 12 overflows by 60 px, and assigning
    [max-height] on message 10 raises. *)
Definition phone : Browser :=
  {| document := body;
     readyState_loading := false;
     userAgent := "Mozilla/5.0 (iPhone; CPU iPhone OS 17_0 like Mac OS X)";
     ontouchstart_in_window := true;
     maxTouchPoints := 5;
     innerWidth := 390;
     scrollHeight := fun _ e => if Nat.eqb e 12 then 160 else 40;
     clientHeight := fun _ e => if Nat.eqb e 12 then 100 else 40;
     setProperty_throws :=
       fun e p => Nat.eqb e 10 && bool_decide (p = "max-height") |}.

Definition initial : State :=
  {| inlineStyle := ∅; effects := []; timeouts := []; intervals := [];
     listeners := []; observing := [];
     mtf_isMobile := false; mtf_isSmallScreen := false;
     ltf_observer := None; ltf_fixedElements := ∅;
     ltf_isMobile := false |}.

End Page.

(** A page whose three messages carry distinct identifiers. *)
Definition distinctPage : Browser :=
  {| document :=
       Element 0 "BODY" [] "" None
         [Page.message1;
          Element 40 "DIV" ["message"] "second" None [];
          Element 50 "DIV" ["message"] "" (Some "m3") []];
     readyState_loading := false;
     userAgent := userAgent Page.desktop;
     ontouchstart_in_window := false;
     maxTouchPoints := 0;
     innerWidth := 1280;
     scrollHeight := scrollHeight Page.desktop;
     clientHeight := clientHeight Page.desktop;
     setProperty_throws := fun _ _ => false |}.



(* ================================================================== *)
(** ** Vocabulary for the further properties *)
(* ================================================================== *)

(** The number of capital letters of a name. *)
Fixpoint capitals (s : string) : nat :=
  match s with
  | EmptyString => 0%nat
  | String c r => ((if Js.is_upper c then 1 else 0) + capitals r)%nat
  end.

(** The device names [detectMobile] looks for in the user agent. *)
Definition deviceNames : list string :=
  ["Android"; "iPhone"; "iPad"; "iPod"; "BlackBerry"; "IEMobile";
   "Opera Mini"].

(** The phone of [Page.phone], met while the document is still loading. *)
Definition loadingPhone : Browser :=
  {| document := document Page.phone;
     readyState_loading := true;
     userAgent := userAgent Page.phone;
     ontouchstart_in_window := ontouchstart_in_window Page.phone;
     maxTouchPoints := maxTouchPoints Page.phone;
     innerWidth := innerWidth Page.phone;
     scrollHeight := scrollHeight Page.phone;
     clientHeight := clientHeight Page.phone;
     setProperty_throws := setProperty_throws Page.phone |}.

(** What [observer.observe] is called on: the first [.message-list] of the
    document, when there is one. *)
Definition observedList (br : Browser) (observer : Callback)
    : list (Callback * nat) :=
  match querySelector (document br) (ByClass "message-list") with
  | Some messageList => [(observer, node_id messageList)]
  | None => []
  end.

(** The state once [startMonitoring] has scanned and left [st]: the
    observer is stored and attached to the message list, and the 5000 ms
    interval runs. *)
Definition monitoring (br : Browser) (st : State) : State :=
  {| inlineStyle := inlineStyle st; effects := effects st;
     timeouts := timeouts st;
     intervals := intervals st ++ [(LongScan, 5000)];
     listeners := listeners st;
     observing := observing st ++ observedList br LongMutations;
     mtf_isMobile := mtf_isMobile st;
     mtf_isSmallScreen := mtf_isSmallScreen st;
     ltf_observer := Some LongMutations;
     ltf_fixedElements := ltf_fixedElements st;
     ltf_isMobile := ltf_isMobile st |}.

(** The identifiers of the messages of the page. *)
Definition messageIds (br : Browser) : gset string :=
  list_to_set
    (map LongTextFix.messageIdOf
       (querySelectorAll (document br) (ByClass "message"))).

(** The fields of [window.LongTextFix] as its constructor sets them before
    it calls [init]. *)
Definition created (br : Browser) (st : State) : State :=
  {| inlineStyle := inlineStyle st; effects := effects st;
     timeouts := timeouts st; intervals := intervals st;
     listeners := listeners st; observing := observing st;
     mtf_isMobile := mtf_isMobile st;
     mtf_isSmallScreen := mtf_isSmallScreen st;
     ltf_observer := None;
     ltf_fixedElements := ∅;
     ltf_isMobile := detectMobile br |}.

(** Every entry of a style object, under its CSS name, is accepted by
    [ok]. *)
Definition styles_ok (ok : string → string → Prop)
    (styles : list (string * string)) : Prop :=
  ∀ property value,
    In (property, value) styles → ok (Js.cssProperty property) value.

(** [ok] accepts every entry of every style object MobileTextFix assigns
    while its small-screen flag is [small]. *)
Definition mobile_ok (small : bool) (ok : string → string → Prop) : Prop :=
  styles_ok ok (MobileTextFix.containerStyles small)
  ∧ styles_ok ok MobileTextFix.contentStyles
  ∧ (∀ textMessage,
       styles_ok ok (MobileTextFix.mobileStyles small textMessage))
  ∧ styles_ok ok (MobileTextFix.linkStyles small)
  ∧ styles_ok ok [("wordBreak", "break-all"); ("overflowWrap", "anywhere")]
  ∧ (∀ sh, styles_ok ok (MobileEffects.pulseStyles sh)).

(** [ok] accepts every entry of every style object LongTextFix assigns. *)
Definition long_ok (ok : string → string → Prop) : Prop :=
  styles_ok ok LongTextFix.containerStyles
  ∧ styles_ok ok LongTextFix.contentStyles
  ∧ (∀ textMessage, styles_ok ok (LongTextFix.textStyles textMessage))
  ∧ styles_ok ok LongTextFix.linkStyles
  ∧ styles_ok ok LongTextFix.preStyles
  ∧ styles_ok ok LongTextFix.codeStyles
  ∧ (∀ sh, styles_ok ok (LongEffects.pulseStyles sh)).

(** The CSS property [p] is assigned the value [v] or not at all. *)
Definition only_value (p v : string) : string → string → Prop :=
  fun p' v' => p' = p → v' = v.

(** The CSS property [p] is not assigned. *)
Definition never (p : string) : string → string → Prop :=
  fun p' _ => p' ≠ p.

(** Decision procedures for the two, on a style object. *)
Definition agree (p v : string) (styles : list (string * string)) : bool :=
  forallb
    (fun '(property, value) =>
       implb (String.eqb (Js.cssProperty property) p) (String.eqb value v))
    styles.

Definition absent (p : string) (styles : list (string * string)) : bool :=
  forallb
    (fun '(property, _) => negb (String.eqb (Js.cssProperty property) p))
    styles.

(** Some entry of the style object assigns [v] to the CSS property [p]. *)
Definition assigns (p v : string) (styles : list (string * string)) : bool :=
  existsb
    (fun '(property, value) =>
       String.eqb (Js.cssProperty property) p && String.eqb value v)
    styles.

(** The elements a fix of the message [m] styles against clipping: the
    message, its content wrapper and its text messages. *)
Definition styled_in (m el : Node) : Prop :=
  el = m
  ∨ querySelector m (ByClass "message-content") = Some el
  ∨ In el (querySelectorAll m (ByClass "text-message")).

(** The element [e] carries the inline declaration [p: v !important]. *)
Definition declared (s : Styles) (e : nat) (p v : string) : Prop :=
  s !! (e, p) = Some (v, "important").

(** The messages LongTextFix looks for in an element: the element itself
    when it is a message, the messages inside it otherwise. *)
Definition messagesOf (element : Node) : list Node :=
  if classList_contains element "message" then [element]
  else querySelectorAll element (ByClass "message").

(** The messages a mutation notification brings: those of the elements
    added by its records of type [childList]. *)
Definition addedMessages (mutations : list MutationRecord) : list Node :=
  flat_map
    (fun mutation =>
       if bool_decide (mutation_type mutation = "childList") then
         flat_map
           (fun node => if isElement node then messagesOf node else [])
           (addedNodes mutation)
       else [])
    mutations.

(* ================================================================== *)
(** ** Reasoning about the effects of a method *)
(* ================================================================== *)

(** The string helpers on the inputs the scripts give them. *)
Example cssProperty_examples :
  Js.cssProperty "minHeight" = "min-height"
  ∧ Js.cssProperty "webkitLineClamp" = "webkit-line-clamp"
  ∧ Js.cssProperty "overflowX" = "overflow-x"
  ∧ Js.cssProperty "hyphens" = "hyphens".
Proof. repeat split; reflexivity. Qed.

Example split_ws_examples :
  Js.split_ws [32; 97; 32; 32; 98; 32]%N
  = [[]; [32]; [97]; [32; 32]; [98]; [32]; []]%N
  ∧ Js.split_ws [] = [[]]
  ∧ Js.split_ws [97; 98]%N = [[97; 98]]%N.
Proof. repeat split; reflexivity. Qed.

Example string_of_Z_examples :
  Js.string_of_Z 160 = "160" ∧ Js.string_of_Z 0 = "0".
Proof. split; reflexivity. Qed.

Example page_queries :
  map node_id (querySelectorAll Page.body (ByClass "message")) = [10; 20; 30]%nat
  ∧ map node_id (querySelectorAll Page.message1 (ByTag "a")) = [14%nat]
  ∧ map node_id (parentChain Page.body (TextNode 15 Page.token))
    = [14; 12; 11; 10; 1; 0]%nat
  ∧ detectMobile Page.desktop = false
  ∧ detectMobile Page.phone = true
  ∧ MobileTextFix.hasLongWord Page.phone Page.token = true
  ∧ MobileTextFix.hasLongWord Page.phone Page.hello = false.
Proof. repeat split; reflexivity. Qed.

Lemma with_style_same (st : State) :
  with_style st (inlineStyle st) [] [] = st.
Proof.
  destruct st; unfold with_style; simpl. by rewrite !app_nil_r.
Qed.

Lemma with_style_twice (st : State) s1 e1 t1 s2 e2 t2 :
  with_style (with_style st s1 e1 t1) s2 e2 t2
  = with_style st s2 (e1 ++ e2) (t1 ++ t2).
Proof. unfold with_style; simpl. by rewrite !app_assoc. Qed.

Section StyleSteps.
Variable small : bool.

Lemma step_ret : style_step small (ret tt) (fun s => s).
Proof.
  intros st _. exists [], []. split; [|constructor].
  unfold ret. by rewrite with_style_same.
Qed.

Lemma step_ext m G G' :
  (∀ s, G s = G' s) → style_step small m G → style_step small m G'.
Proof.
  intros E H st Hs. destruct (H st Hs) as (evs & ts & -> & F).
  exists evs, ts. by rewrite E.
Qed.

Lemma step_conv m G G' :
  style_step small m G → (∀ s, G s = G' s) → style_step small m G'.
Proof. intros H E. by apply (step_ext m G G'). Qed.

Lemma step_bind m1 m2 G1 G2 :
  style_step small m1 G1 → style_step small m2 G2 →
  style_step small (m1 ;; m2) (fun s => G2 (G1 s)).
Proof.
  intros H1 H2 st Hs.
  destruct (H1 st Hs) as (e1 & t1 & E1 & F1).
  destruct (H2 (with_style st (G1 (inlineStyle st)) e1 t1) Hs)
    as (e2 & t2 & E2 & F2).
  exists (e1 ++ e2), (t1 ++ t2). split.
  - unfold bind. rewrite E1, E2. simpl. by rewrite with_style_twice.
  - by apply Forall_app.
Qed.

Lemma step_try m h G :
  style_step small m G → style_step small (try_catch m h) G.
Proof.
  intros H st Hs. destruct (H st Hs) as (evs & ts & E & F).
  exists evs, ts. split; [|done]. unfold try_catch. by rewrite E.
Qed.

Lemma step_forEach {A} (f : A → M unit) (G : A → Styles → Styles) l :
  (∀ x, In x l → style_step small (f x) (G x)) →
  style_step small (forEach f l) (fun s => fold_left (fun s x => G x s) l s).
Proof.
  induction l as [|x l IH]; intros H; simpl.
  - apply step_ret.
  - apply (step_bind (f x) (forEach f l) (G x)
             (fun s => fold_left (fun s x => G x s) l s)).
    + apply H. by left.
    + apply IH. intros y Hy. apply H. by right.
Qed.

Lemma step_small (k : bool → M unit) G :
  style_step small (k small) G →
  style_step small (b <- gets mtf_isSmallScreen ;; k b) G.
Proof.
  intros H st Hs. unfold bind, gets. rewrite Hs. by apply H.
Qed.

Lemma step_emit e :
  important_effect e → style_step small (emit e) (fun s => s).
Proof.
  intros He st _. exists [e], []. split; [done|]. by constructor.
Qed.

Lemma step_setTimeout cb ms :
  style_step small (setTimeout cb ms) (fun s => s).
Proof. intros st _. exists [], [(cb, ms)]. split; [done|constructor]. Qed.

Lemma step_scrollHeight (br : Browser) (el : Node) (k : Z → M unit) (G : Z → Styles → Styles) :
  (∀ z, style_step small (k z) (G z)) →
  style_step small (z <- get_scrollHeight br el ;; k z)
    (fun s => G (scrollHeight br s (node_id el)) s).
Proof. intros H st Hs. unfold bind, get_scrollHeight, gets. by apply H. Qed.

Lemma step_clientHeight (br : Browser) (el : Node) (k : Z → M unit) (G : Z → Styles → Styles) :
  (∀ z, style_step small (k z) (G z)) →
  style_step small (z <- get_clientHeight br el ;; k z)
    (fun s => G (clientHeight br s (node_id el)) s).
Proof. intros H st Hs. unfold bind, get_clientHeight, gets. by apply H. Qed.

(** What a step leaves alone. *)
Lemma step_frame m G st :
  style_step small m G → mtf_isSmallScreen st = small →
  completion m st = Normal tt
  ∧ inlineStyle (exec m st) = G (inlineStyle st)
  ∧ (∃ evs, effects (exec m st) = effects st ++ evs
            ∧ Forall important_effect evs)
  ∧ (∃ ts, timeouts (exec m st) = timeouts st ++ ts)
  ∧ intervals (exec m st) = intervals st
  ∧ listeners (exec m st) = listeners st
  ∧ observing (exec m st) = observing st
  ∧ mtf_isSmallScreen (exec m st) = mtf_isSmallScreen st
  ∧ ltf_fixedElements (exec m st) = ltf_fixedElements st.
Proof.
  intros H Hs. destruct (H st Hs) as (evs & ts & E & F).
  unfold completion, exec. rewrite E. simpl. eauto 12.
Qed.

End StyleSteps.

(* ------------------------------------------------------------------ *)
(** *** Declarations written by a list of assignments *)
(* ------------------------------------------------------------------ *)

Section Writes.
Variable br : Browser.

Lemma apply_writes_app W1 W2 s :
  apply_writes br (W1 ++ W2) s = apply_writes br W2 (apply_writes br W1 s).
Proof. unfold apply_writes. by rewrite fold_left_app. Qed.

Lemma write_other s e p v k :
  k ≠ (e, p) → write br s (e, p, v) !! k = s !! k.
Proof.
  intros Hk. simpl. destruct (setProperty_throws br e p); [done|].
  by rewrite lookup_insert_ne.
Qed.

Lemma apply_writes_cons w W s :
  apply_writes br (w :: W) s = apply_writes br W (write br s w).
Proof. reflexivity. Qed.

Lemma apply_writes_unwritten W s k :
  ¬ written br W k → apply_writes br W s !! k = s !! k.
Proof.
  revert s. induction W as [|[[e p] v] W IH]; intros s Hk; [done|].
  rewrite apply_writes_cons, IH.
  - destruct (decide (k = (e, p))) as [->|Hne].
    + unfold write. destruct (setProperty_throws br e p) eqn:T; [done|].
      exfalso. apply Hk. split; [done|]. exists v. by left.
    + by apply write_other.
  - intros [T [v' Hv']]. apply Hk. split; [done|]. exists v'. by right.
Qed.

(** The outcome of the assignments depends on the prior declarations only
    at the keys they leave alone. *)
Lemma apply_writes_agree W s1 s2 :
  (∀ k, ¬ written br W k → s1 !! k = s2 !! k) →
  apply_writes br W s1 = apply_writes br W s2.
Proof.
  revert s1 s2. induction W as [|[[e p] v] W IH]; intros s1 s2 H.
  - simpl. apply map_eq. intros k. apply H. by intros [_ [v []]].
  - rewrite !apply_writes_cons. apply IH. intros k Hk.
    destruct (decide (k = (e, p))) as [->|Hne].
    + unfold write. destruct (setProperty_throws br e p) eqn:T.
      * apply H. intros [T' _]. simpl in T'. congruence.
      * by rewrite !lookup_insert_eq.
    + rewrite !write_other by done. apply H.
      intros [T [v' [Hv'|Hv']]].
      * destruct k; simpl in *. congruence.
      * apply Hk. split; [done|]. by exists v'.
Qed.


(** Assignments that only touch keys of [W] are undone by [W]. *)
Lemma apply_writes_absorb W C s :
  (∀ k, written br C k → written br W k) →
  apply_writes br W (apply_writes br C (apply_writes br W s))
  = apply_writes br W s.
Proof.
  intros HC. apply apply_writes_agree. intros k Hk.
  rewrite apply_writes_unwritten by (intros HCk; apply Hk; by apply HC).
  by apply apply_writes_unwritten.
Qed.



End Writes.

Lemma bind_gets {A B} (f : State → A) (k : A → M B) st :
  (x <- gets f ;; k x) st = k (f st) st.
Proof. reflexivity. Qed.

Lemma fold_apply_writes br {A} (Wf : A → list Write) l s :
  fold_left (fun s x => apply_writes br (Wf x) s) l s
  = apply_writes br (flat_map Wf l) s.
Proof.
  revert s. induction l as [|x l IH]; intros s; simpl; [done|].
  by rewrite apply_writes_app, IH.
Qed.

Lemma written_writes_of br el styles k :
  written br (writes_of el styles) k ↔
  setProperty_throws br k.1 k.2 = false ∧ k.1 = node_id el
  ∧ In k.2 (css_keys styles).
Proof.
  unfold written, writes_of, css_keys. split.
  - intros [T [v Hv]]. split; [done|].
    apply in_map_iff in Hv as [[p w] [E Hin]].
    injection E as E1 E2 E3.
    split; [done|]. apply in_map_iff. exists (p, w). by split.
  - intros (T & E & Hin). split; [done|].
    apply in_map_iff in Hin as [[p w] [E' Hin]]. exists w.
    apply in_map_iff. exists (p, w). split; [|done]. by rewrite E, E'.
Qed.

Lemma attempt_important br mk el entry :
  important_effect (attempt br mk el entry).
Proof.
  destruct entry as [p v]. unfold attempt.
  by destruct (setProperty_throws _ _ _).
Qed.

Lemma bind_normal {A B} (m : M A) (k : A → M B) st a st' :
  m st = (Normal a, st') → (x <- m ;; k x) st = k a st'.
Proof. intros E. unfold bind. by rewrite E. Qed.

(** The loop shared by [applyMobileStyles] and [fixElementStyles]: every
    entry is attempted in order, with top priority, and a failure is
    logged; the loop itself never raises. *)
Lemma assign_exact br (mk : string → JsError → ConsoleMsg) el styles st :
  forEach
    (fun '(property, value) =>
       try_catch
         (setProperty br el (Js.cssProperty property) value "important")
         (fun error => console_warn (mk property error)))
    styles st
  = (Normal tt,
     with_style st (apply_writes br (writes_of el styles) (inlineStyle st))
       (map (attempt br mk el) styles) []).
Proof.
  revert st. induction styles as [|[p v] styles IH]; intros st.
  - simpl. unfold ret. by rewrite with_style_same.
  - cbn [forEach].
    erewrite bind_normal; cycle 1.
    { instantiate
        (1 := with_style st
                (write br (inlineStyle st) (node_id el, Js.cssProperty p, v))
                [attempt br mk el (p, v)] []).
      instantiate (1 := tt).
      unfold try_catch, setProperty, write, attempt.
      by destruct (setProperty_throws br (node_id el) (Js.cssProperty p)). }
    rewrite IH. by rewrite with_style_twice.
Qed.

Section Assignments.
Variable small : bool.
Variable br : Browser.

Lemma step_assign (mk : string → JsError → ConsoleMsg) el styles :
  style_step small
    (forEach
       (fun '(property, value) =>
          try_catch
            (setProperty br el (Js.cssProperty property) value "important")
            (fun error => console_warn (mk property error)))
       styles)
    (apply_writes br (writes_of el styles)).
Proof.
  intros st _. eexists _, _. split; [apply assign_exact|].
  induction styles as [|entry styles IH]; simpl; constructor;
    [apply attempt_important|exact IH].
Qed.

Lemma step_forEach_writes {A} (f : A → M unit) (Wf : A → list Write) l :
  (∀ x, In x l → style_step small (f x) (apply_writes br (Wf x))) →
  style_step small (forEach f l) (apply_writes br (flat_map Wf l)).
Proof.
  intros H. eapply step_ext; [|apply step_forEach, H].
  intros s. apply fold_apply_writes.
Qed.

Lemma step_bind_writes m1 m2 W1 W2 :
  style_step small m1 (apply_writes br W1) →
  style_step small m2 (apply_writes br W2) →
  style_step small (m1 ;; m2) (apply_writes br (W1 ++ W2)).
Proof.
  intros H1 H2. eapply step_ext; [|apply (step_bind small _ _ _ _ H1 H2)].
  intros s. simpl. by rewrite apply_writes_app.
Qed.

Lemma step_ret_writes : style_step small (ret tt) (apply_writes br []).
Proof. apply step_ret. Qed.

End Assignments.

(* ------------------------------------------------------------------ *)
(** *** The steps of MobileTextFix *)
(* ------------------------------------------------------------------ *)

Module MobileSteps.
Import MobileEffects.
Import MobileTextFix.
Section Steps.
Variable small : bool.
Variable br : Browser.

Lemma step_applyMobileStyles el styles :
  style_step small (applyMobileStyles br el styles)
    (apply_writes br (writes_of el styles)).
Proof. apply (step_assign small br MobileStyleFailed). Qed.

Lemma applyMobileStyles_exact el styles st :
  applyMobileStyles br el styles st
  = (Normal tt,
     with_style st (apply_writes br (writes_of el styles) (inlineStyle st))
       (map (attempt br MobileStyleFailed el) styles) []).
Proof. apply assign_exact. Qed.

(** [checkMobileOverflow], effect by effect. *)
Lemma checkMobileOverflow_exact tm st :
  checkMobileOverflow br tm st
  = (Normal tt,
     let sh := scrollHeight br (inlineStyle st) (node_id tm) in
     let ch := clientHeight br (inlineStyle st) (node_id tm) in
     if ch + 5 <? sh then
       with_style st
         (apply_writes br (writes_of tm (pulseStyles sh)) (inlineStyle st))
         (ConsoleWarn (MobileOverflow (node_id tm) sh ch)
          :: map (attempt br MobileStyleFailed tm) (pulseStyles sh))
         [(MobileResetHeight tm, 100)]
     else st).
Proof.
  unfold checkMobileOverflow.
  unfold get_scrollHeight at 1. unfold get_clientHeight at 1.
  rewrite !bind_gets. cbv zeta.
  destruct (_ <? _); [|done].
  unfold get_scrollHeight, get_clientHeight. rewrite !bind_gets.
  erewrite bind_normal by (unfold console_warn, emit; reflexivity).
  rewrite bind_gets. cbn [inlineStyle with_style].
  erewrite bind_normal by apply applyMobileStyles_exact.
  unfold setTimeout. cbn [inlineStyle with_style].
  rewrite !with_style_twice. unfold pulseStyles.
  by rewrite !app_nil_r.
Qed.

Lemma step_checkMobileOverflow tm :
  style_step small (checkMobileOverflow br tm) (afterCheck br tm).
Proof.
  intros st Hs. rewrite checkMobileOverflow_exact. unfold afterCheck.
  cbv zeta. destruct (_ <? _).
  - eexists _, _. split; [reflexivity|].
    constructor; [done|].
    induction (pulseStyles _) as [|entry l IH]; simpl; constructor;
      [apply attempt_important|exact IH].
  - exists [], []. split; [|constructor]. by rewrite with_style_same.
Qed.

Lemma step_breakLongWords tm :
  style_step small (breakLongWords br tm) (apply_writes br (breakWrites br tm)).
Proof.
  unfold breakLongWords, breakWrites.
  apply step_forEach_writes. intros tn _.
  destruct (hasLongWord br (node_text tn)); [|apply step_ret].
  destruct (List.find _ _); [|apply step_ret].
  apply step_applyMobileStyles.
Qed.

Lemma step_fixMobileTextMessage tm :
  style_step small (fixMobileTextMessage br tm) (afterText small br tm).
Proof.
  unfold fixMobileTextMessage, afterText, textWrites.
  apply step_small. eapply step_conv.
  - eapply step_bind; [apply step_applyMobileStyles|].
    eapply step_bind.
    + apply step_forEach_writes. intros link _.
      apply step_small. apply step_applyMobileStyles.
    + eapply step_bind;
        [apply step_breakLongWords|apply step_checkMobileOverflow].
  - intros s. cbv beta. by rewrite !apply_writes_app.
Qed.

Lemma step_fixMobileMessage m :
  style_step small (fixMobileMessage br m) (afterMessage small br m).
Proof.
  unfold fixMobileMessage, afterMessage. apply step_try.
  apply step_small. eapply step_conv.
  - eapply step_bind; [apply step_applyMobileStyles|].
    eapply step_bind.
    + instantiate
        (1 := apply_writes br
                match querySelector m (ByClass "message-content") with
                | Some messageContent =>
                    writes_of messageContent contentStyles
                | None => []
                end).
      destruct (querySelector m _);
        [apply step_applyMobileStyles|apply step_ret].
    + apply step_forEach. intros tm _. apply step_fixMobileTextMessage.
  - intros s. cbv beta. by rewrite apply_writes_app.
Qed.

Lemma step_applyMobileFixes :
  style_step small (applyMobileFixes br) (afterScan small br).
Proof.
  unfold applyMobileFixes, afterScan.
  apply step_forEach. intros m _. apply step_fixMobileMessage.
Qed.

End Steps.
End MobileSteps.

(* ------------------------------------------------------------------ *)
(** *** The steps of LongTextFix *)
(* ------------------------------------------------------------------ *)

Module LongSteps.
Import LongEffects.
Import LongTextFix.
Section Steps.
Variable small : bool.
Variable br : Browser.

Lemma step_fixElementStyles el styles :
  style_step small (fixElementStyles br el styles)
    (apply_writes br (writes_of el styles)).
Proof. apply (step_assign small br LongStyleFailed). Qed.

Lemma fixElementStyles_exact el styles st :
  fixElementStyles br el styles st
  = (Normal tt,
     with_style st (apply_writes br (writes_of el styles) (inlineStyle st))
       (map (attempt br LongStyleFailed el) styles) []).
Proof. apply assign_exact. Qed.

Lemma checkForOverflow_unfold m :
  checkForOverflow br m
  = forEach (checkTextMessage br) (querySelectorAll m (ByClass "text-message")).
Proof. reflexivity. Qed.

Lemma checkTextMessage_exact tm st :
  checkTextMessage br tm st
  = (Normal tt,
     let sh := scrollHeight br (inlineStyle st) (node_id tm) in
     let ch := clientHeight br (inlineStyle st) (node_id tm) in
     if ch <? sh then
       with_style st
         (apply_writes br (writes_of tm (pulseStyles sh)) (inlineStyle st))
         (ConsoleWarn (LongOverflow (node_id tm) sh ch)
          :: map (attempt br LongStyleFailed tm) (pulseStyles sh))
         [(LongResetHeight tm, 100)]
     else st).
Proof.
  unfold checkTextMessage.
  unfold get_scrollHeight at 1. unfold get_clientHeight at 1.
  rewrite !bind_gets. cbv zeta.
  destruct (_ <? _); [|done].
  unfold get_scrollHeight, get_clientHeight. rewrite !bind_gets.
  erewrite bind_normal by (unfold console_warn, emit; reflexivity).
  rewrite !bind_gets. cbn [inlineStyle with_style].
  erewrite bind_normal by apply fixElementStyles_exact.
  unfold setTimeout. cbn [inlineStyle with_style].
  rewrite !with_style_twice. unfold pulseStyles.
  by rewrite !app_nil_r.
Qed.

Lemma step_check tm : style_step small (checkTextMessage br tm) (afterCheck br tm).
Proof.
  intros st Hs. rewrite checkTextMessage_exact. unfold afterCheck.
  cbv zeta. destruct (_ <? _).
  - eexists _, _. split; [reflexivity|].
    constructor; [done|].
    induction (pulseStyles _) as [|entry l IH]; simpl; constructor;
      [apply attempt_important|exact IH].
  - exists [], []. split; [|constructor]. by rewrite with_style_same.
Qed.

Lemma step_checkForOverflow m :
  style_step small (checkForOverflow br m) (afterChecks br m).
Proof.
  rewrite checkForOverflow_unfold. unfold afterChecks.
  apply step_forEach. intros tm _. apply step_check.
Qed.

Lemma step_fixTextMessage tm :
  style_step small (fixTextMessage br tm) (apply_writes br (textWrites br tm)).
Proof.
  unfold fixTextMessage, textWrites.
  apply step_bind_writes; [apply step_fixElementStyles|].
  apply step_bind_writes.
  { apply step_forEach_writes. intros x _. apply step_fixElementStyles. }
  apply step_bind_writes.
  { apply step_forEach_writes. intros x _. apply step_fixElementStyles. }
  apply step_forEach_writes. intros x _.
  destruct (notInsidePre br x); [apply step_fixElementStyles|apply step_ret].
Qed.

Lemma step_applyFixes m :
  style_step small (applyFixes br m) (afterFixes br m).
Proof.
  unfold applyFixes, afterFixes, messageWrites. apply step_try.
  eapply step_conv.
  - eapply step_bind; [apply step_fixElementStyles|].
    eapply step_bind.
    + instantiate
        (1 := apply_writes br
                match querySelector m (ByClass "message-content") with
                | Some messageContent =>
                    writes_of messageContent contentStyles
                | None => []
                end).
      destruct (querySelector m _);
        [apply step_fixElementStyles|apply step_ret].
    + eapply step_bind; [|apply step_checkForOverflow].
      apply step_forEach_writes. intros tm _. apply step_fixTextMessage.
  - intros s. cbv beta. by rewrite !apply_writes_app.
Qed.

End Steps.
End LongSteps.


(* ================================================================== *)
(** ** Properties of the overflow check and of the height pulse *)
(* ================================================================== *)

Lemma checkForOverflow_quiet (br : Browser) (m : Node) (st : State) :
  (∀ tm, In tm (querySelectorAll m (ByClass "text-message")) →
     scrollHeight br (inlineStyle st) (node_id tm)
     ≤ clientHeight br (inlineStyle st) (node_id tm)) →
  LongTextFix.checkForOverflow br m st = (Normal tt, st).
Proof.
  unfold LongTextFix.checkForOverflow.
  induction (querySelectorAll m (ByClass "text-message")) as [|tm l IH];
    intros H; [done|].
  cbn [forEach]. erewrite bind_normal by apply LongSteps.checkTextMessage_exact.
  cbv zeta. destruct (Z.ltb_spec
    (clientHeight br (inlineStyle st) (node_id tm))
    (scrollHeight br (inlineStyle st) (node_id tm))) as [Hlt|_].
  - specialize (H tm (or_introl eq_refl)). lia.
  - apply IH. intros x Hx. apply H. by right.
Qed.

(** C1 (as amended): the check of MobileTextFix warns exactly when the
    scroll height of the text message exceeds its client height by more
    than 5 px, and otherwise does nothing.  The check of LongTextFix has no
    tolerance: for each text message it warns exactly when the scroll
    height exceeds the client height at all, and a message none of whose
    text messages does so is left alone. *)
Theorem C1_overflow_detection (br : Browser) (tm : Node) (st : State) :
  let sh := scrollHeight br (inlineStyle st) (node_id tm) in
  let ch := clientHeight br (inlineStyle st) (node_id tm) in
  (ch + 5 < sh →
     ∃ evs, effects (exec (MobileTextFix.checkMobileOverflow br tm) st)
            = effects st ++ ConsoleWarn (MobileOverflow (node_id tm) sh ch)
                            :: evs)
  ∧ (sh ≤ ch + 5 →
     MobileTextFix.checkMobileOverflow br tm st = (Normal tt, st))
  ∧ (ch < sh →
     ∃ evs, effects (exec (LongTextFix.checkTextMessage br tm) st)
            = effects st ++ ConsoleWarn (LongOverflow (node_id tm) sh ch)
                            :: evs)
  ∧ (sh ≤ ch →
     LongTextFix.checkTextMessage br tm st = (Normal tt, st))
  ∧ (∀ m,
       (∀ x, In x (querySelectorAll m (ByClass "text-message")) →
          scrollHeight br (inlineStyle st) (node_id x)
          ≤ clientHeight br (inlineStyle st) (node_id x)) →
       LongTextFix.checkForOverflow br m st = (Normal tt, st)).
Proof.
  intros sh ch. repeat split.
  - intros Hlt. unfold exec.
    rewrite MobileSteps.checkMobileOverflow_exact. cbv zeta. fold sh ch.
    destruct (Z.ltb_spec (ch + 5) sh); [|lia]. simpl. eauto.
  - intros Hle. rewrite MobileSteps.checkMobileOverflow_exact.
    cbv zeta. fold sh ch. destruct (Z.ltb_spec (ch + 5) sh); [lia|done].
  - intros Hlt. unfold exec.
    rewrite LongSteps.checkTextMessage_exact.
    cbv zeta. fold sh ch. destruct (Z.ltb_spec ch sh); [|lia]. simpl. eauto.
  - intros Hle. rewrite LongSteps.checkTextMessage_exact.
    cbv zeta. fold sh ch. destruct (Z.ltb_spec ch sh); [lia|done].
  - intros m. apply checkForOverflow_quiet.
Qed.

Lemma C1_overflow_detection_witness :
  (∃ evs, effects (exec (MobileTextFix.checkMobileOverflow Page.phone
                           Page.textMessage1) Page.initial)
          = effects Page.initial
            ++ ConsoleWarn (MobileOverflow 12 160 100) :: evs)
  ∧ MobileTextFix.checkMobileOverflow Page.desktop Page.textMessage1
      Page.initial = (Normal tt, Page.initial)
  ∧ (∃ evs, effects (exec (LongTextFix.checkTextMessage Page.phone
                             Page.textMessage1) Page.initial)
            = effects Page.initial
              ++ ConsoleWarn (LongOverflow 12 160 100) :: evs)
  ∧ LongTextFix.checkTextMessage Page.desktop Page.textMessage2 Page.initial
    = (Normal tt, Page.initial).
Proof.
  destruct (C1_overflow_detection Page.phone Page.textMessage1 Page.initial)
    as (A & _ & C & _).
  destruct (C1_overflow_detection Page.desktop Page.textMessage1 Page.initial)
    as (_ & B & _).
  destruct (C1_overflow_detection Page.desktop Page.textMessage2 Page.initial)
    as (_ & _ & _ & D & _).
  split; [apply A; simpl; lia|].
  split; [apply B; simpl; lia|].
  split; [apply C; simpl; lia|].
  apply D; simpl; lia.
Defined.

(** C1 fails as stated: on the desktop page text message 12 exceeds its box
    by 3 px, within the 5 px tolerance, and [LongTextFix.checkForOverflow]
    flags it all the same. *)
Lemma C1_counterexample :
  scrollHeight Page.desktop (inlineStyle Page.initial) 12
  ≤ clientHeight Page.desktop (inlineStyle Page.initial) 12 + 5
  ∧ effects (exec (LongTextFix.checkForOverflow Page.desktop Page.message1)
               Page.initial)
    = [ConsoleWarn (LongOverflow 12 103 100);
       SetProperty 12 "height" "103px" "important";
       SetProperty 12 "min-height" "103px" "important"].
Proof. split; [simpl; lia|]. vm_compute. reflexivity. Qed.

Lemma assignments_local (br : Browser) (el : Node)
    (styles : list (string * string)) (s : Styles) (e : nat) (p : string) :
  e ≠ node_id el →
  apply_writes br (writes_of el styles) s !! (e, p) = s !! (e, p).
Proof.
  intros Hne. apply apply_writes_unwritten.
  rewrite written_writes_of. intros (_ & E & _). by apply Hne.
Qed.

Lemma pulse_min_height (br : Browser) (tm : Node) (s : Styles)
    (styles : list (string * string)) (v : string) :
  setProperty_throws br (node_id tm) "min-height" = false →
  css_keys styles = ["height"; "min-height"]
  ∨ css_keys styles = ["height"; "min-height"; "overflow"] →
  nth_error styles 1 = Some ("minHeight", v) →
  apply_writes br (writes_of tm styles) s !! (node_id tm, "min-height")
  = Some (v, "important").
Proof.
  intros T Hk Hn.
  destruct styles as [|[p0 v0] [|[p1 v1] rest]].
  1,2: simpl in Hn; discriminate.
  simpl in Hn. injection Hn as -> ->.
  assert (Hrest : ¬ written br (writes_of tm rest) (node_id tm, "min-height")).
  { rewrite written_writes_of. intros (_ & _ & Hin). simpl in Hin.
    change (css_keys ((p0, v0) :: ("minHeight", v) :: rest))
      with (Js.cssProperty p0 :: "min-height" :: css_keys rest) in Hk.
    destruct Hk as [Hk|Hk]; injection Hk as _ Hk.
    - rewrite Hk in Hin. destruct Hin.
    - rewrite Hk in Hin. destruct Hin as [Hin|[]]. discriminate. }
  change (writes_of tm ((p0, v0) :: ("minHeight", v) :: rest))
    with ([(node_id tm, Js.cssProperty p0, v0);
           (node_id tm, "min-height", v)] ++ writes_of tm rest).
  rewrite apply_writes_app, apply_writes_unwritten by done.
  rewrite !apply_writes_cons. cbn [apply_writes fold_left].
  unfold write at 1. rewrite T. by rewrite lookup_insert_eq.
Qed.

(** C2: when overflow is detected on a text message and assigning
    [min-height] does not raise, the minimum height becomes the measured
    scroll height in px and a timer of 100 ms is set; the checks of other
    text messages leave that value alone; whenever the timer runs, the
    minimum height is ['auto'] afterwards.  This holds for both scripts. *)
Theorem C2_height_pulse (br : Browser) (tm : Node) (st : State) :
  setProperty_throws br (node_id tm) "min-height" = false →
  let sh := scrollHeight br (inlineStyle st) (node_id tm) in
  let ch := clientHeight br (inlineStyle st) (node_id tm) in
  (ch + 5 < sh →
     let st' := exec (MobileTextFix.checkMobileOverflow br tm) st in
     inlineStyle st' !! (node_id tm, "min-height")
     = Some (String.append (Js.string_of_Z sh) "px", "important")
     ∧ timeouts st' = timeouts st ++ [(MobileResetHeight tm, 100)])
  ∧ (ch < sh →
     let st' := exec (LongTextFix.checkTextMessage br tm) st in
     inlineStyle st' !! (node_id tm, "min-height")
     = Some (String.append (Js.string_of_Z sh) "px", "important")
     ∧ timeouts st' = timeouts st ++ [(LongResetHeight tm, 100)])
  ∧ (∀ other later p, node_id other ≠ node_id tm →
       inlineStyle (exec (MobileTextFix.checkMobileOverflow br other) later)
         !! (node_id tm, p) = inlineStyle later !! (node_id tm, p)
       ∧ inlineStyle (exec (LongTextFix.checkTextMessage br other) later)
           !! (node_id tm, p) = inlineStyle later !! (node_id tm, p))
  ∧ (∀ later,
       inlineStyle (exec (invoke br (MobileResetHeight tm) []) later)
         !! (node_id tm, "min-height") = Some ("auto", "important"))
  ∧ (∀ later,
       inlineStyle (exec (invoke br (LongResetHeight tm) []) later)
         !! (node_id tm, "min-height") = Some ("auto", "important")).
Proof.
  intros T sh ch. repeat split.
  - unfold exec. rewrite MobileSteps.checkMobileOverflow_exact.
    cbv zeta. fold sh ch. destruct (Z.ltb_spec (ch + 5) sh); [|lia].
    cbn [snd inlineStyle with_style].
    apply pulse_min_height; [done|by right|done].
  - unfold exec. rewrite MobileSteps.checkMobileOverflow_exact.
    cbv zeta. fold sh ch. destruct (Z.ltb_spec (ch + 5) sh); [|lia]. done.
  - unfold exec. rewrite LongSteps.checkTextMessage_exact.
    cbv zeta. fold sh ch. destruct (Z.ltb_spec ch sh); [|lia].
    cbn [snd inlineStyle with_style].
    apply pulse_min_height; [done|by left|done].
  - unfold exec. rewrite LongSteps.checkTextMessage_exact.
    cbv zeta. fold sh ch. destruct (Z.ltb_spec ch sh); [|lia]. done.
  - unfold exec. rewrite MobileSteps.checkMobileOverflow_exact.
    cbv zeta. destruct (_ <? _); [|done].
    cbn [snd inlineStyle with_style]. apply assignments_local. congruence.
  - unfold exec. rewrite LongSteps.checkTextMessage_exact.
    cbv zeta. destruct (_ <? _); [|done].
    cbn [snd inlineStyle with_style]. apply assignments_local. congruence.
  - intros later. unfold exec, invoke, MobileTextFix.resetHeight.
    rewrite MobileSteps.applyMobileStyles_exact.
    cbn [snd inlineStyle with_style].
    apply pulse_min_height; [done|by left|done].
  - intros later. unfold exec, invoke, LongTextFix.resetHeight.
    rewrite LongSteps.fixElementStyles_exact.
    cbn [snd inlineStyle with_style].
    apply pulse_min_height; [done|by left|done].
Qed.

Lemma C2_height_pulse_witness :
  inlineStyle (exec (MobileTextFix.checkMobileOverflow Page.phone
                       Page.textMessage1) Page.initial)
    !! (12%nat, "min-height") = Some ("160px", "important")
  ∧ inlineStyle (exec (LongTextFix.checkTextMessage Page.phone
                         Page.textMessage1) Page.initial)
    !! (12%nat, "min-height") = Some ("160px", "important").
Proof.
  pose proof (C2_height_pulse Page.phone Page.textMessage1 Page.initial
                eq_refl) as (H1 & H2 & _).
  split.
  - destruct H1 as [E _]; [simpl; lia|].
    vm_compute in E. vm_compute. exact E.
  - destruct H2 as [E _]; [simpl; lia|].
    vm_compute in E. vm_compute. exact E.
Defined.

(* ================================================================== *)
(** ** Idempotence of the fixes *)
(* ================================================================== *)














(* ================================================================== *)
(** ** The style override maps and their priority *)
(* ================================================================== *)

Lemma apply_writes_important (br : Browser) (W : list Write) (s : Styles)
    (k : nat * string) :
  apply_writes br W s !! k = s !! k
  ∨ ∃ v, apply_writes br W s !! k = Some (v, "important").
Proof.
  revert s. induction W as [|[[e p] v] W IH]; intros s; [by left|].
  rewrite apply_writes_cons.
  destruct (IH (write br s (e, p, v))) as [E|E]; [|by right].
  rewrite E. unfold write.
  destruct (setProperty_throws br e p); [by left|].
  destruct (decide ((e, p) = k)) as [<-|Hne].
  - right. exists v. by rewrite lookup_insert_eq.
  - left. by rewrite lookup_insert_ne.
Qed.

Lemma attempts_set (br : Browser) mk (el : Node)
    (styles : list (string * string)) e p v pr :
  In (SetProperty e p v pr) (map (attempt br mk el) styles) →
  pr = "important".
Proof.
  intros Hin. apply in_map_iff in Hin as [[p' v'] [E _]].
  unfold attempt in E. destruct (setProperty_throws _ _ _); [done|].
  by injection E as _ _ _ <-.
Qed.

Lemma attempts_done (br : Browser) mk (el : Node)
    (styles : list (string * string)) p v :
  In (p, v) styles →
  setProperty_throws br (node_id el) (Js.cssProperty p) = false →
  In (SetProperty (node_id el) (Js.cssProperty p) v "important")
    (map (attempt br mk el) styles).
Proof.
  intros Hin T. apply in_map_iff. exists (p, v). split; [|done].
  unfold attempt. by rewrite T.
Qed.

Lemma attempts_failed (br : Browser) mk (el : Node)
    (styles : list (string * string)) p v :
  In (p, v) styles →
  setProperty_throws br (node_id el) (Js.cssProperty p) = true →
  In (ConsoleWarn
        (mk p (SetPropertyError (node_id el) (Js.cssProperty p))))
    (map (attempt br mk el) styles).
Proof.
  intros Hin T. apply in_map_iff. exists (p, v). split; [|done].
  unfold attempt. by rewrite T.
Qed.

(* ================================================================== *)
(** ** Devices that are not mobile *)
(* ================================================================== *)

(** C10: when [detectMobile] answers false, constructing [MobileTextFix]
    completes normally, registers no listener, observer, interval or
    timer, assigns no style, and only writes one line to the console. *)
Theorem C10_non_mobile_untouched (br : Browser) (st : State) :
  detectMobile br = false →
  let st' := exec (MobileTextFix.constructor br) st in
  completion (MobileTextFix.constructor br) st = Normal tt
  ∧ listeners st' = listeners st
  ∧ observing st' = observing st
  ∧ intervals st' = intervals st
  ∧ timeouts st' = timeouts st
  ∧ inlineStyle st' = inlineStyle st
  ∧ effects st' = effects st ++ [ConsoleLog MobileSkipped]
  ∧ mtf_isMobile st' = false.
Proof.
  intros H. cbv zeta.
  unfold completion, exec, MobileTextFix.constructor, MobileTextFix.init,
    bind, set_mtf_isMobile, set_mtf_isSmallScreen, gets, console_log, emit.
  rewrite H. simpl. by rewrite app_nil_r.
Qed.

Lemma C10_non_mobile_untouched_witness :
  detectMobile Page.desktop = false
  ∧ listeners (exec (MobileTextFix.constructor Page.desktop) Page.initial)
    = listeners Page.initial
  ∧ effects (exec (MobileTextFix.constructor Page.desktop) Page.initial)
    = effects Page.initial ++ [ConsoleLog MobileSkipped].
Proof.
  split; [reflexivity|].
  destruct (C10_non_mobile_untouched Page.desktop Page.initial eq_refl)
    as (_ & H1 & _ & _ & _ & _ & H6 & _).
  split; assumption.
Defined.

(* ================================================================== *)
(** ** Scans *)
(* ================================================================== *)

Lemma querySelectorAll_class (n : Node) (c : string) (m : Node) :
  In m (querySelectorAll n (ByClass c)) → classList_contains m c = true.
Proof.
  unfold querySelectorAll. intros H. apply filter_In in H as [_ H].
  unfold matches in H. apply andb_true_iff in H. tauto.
Qed.

Lemma exec_forEach_cons {A} (small : bool) (f : A → M unit) G x l st :
  style_step small (f x) G → mtf_isSmallScreen st = small →
  exec (forEach f (x :: l)) st = exec (forEach f l) (exec (f x) st).
Proof.
  intros H Hs. destruct (H st Hs) as (evs & ts & E & _).
  unfold exec. cbn [forEach]. unfold bind. by rewrite E.
Qed.

(** If every element of the list is handled by a step, and the step of [x]
    always begins with the effects [E], then a loop over a list holding
    [x] produces [E]. *)
Lemma forEach_block (small : bool) {A} (f : A → M unit) (G : A → Styles → Styles)
    (l : list A) (x : A) (E : list Effect) :
  (∀ y, In y l → style_step small (f y) (G y)) →
  In x l →
  (∀ st, mtf_isSmallScreen st = small →
     ∃ evs, effects (exec (f x) st) = effects st ++ E ++ evs) →
  ∀ st, mtf_isSmallScreen st = small →
    ∃ e1 e2, effects (exec (forEach f l) st) = effects st ++ e1 ++ E ++ e2.
Proof.
  intros Hstep Hx HE. induction l as [|y l IH]; [done|]. intros st Hs.
  assert (Hy : style_step small (f y) (G y)) by (apply Hstep; by left).
  assert (Hl : ∀ z, In z l → style_step small (f z) (G z))
    by (intros z Hz; apply Hstep; by right).
  rewrite (exec_forEach_cons small f (G y)) by done.
  destruct (step_frame small _ _ st Hy Hs)
    as (_ & _ & (evs0 & E0 & _) & _ & _ & _ & _ & Hs0 & _).
  rewrite Hs in Hs0.
  destruct Hx as [->|Hx].
  - destruct (HE st Hs) as (evs & Ex).
    destruct (step_frame small _ _ (exec (f x) st)
                (step_forEach small f G l Hl) Hs0)
      as (_ & _ & (evs1 & E1 & _) & _).
    exists [], (evs ++ evs1). rewrite E1, Ex. simpl.
    by rewrite <- !app_assoc.
  - destruct (IH Hl Hx (exec (f y) st) Hs0) as (e1 & e2 & E1).
    exists (evs0 ++ e1), e2. rewrite E1, E0. by rewrite <- !app_assoc.
Qed.

Module MobileScan.
Import MobileEffects.
Import MobileTextFix.
Section Scan.
Variable br : Browser.

Lemma step_mobile_content small m :
  style_step small
    (match querySelector m (ByClass "message-content") with
     | Some messageContent =>
         applyMobileStyles br messageContent contentStyles
     | None => ret tt
     end)
    (apply_writes br
       match querySelector m (ByClass "message-content") with
       | Some messageContent => writes_of messageContent contentStyles
       | None => []
       end).
Proof.
  destruct (querySelector m _);
    [apply MobileSteps.step_applyMobileStyles|apply step_ret].
Qed.

(** [fixMobileMessage] begins with the container styles of the message,
    each assigned or logged as failed. *)
Lemma fixMobileMessage_block m st :
  ∃ evs,
    effects (exec (fixMobileMessage br m) st)
    = effects st
      ++ map (attempt br MobileStyleFailed m)
           (containerStyles (mtf_isSmallScreen st))
      ++ evs.
Proof.
  unfold fixMobileMessage, exec, try_catch. rewrite bind_gets.
  erewrite bind_normal by apply MobileSteps.applyMobileStyles_exact.
  set (st1 := with_style st _ _ _).
  assert (Hrest : ∃ G, style_step (mtf_isSmallScreen st)
            (match querySelector m (ByClass "message-content") with
             | Some messageContent =>
                 applyMobileStyles br messageContent contentStyles
             | None => ret tt
             end ;;
             forEach (fixMobileTextMessage br)
               (querySelectorAll m (ByClass "text-message"))) G).
  { eexists. eapply step_bind; [apply step_mobile_content|].
    apply step_forEach. intros tm _.
    apply MobileSteps.step_fixMobileTextMessage. }
  destruct Hrest as [G HG].
  destruct (HG st1 eq_refl) as (evs & ts & E & _).
  rewrite E. exists evs. subst st1. simpl. by rewrite <- app_assoc.
Qed.

(** A scan never raises, and it attempts the container styles of every
    message of the page, whatever happened to the messages before it. *)
Lemma scan_reaches_all st m :
  In m (querySelectorAll (document br) (ByClass "message")) →
  completion (applyMobileFixes br) st = Normal tt
  ∧ ∃ e1 e2,
      effects (exec (applyMobileFixes br) st)
      = effects st ++ e1
        ++ map (attempt br MobileStyleFailed m)
             (containerStyles (mtf_isSmallScreen st))
        ++ e2.
Proof.
  intros Hm. split.
  - apply (step_frame (mtf_isSmallScreen st) _ _ st
             (MobileSteps.step_applyMobileFixes _ br) eq_refl).
  - unfold applyMobileFixes.
    apply (forEach_block (mtf_isSmallScreen st) (fixMobileMessage br)
             (MobileEffects.afterMessage (mtf_isSmallScreen st) br) _ m);
      [|done| |done].
    + intros y _. apply MobileSteps.step_fixMobileMessage.
    + intros st' Hs'. rewrite <- Hs'. apply fixMobileMessage_block.
Qed.

End Scan.
End MobileScan.

Module LongScan.
Import LongEffects.
Import LongTextFix.
Section Scan.
Variable br : Browser.

Lemma fixMessageElement_message m st :
  classList_contains m "message" = true →
  fixMessageElement br m st = (Normal tt, visit br st m).
Proof.
  intros Hc. unfold fixMessageElement. rewrite Hc. cbn [forEach].
  unfold visit.
  destruct (bool_decide (messageIdOf m ∈ ltf_fixedElements st)) eqn:Hd.
  - erewrite bind_normal; [reflexivity|].
    rewrite bind_gets, Hd. reflexivity.
  - destruct (LongSteps.step_applyFixes (mtf_isSmallScreen st) br m st
                eq_refl) as (evs & ts & E & _).
    erewrite bind_normal; [reflexivity|].
    rewrite bind_gets, Hd.
    erewrite bind_normal by exact E.
    unfold exec. rewrite E. reflexivity.
Qed.

Lemma forEach_visit l st :
  (∀ m, In m l → classList_contains m "message" = true) →
  forEach (fixMessageElement br) l st = (Normal tt, fold_left (visit br) l st).
Proof.
  revert st. induction l as [|m l IH]; intros st Hl; [done|].
  cbn [forEach fold_left].
  erewrite bind_normal
    by (apply fixMessageElement_message, Hl; by left).
  apply IH. intros x Hx. apply Hl. by right.
Qed.

Lemma fixAllMessages_exact st :
  fixAllMessages br st
  = (Normal tt,
     fold_left (visit br) (querySelectorAll (document br) (ByClass "message")) st).
Proof.
  unfold fixAllMessages. apply forEach_visit.
  intros m. apply querySelectorAll_class.
Qed.

Lemma applyFixes_fixed m st :
  ltf_fixedElements (exec (applyFixes br m) st) = ltf_fixedElements st.
Proof.
  apply (step_frame (mtf_isSmallScreen st) _ _ st
           (LongSteps.step_applyFixes _ br m) eq_refl).
Qed.

Lemma visit_fixed st m :
  ltf_fixedElements (visit br st m)
  = {[messageIdOf m]} ∪ ltf_fixedElements st.
Proof.
  unfold visit. case_bool_decide as H.
  - set_solver.
  - reflexivity.
Qed.

Lemma visit_tracked st m :
  messageIdOf m ∈ ltf_fixedElements st → visit br st m = st.
Proof. intros H. unfold visit. by rewrite bool_decide_eq_true_2. Qed.

Lemma fold_visit_fixed l st :
  ltf_fixedElements (fold_left (visit br) l st)
  = list_to_set (map messageIdOf l) ∪ ltf_fixedElements st.
Proof.
  revert st. induction l as [|m l IH]; intros st; simpl.
  - set_solver.
  - rewrite IH, visit_fixed. set_solver.
Qed.

Lemma fold_visit_all_tracked l st :
  (∀ m, In m l → messageIdOf m ∈ ltf_fixedElements st) →
  fold_left (visit br) l st = st.
Proof.
  induction l as [|m l IH]; intros H; [done|]. simpl.
  rewrite visit_tracked by (apply H; by left).
  apply IH. intros x Hx. apply H. by right.
Qed.

(** A tracked message can be taken out of the list without changing the
    result of the scan. *)
Lemma fold_visit_skip l1 m l2 st :
  messageIdOf m ∈ ltf_fixedElements st →
  fold_left (visit br) (l1 ++ m :: l2) st = fold_left (visit br) (l1 ++ l2) st.
Proof.
  intros H. rewrite !fold_left_app. simpl.
  rewrite visit_tracked; [done|].
  rewrite fold_visit_fixed. set_solver.
Qed.

Lemma visit_effects st m :
  ∃ evs, effects (visit br st m) = effects st ++ evs.
Proof.
  unfold visit. case_bool_decide.
  - exists []. by rewrite app_nil_r.
  - destruct (step_frame (mtf_isSmallScreen st) _ _ st
                (LongSteps.step_applyFixes _ br m) eq_refl)
      as (_ & _ & (evs & E & _) & _).
    exists evs. exact E.
Qed.

Lemma fold_visit_effects l st :
  ∃ evs, effects (fold_left (visit br) l st) = effects st ++ evs.
Proof.
  revert st. induction l as [|m l IH]; intros st; simpl.
  - exists []. by rewrite app_nil_r.
  - destruct (IH (visit br st m)) as [e2 E2].
    destruct (visit_effects st m) as [e1 E1].
    exists (e1 ++ e2). by rewrite E2, E1, app_assoc.
Qed.

Lemma step_long_content small m :
  style_step small
    (match querySelector m (ByClass "message-content") with
     | Some messageContent =>
         fixElementStyles br messageContent contentStyles
     | None => ret tt
     end)
    (apply_writes br
       match querySelector m (ByClass "message-content") with
       | Some messageContent => writes_of messageContent contentStyles
       | None => []
       end).
Proof.
  destruct (querySelector m _);
    [apply LongSteps.step_fixElementStyles|apply step_ret].
Qed.

(** [applyFixes] begins with the container styles of the message, each
    assigned or logged as failed. *)
Lemma applyFixes_block m st :
  ∃ evs,
    effects (exec (applyFixes br m) st)
    = effects st
      ++ map (attempt br LongStyleFailed m) containerStyles ++ evs.
Proof.
  unfold applyFixes, exec, try_catch.
  erewrite bind_normal by apply LongSteps.fixElementStyles_exact.
  set (st1 := with_style st _ _ _).
  assert (Hrest : ∃ G, style_step (mtf_isSmallScreen st)
            (match querySelector m (ByClass "message-content") with
             | Some messageContent =>
                 fixElementStyles br messageContent contentStyles
             | None => ret tt
             end ;;
             forEach (fixTextMessage br)
               (querySelectorAll m (ByClass "text-message")) ;;
             checkForOverflow br m) G).
  { eexists. eapply step_bind; [apply step_long_content|].
    eapply step_bind; [|apply LongSteps.step_checkForOverflow].
    apply step_forEach. intros tm _. apply LongSteps.step_fixTextMessage. }
  destruct Hrest as [G HG].
  destruct (HG st1 eq_refl) as (evs & ts & E & _).
  rewrite E. exists evs. subst st1. simpl. by rewrite <- app_assoc.
Qed.

Lemma visit_block st m :
  messageIdOf m ∉ ltf_fixedElements st →
  ∃ evs,
    effects (visit br st m)
    = effects st
      ++ map (attempt br LongStyleFailed m) containerStyles ++ evs.
Proof.
  intros H. unfold visit. rewrite bool_decide_eq_false_2 by done.
  apply applyFixes_block.
Qed.

(** With pairwise distinct identifiers, none of them tracked, the scan
    attempts the container styles of every message of the list. *)
Lemma fold_visit_reaches_all l st m :
  NoDup (map messageIdOf l) →
  (∀ x, In x l → messageIdOf x ∉ ltf_fixedElements st) →
  In m l →
  ∃ e1 e2,
    effects (fold_left (visit br) l st)
    = effects st ++ e1
      ++ map (attempt br LongStyleFailed m) containerStyles ++ e2.
Proof.
  revert st. induction l as [|y l IH]; intros st Hnd Hun Hm; [done|].
  simpl in Hnd. apply NoDup_cons in Hnd as [Hy Hnd]. simpl.
  destruct Hm as [->|Hm].
  - destruct (visit_block st m) as [evs E]; [apply Hun; by left|].
    destruct (fold_visit_effects l (visit br st m)) as [e2 E2].
    exists [], (evs ++ e2). rewrite E2, E. simpl. by rewrite <- !app_assoc.
  - destruct (visit_effects st y) as [e0 E0].
    destruct (IH (visit br st y) Hnd) as (e1 & e2 & E); [|done|].
    + intros x Hx. rewrite visit_fixed. intros Hin.
      apply elem_of_union in Hin as [Hin|Hin].
      * apply elem_of_singleton in Hin. apply Hy.
        rewrite <- Hin. apply list_elem_of_In, in_map, Hx.
      * by apply (Hun x); [right|].
    + exists (e0 ++ e1), e2. rewrite E, E0. by rewrite <- !app_assoc.
Qed.

End Scan.
End LongScan.

(* ================================================================== *)
(** ** The style override maps in the fixes *)
(* ================================================================== *)

Lemma important_set (evs : list Effect) :
  Forall important_effect evs →
  ∀ e p v pr, In (SetProperty e p v pr) evs → pr = "important".
Proof.
  intros F e p v pr Hin.
  apply (proj1 (List.Forall_forall _ _) F) in Hin. exact Hin.
Qed.

Lemma attempts_important (br : Browser) mk (el : Node)
    (styles : list (string * string)) :
  Forall important_effect (map (attempt br mk el) styles).
Proof.
  induction styles as [|entry l IH]; simpl; constructor;
    [apply attempt_important|exact IH].
Qed.

(** [fixMobileTextMessage] begins with the entries of [mobileStyles], each
    assigned on the text message or logged as failed; every assignment of
    the method has priority ['important']. *)
Lemma fixMobileTextMessage_block (br : Browser) (tm : Node) (st : State) :
  ∃ rest,
    effects (exec (MobileTextFix.fixMobileTextMessage br tm) st)
    = effects st
      ++ map (attempt br MobileStyleFailed tm)
           (MobileTextFix.mobileStyles (mtf_isSmallScreen st) tm)
      ++ rest
    ∧ Forall important_effect rest.
Proof.
  unfold MobileTextFix.fixMobileTextMessage, exec. rewrite bind_gets.
  erewrite bind_normal by apply MobileSteps.applyMobileStyles_exact.
  set (st1 := with_style st _ _ _).
  assert (Hrest : ∃ G, style_step (mtf_isSmallScreen st)
            (forEach
               (fun link =>
                  isSmallScreen <- gets mtf_isSmallScreen ;;
                  MobileTextFix.applyMobileStyles br link
                    (MobileTextFix.linkStyles isSmallScreen))
               (querySelectorAll tm (ByTag "a")) ;;
             MobileTextFix.breakLongWords br tm ;;
             MobileTextFix.checkMobileOverflow br tm) G).
  { eexists. eapply step_bind.
    - apply step_forEach. intros link _.
      apply step_small. apply MobileSteps.step_applyMobileStyles.
    - eapply step_bind;
        [apply MobileSteps.step_breakLongWords
        |apply MobileSteps.step_checkMobileOverflow]. }
  destruct Hrest as [G HG].
  destruct (HG st1 eq_refl) as (evs & ts & E & F).
  rewrite E. exists evs. split; [|exact F].
  subst st1. cbn [snd effects with_style]. by rewrite <- app_assoc.
Qed.

(** [fixTextMessage] begins with the entries of [textStyles]. *)
Lemma fixTextMessage_block (br : Browser) (tm : Node) (st : State) :
  ∃ rest,
    effects (exec (LongTextFix.fixTextMessage br tm) st)
    = effects st
      ++ map (attempt br LongStyleFailed tm) (LongTextFix.textStyles tm)
      ++ rest.
Proof.
  unfold LongTextFix.fixTextMessage, exec.
  erewrite bind_normal by apply LongSteps.fixElementStyles_exact.
  set (st1 := with_style st _ _ _).
  assert (Hrest : ∃ G, style_step (mtf_isSmallScreen st)
            (forEach
               (fun link =>
                  LongTextFix.fixElementStyles br link LongTextFix.linkStyles)
               (querySelectorAll tm (ByTag "a")) ;;
             forEach
               (fun pre =>
                  LongTextFix.fixElementStyles br pre LongTextFix.preStyles)
               (querySelectorAll tm (ByTag "pre")) ;;
             forEach
               (fun code =>
                  if LongTextFix.notInsidePre br code
                  then LongTextFix.fixElementStyles br code
                         LongTextFix.codeStyles
                  else ret tt)
               (querySelectorAll tm (ByTag "code"))) G).
  { eexists. eapply step_bind.
    - apply step_forEach. intros x _. apply LongSteps.step_fixElementStyles.
    - eapply step_bind.
      + apply step_forEach. intros x _.
        apply LongSteps.step_fixElementStyles.
      + instantiate
          (1 := fun s =>
                  fold_left
                    (fun s code =>
                       apply_writes br
                         (if LongTextFix.notInsidePre br code
                          then writes_of code LongTextFix.codeStyles
                          else []) s)
                    (querySelectorAll tm (ByTag "code")) s).
        apply (step_forEach _ _
                 (fun code =>
                    apply_writes br
                      (if LongTextFix.notInsidePre br code
                       then writes_of code LongTextFix.codeStyles
                       else []))).
        intros x _.
        destruct (LongTextFix.notInsidePre br x);
          [apply LongSteps.step_fixElementStyles|apply step_ret]. }
  destruct Hrest as [G HG].
  destruct (HG st1 eq_refl) as (evs & ts & E & _).
  rewrite E. exists evs.
  subst st1. cbn [snd effects with_style]. by rewrite <- app_assoc.
Qed.

(** [applyFixes] assigns, for every text message of the message, the
    entries of [textStyles] in a row; every assignment of the method has
    priority ['important']. *)
Lemma applyFixes_text_blocks (br : Browser) (m : Node) (st : State) :
  ∃ evs,
    effects (exec (LongTextFix.applyFixes br m) st) = effects st ++ evs
    ∧ Forall important_effect evs
    ∧ ∀ tm, In tm (querySelectorAll m (ByClass "text-message")) →
        ∃ e1 e2,
          evs = e1
                ++ map (attempt br LongStyleFailed tm)
                     (LongTextFix.textStyles tm)
                ++ e2.
Proof.
  destruct (LongSteps.step_applyFixes (mtf_isSmallScreen st) br m st eq_refl)
    as (evs & ts & E & F).
  exists evs. unfold exec. rewrite E. split; [done|]. split; [exact F|].
  intros tm Htm.
  revert E. unfold LongTextFix.applyFixes, try_catch.
  erewrite bind_normal by apply LongSteps.fixElementStyles_exact.
  set (st1 := with_style st _ _ _).
  destruct (LongScan.step_long_content br (mtf_isSmallScreen st) m st1 eq_refl)
    as (evc & tsc & Ec & _).
  erewrite bind_normal by exact Ec.
  set (st2 := with_style st1 _ _ _).
  assert (Hloop : style_step (mtf_isSmallScreen st)
            (forEach (LongTextFix.fixTextMessage br)
               (querySelectorAll m (ByClass "text-message")))
            (fun s =>
               fold_left
                 (fun s x => apply_writes br (LongEffects.textWrites br x) s)
                 (querySelectorAll m (ByClass "text-message")) s)).
  { apply (step_forEach _ _
             (fun x => apply_writes br (LongEffects.textWrites br x))).
    intros x _. apply LongSteps.step_fixTextMessage. }
  destruct (Hloop st2 eq_refl) as (evf & tsf & Ef & _).
  destruct (forEach_block (mtf_isSmallScreen st)
              (LongTextFix.fixTextMessage br)
              (fun x => apply_writes br (LongEffects.textWrites br x))
              (querySelectorAll m (ByClass "text-message")) tm
              (map (attempt br LongStyleFailed tm)
                 (LongTextFix.textStyles tm))
              (fun y _ => LongSteps.step_fixTextMessage _ br y) Htm
              (fun s _ => fixTextMessage_block br tm s) st2 eq_refl)
    as (e1 & e2 & Eblock).
  unfold exec in Eblock. rewrite Ef in Eblock.
  cbn [snd effects with_style] in Eblock.
  apply app_inv_head in Eblock.
  erewrite bind_normal by exact Ef.
  set (st3 := with_style st2 _ _ _).
  destruct (LongSteps.step_checkForOverflow (mtf_isSmallScreen st) br m st3
              eq_refl) as (evk & tsk & Ek & _).
  rewrite Ek. intros E.
  apply (f_equal (fun r : Completion unit * State => effects (snd r))) in E.
  subst st3 st2 st1. cbn [snd effects with_style] in E.
  rewrite <- !app_assoc in E. apply app_inv_head in E.
  exists (map (attempt br LongStyleFailed m) LongTextFix.containerStyles
          ++ evc ++ e1), (e2 ++ evk).
  rewrite <- E, Eblock. by rewrite <- !app_assoc.
Qed.

Lemma maps_unprefixed (small : bool) (tm : Node) :
  unprefixed (MobileTextFix.mobileStyles small tm) = true
  ∧ unprefixed (LongTextFix.textStyles tm) = true.
Proof. destruct small; split; vm_compute; reflexivity. Qed.

(** C8: every entry of a style object is passed to [setProperty] with
    priority ['important'] and no assignment is made with another
    priority.  This holds for the two assignment loops on any style
    object, and for the fixes that apply the maps:
    [MobileTextFix.fixMobileTextMessage] begins with the entries of
    [mobileStyles], each assigned on the text message or logged as failed,
    and [LongTextFix.applyFixes] assigns the entries of [textStyles], in a
    row, on every text message of the message.  Every declaration the
    loops change carries that priority.  The two maps depend only on the
    small-screen flag and on whether the element has class
    [markdown-rendered]; their [whiteSpace] entry is ['normal'] with that
    class and ['pre-wrap'] without.  No entry of the maps is passed under a
    name that begins with a hyphen: the keys [webkitHyphens], [mozHyphens],
    [webkitLineClamp] and [webkitBoxOrient] are passed as
    [webkit-hyphens], [moz-hyphens], [webkit-line-clamp] and
    [webkit-box-orient]. *)
Theorem C8_style_override_map (br : Browser) (el : Node)
    (styles : list (string * string)) (st : State)
    (small : bool) (tm tm' m : Node) :
  classList_contains tm "markdown-rendered"
  = classList_contains tm' "markdown-rendered" →
  (∃ evs,
     effects (exec (MobileTextFix.applyMobileStyles br el styles) st)
     = effects st ++ evs
     ∧ (∀ e p v pr, In (SetProperty e p v pr) evs → pr = "important")
     ∧ (∀ p v, In (p, v) styles →
          setProperty_throws br (node_id el) (Js.cssProperty p) = false →
          In (SetProperty (node_id el) (Js.cssProperty p) v "important") evs))
  ∧ (∃ evs,
     effects (exec (LongTextFix.fixElementStyles br el styles) st)
     = effects st ++ evs
     ∧ (∀ e p v pr, In (SetProperty e p v pr) evs → pr = "important")
     ∧ (∀ p v, In (p, v) styles →
          setProperty_throws br (node_id el) (Js.cssProperty p) = false →
          In (SetProperty (node_id el) (Js.cssProperty p) v "important") evs))
  ∧ (∃ rest,
     effects (exec (MobileTextFix.fixMobileTextMessage br tm) st)
     = effects st
       ++ map (attempt br MobileStyleFailed tm)
            (MobileTextFix.mobileStyles (mtf_isSmallScreen st) tm)
       ++ rest
     ∧ (∀ e p v pr,
          In (SetProperty e p v pr)
            (map (attempt br MobileStyleFailed tm)
               (MobileTextFix.mobileStyles (mtf_isSmallScreen st) tm)
             ++ rest) →
          pr = "important"))
  ∧ (∃ evs,
     effects (exec (LongTextFix.applyFixes br m) st) = effects st ++ evs
     ∧ (∀ e p v pr, In (SetProperty e p v pr) evs → pr = "important")
     ∧ (∀ t, In t (querySelectorAll m (ByClass "text-message")) →
          ∃ e1 e2,
            evs = e1
                  ++ map (attempt br LongStyleFailed t)
                       (LongTextFix.textStyles t)
                  ++ e2))
  ∧ (∀ k,
       let s' := inlineStyle
                   (exec (MobileTextFix.applyMobileStyles br el styles) st) in
       s' !! k = inlineStyle st !! k ∨ ∃ v, s' !! k = Some (v, "important"))
  ∧ (∀ k,
       let s' := inlineStyle
                   (exec (LongTextFix.fixElementStyles br el styles) st) in
       s' !! k = inlineStyle st !! k ∨ ∃ v, s' !! k = Some (v, "important"))
  ∧ MobileTextFix.mobileStyles small tm = MobileTextFix.mobileStyles small tm'
  ∧ LongTextFix.textStyles tm = LongTextFix.textStyles tm'
  ∧ (∀ v, In ("whiteSpace", v) (MobileTextFix.mobileStyles small tm) ↔
          v = if classList_contains tm "markdown-rendered"
              then "normal" else "pre-wrap")
  ∧ (∀ v, In ("whiteSpace", v) (LongTextFix.textStyles tm) ↔
          v = if classList_contains tm "markdown-rendered"
              then "normal" else "pre-wrap")
  ∧ unprefixed (MobileTextFix.mobileStyles small tm) = true
  ∧ unprefixed (LongTextFix.textStyles tm) = true.
Proof.
  intros Hmd.
  split; [|split; [|split; [|split; [|split; [|split; [|split; [|split;
    [|split; [|split]]]]]]]]].
  - exists (map (attempt br MobileStyleFailed el) styles).
    unfold exec. rewrite MobileSteps.applyMobileStyles_exact.
    split; [done|]. split.
    + intros e p v pr. apply attempts_set.
    + intros p v. apply attempts_done.
  - exists (map (attempt br LongStyleFailed el) styles).
    unfold exec. rewrite LongSteps.fixElementStyles_exact.
    split; [done|]. split.
    + intros e p v pr. apply attempts_set.
    + intros p v. apply attempts_done.
  - destruct (fixMobileTextMessage_block br tm st) as (rest & E & F).
    exists rest. split; [exact E|].
    apply important_set, Forall_app. split; [apply attempts_important|done].
  - destruct (applyFixes_text_blocks br m st) as (evs & E & F & B).
    exists evs. split; [exact E|]. split; [by apply important_set|exact B].
  - intros k. cbv zeta. unfold exec.
    rewrite MobileSteps.applyMobileStyles_exact. apply apply_writes_important.
  - intros k. cbv zeta. unfold exec.
    rewrite LongSteps.fixElementStyles_exact. apply apply_writes_important.
  - unfold MobileTextFix.mobileStyles. by rewrite Hmd.
  - unfold LongTextFix.textStyles. by rewrite Hmd.
  - intros v. split.
    + unfold MobileTextFix.mobileStyles. intros Hin.
      apply in_app_or in Hin as [Hin|Hin].
      * simpl in Hin.
        repeat (destruct Hin as [Hin|Hin]; [by injection Hin|]). done.
      * destruct small; simpl in Hin;
          repeat (destruct Hin as [Hin|Hin]; [by injection Hin|]); done.
    + intros ->. unfold MobileTextFix.mobileStyles. apply in_or_app. left.
      simpl. tauto.
  - intros v. split.
    + unfold LongTextFix.textStyles. intros Hin. simpl in Hin.
      repeat (destruct Hin as [Hin|Hin]; [by injection Hin|]). done.
    + intros ->. unfold LongTextFix.textStyles. simpl. tauto.
  - apply maps_unprefixed.
Qed.

Lemma C8_style_override_map_witness :
  let evs :=
    effects
      (exec (MobileTextFix.fixMobileTextMessage Page.phone Page.textMessage1)
         Page.initial) in
  let evs' :=
    effects (exec (LongTextFix.applyFixes Page.phone Page.message1)
               Page.initial) in
  In (SetProperty 12 "white-space" "pre-wrap" "important") evs
  ∧ calls_of "webkit-hyphens" evs
    = [SetProperty 12 "webkit-hyphens" "auto" "important"]
  ∧ calls_of "-webkit-hyphens" evs = []
  ∧ calls_of "webkit-line-clamp" evs'
    = [SetProperty 12 "webkit-line-clamp" "none" "important"]
  ∧ calls_of "-webkit-line-clamp" evs' = [].
Proof.
  cbv zeta.
  destruct (C8_style_override_map Page.phone Page.textMessage1 []
              Page.initial true Page.textMessage1 Page.textMessage1
              Page.message1 eq_refl)
    as (_ & _ & (rest & E & _) & _).
  split; [|repeat split; vm_compute; reflexivity].
  rewrite E. apply in_or_app. right. apply in_or_app. left.
  vm_compute. tauto.
Defined.

(* ================================================================== *)
(** ** The tracked element set *)
(* ================================================================== *)

Lemma onResize_block (br : Browser) (st : State) (m : Node) :
  In m (querySelectorAll (document br) (ByClass "message")) →
  ∃ e1 e2,
    effects (exec (invoke br MobileResize []) st)
    = effects st ++ e1
      ++ map (attempt br MobileStyleFailed m)
           (MobileTextFix.containerStyles (innerWidth br <=? 480))
      ++ e2.
Proof.
  intros Hm. unfold invoke, MobileTextFix.onResize, exec.
  erewrite bind_normal by (unfold set_mtf_isSmallScreen; reflexivity).
  match goal with
  | |- context [MobileTextFix.applyMobileFixes br ?s] =>
      destruct (MobileScan.scan_reaches_all br s m Hm) as (_ & e1 & e2 & E)
  end.
  exists e1, e2. exact E.
Qed.

(** C3 (as amended): in LongTextFix a message whose identifier is already
    in [fixedElements] is left alone by a scan, whether the scan comes
    from the interval or from a mutation notification: taking it out of
    the list changes nothing, the others are handled by [applyFixes] and
    their identifiers added, and after a scan every identifier is tracked.
    MobileTextFix keeps no such set: a mutation notification only sets the
    100 ms timer of a full scan, and each of its scans, from that timer,
    from the interval, from a resize or from an orientation change,
    assigns the container styles of every message again. *)
Theorem C3_tracked_elements_skipped (br : Browser) (st : State)
    (l1 l2 : list Node) (m : Node) :
  classList_contains m "message" = true →
  (∀ x, In x (l1 ++ l2) → classList_contains x "message" = true) →
  LongTextFix.messageIdOf m ∈ ltf_fixedElements st →
  LongTextFix.fixMessageElement br m st = (Normal tt, st)
  ∧ LongTextFix.onMutations br
      [{| mutation_type := "childList"; addedNodes := [m] |}] st
    = (Normal tt, st)
  ∧ forEach (LongTextFix.fixMessageElement br) (l1 ++ m :: l2) st
    = forEach (LongTextFix.fixMessageElement br) (l1 ++ l2) st
  ∧ (∀ x st0,
       classList_contains x "message" = true →
       LongTextFix.messageIdOf x ∉ ltf_fixedElements st0 →
       exec (LongTextFix.fixMessageElement br x) st0
       = set_ltf_fixedElements
           ({[LongTextFix.messageIdOf x]} ∪ ltf_fixedElements st0)
           (exec (LongTextFix.applyFixes br x) st0))
  ∧ (∀ x, In x (querySelectorAll (document br) (ByClass "message")) →
       LongTextFix.messageIdOf x
       ∈ ltf_fixedElements (exec (invoke br LongScan []) st))
  ∧ MobileTextFix.onMutations
      [{| mutation_type := "childList"; addedNodes := [m] |}] st
    = (Normal tt, with_style st (inlineStyle st) [] [(MobileScan, 100)])
  ∧ (∀ x, In x (querySelectorAll (document br) (ByClass "message")) →
       (∃ e1 e2,
          effects (exec (invoke br MobileScan []) st)
          = effects st ++ e1
            ++ map (attempt br MobileStyleFailed x)
                 (MobileTextFix.containerStyles (mtf_isSmallScreen st))
            ++ e2)
       ∧ (∃ e1 e2,
          effects (exec (invoke br MobileResize []) st)
          = effects st ++ e1
            ++ map (attempt br MobileStyleFailed x)
                 (MobileTextFix.containerStyles (innerWidth br <=? 480))
            ++ e2)
       ∧ (∃ e1 e2,
          effects (exec (invoke br MobileOrientationSettled []) st)
          = effects st ++ e1
            ++ map (attempt br MobileStyleFailed x)
                 (MobileTextFix.containerStyles (innerWidth br <=? 480))
            ++ e2)).
Proof.
  intros Hc Hl Hin.
  assert (Hm : LongTextFix.fixMessageElement br m st = (Normal tt, st)).
  { rewrite LongScan.fixMessageElement_message by done.
    by rewrite LongScan.visit_tracked. }
  repeat split.
  - exact Hm.
  - unfold LongTextFix.onMutations. cbn [forEach mutation_type addedNodes].
    rewrite bool_decide_eq_true_2 by done.
    assert (He : isElement m = true) by (by destruct m).
    rewrite He.
    erewrite bind_normal; [reflexivity|].
    erewrite bind_normal; [reflexivity|]. exact Hm.
  - rewrite !LongScan.forEach_visit.
    + by rewrite LongScan.fold_visit_skip.
    + exact Hl.
    + intros x Hx. apply in_app_or in Hx as [Hx|[<-|Hx]]; [|done|];
        apply Hl, in_or_app; tauto.
  - intros x st0 Hx Hun. unfold exec at 1.
    rewrite LongScan.fixMessageElement_message by done.
    unfold LongEffects.visit. by rewrite bool_decide_eq_false_2.
  - intros x Hx. unfold invoke, exec.
    rewrite LongScan.fixAllMessages_exact. cbn [snd].
    rewrite LongScan.fold_visit_fixed.
    apply elem_of_union_l, elem_of_list_to_set, list_elem_of_In, in_map, Hx.
  - unfold MobileTextFix.onMutations.
    cbn [existsb mutation_type addedNodes].
    rewrite Hc. by destruct m.
  - by apply (MobileScan.scan_reaches_all br st x).
  - by apply onResize_block.
  - by apply onResize_block.
Qed.

Lemma C3_tracked_elements_skipped_witness :
  LongTextFix.fixMessageElement Page.desktop Page.message3
    (exec (LongTextFix.fixMessageElement Page.desktop Page.message2)
       Page.initial)
  = (Normal tt,
     exec (LongTextFix.fixMessageElement Page.desktop Page.message2)
       Page.initial).
Proof.
  assert (Ht : LongTextFix.messageIdOf Page.message3
               ∈ ltf_fixedElements
                   (exec (LongTextFix.fixMessageElement Page.desktop
                            Page.message2) Page.initial))
    by (vm_compute; reflexivity).
  destruct (C3_tracked_elements_skipped Page.desktop _ [] [] Page.message3
              eq_refl (fun x (H : In x []) => match H with end) Ht)
    as (A & _).
  exact A.
Defined.

(** C3 fails as stated: MobileTextFix has no tracked set.  On the phone
    page message 30 is styled when the script starts, and the next scan of
    the interval assigns its four container styles again. *)
Lemma C3_counterexample :
  let st1 := exec (MobileTextFix.constructor Page.phone) Page.initial in
  let st2 := exec (invoke Page.phone MobileScan []) st1 in
  List.filter (assigns_on 30) (effects st1)
  = [SetProperty 30 "max-width" "95%" "important";
     SetProperty 30 "max-height" "none" "important";
     SetProperty 30 "height" "auto" "important";
     SetProperty 30 "overflow" "visible" "important"]
  ∧ List.filter (assigns_on 30) (skipn (length (effects st1)) (effects st2))
    = [SetProperty 30 "max-width" "95%" "important";
       SetProperty 30 "max-height" "none" "important";
       SetProperty 30 "height" "auto" "important";
       SetProperty 30 "overflow" "visible" "important"].
Proof. vm_compute. split; reflexivity. Qed.

Lemma manualFix_exact (br : Browser) (st : State) :
  LongTextFix.manualFix br st
  = (Normal tt,
     fold_left (LongEffects.visit br)
       (querySelectorAll (document br) (ByClass "message"))
       (set_ltf_fixedElements ∅
          (with_style st (inlineStyle st) [ConsoleLog LongManualFix] []))).
Proof.
  unfold LongTextFix.manualFix.
  erewrite bind_normal by (unfold console_log, emit; reflexivity).
  erewrite bind_normal by reflexivity.
  apply LongScan.fixAllMessages_exact.
Qed.

(** C4 (as amended): [manualFix] empties the tracked set and scans at once.
    When the identifiers of the messages are pairwise distinct, that scan
    attempts the container styles of every message, whatever the set held
    before; afterwards the set holds exactly the identifiers of the
    messages, so a later scan without another reset changes nothing. *)
Theorem C4_manual_fix_rescans (br : Browser) (st : State) (m : Node) :
  NoDup (map LongTextFix.messageIdOf
           (querySelectorAll (document br) (ByClass "message"))) →
  In m (querySelectorAll (document br) (ByClass "message")) →
  let st' := exec (LongTextFix.manualFix br) st in
  completion (LongTextFix.manualFix br) st = Normal tt
  ∧ (∃ e1 e2,
       effects st'
       = effects st ++ e1
         ++ map (attempt br LongStyleFailed m) LongTextFix.containerStyles
         ++ e2)
  ∧ (∀ tracked,
       exec (LongTextFix.manualFix br) (set_ltf_fixedElements tracked st)
       = st')
  ∧ ltf_fixedElements st'
    = list_to_set
        (map LongTextFix.messageIdOf
           (querySelectorAll (document br) (ByClass "message")))
  ∧ LongTextFix.fixAllMessages br st' = (Normal tt, st').
Proof.
  intros Hnd Hm. cbv zeta. unfold completion, exec.
  rewrite manualFix_exact. cbn [fst snd]. repeat split.
  - destruct (LongScan.fold_visit_reaches_all br _
                (set_ltf_fixedElements ∅
                   (with_style st (inlineStyle st)
                      [ConsoleLog LongManualFix] [])) m Hnd)
      as (e1 & e2 & E); [|done|].
    + intros x _. cbn. set_solver.
    + exists (ConsoleLog LongManualFix :: e1), e2. rewrite E.
      cbn [effects set_ltf_fixedElements with_style].
      rewrite <- app_assoc. reflexivity.
  - intros tracked. by rewrite manualFix_exact.
  - rewrite LongScan.fold_visit_fixed. cbn. set_solver.
  - rewrite LongScan.fixAllMessages_exact.
    rewrite LongScan.fold_visit_all_tracked; [done|].
    intros x Hx. rewrite LongScan.fold_visit_fixed.
    apply elem_of_union_l, elem_of_list_to_set, list_elem_of_In, in_map, Hx.
Qed.

Lemma distinctPage_NoDup :
  NoDup (map LongTextFix.messageIdOf
           (querySelectorAll (document distinctPage) (ByClass "message"))).
Proof. vm_compute. repeat constructor; set_solver. Qed.

Lemma distinctPage_message (m : Node) :
  m = Page.message1 ∨ m = Element 40 "DIV" ["message"] "second" None [] →
  In m (querySelectorAll (document distinctPage) (ByClass "message")).
Proof. intros [->| ->]; vm_compute; tauto. Qed.

Lemma C4_manual_fix_rescans_witness :
  ltf_fixedElements (exec (LongTextFix.manualFix distinctPage) Page.initial)
  = list_to_set ["m1"; "second"; "m3"].
Proof.
  refine (proj1 (proj2 (proj2 (proj2
            (C4_manual_fix_rescans distinctPage Page.initial
               (Element 40 "DIV" ["message"] "second" None [])
               distinctPage_NoDup
               (distinctPage_message _ (or_intror eq_refl))))))).
Defined.

(** C4 fails as stated: on the desktop page messages 20 and 30 both lack
    an identifier.  After [manualFix] the tracked set is not empty,
    message 30 has received no assignment at all, and a later scan
    changes nothing. *)
Lemma C4_counterexample :
  let st' := exec (LongTextFix.manualFix Page.desktop) Page.initial in
  In Page.message3
    (querySelectorAll (document Page.desktop) (ByClass "message"))
  ∧ List.filter (assigns_on 30) (effects st') = []
  ∧ inlineStyle st' !! (30%nat, "max-height") = None
  ∧ elements (ltf_fixedElements st') = ["m1"; "unknown"]
  ∧ exec (LongTextFix.fixAllMessages Page.desktop) st' = st'.
Proof.
  cbv zeta. split; [vm_compute; tauto|].
  split; [vm_compute; reflexivity|].
  split; [vm_compute; reflexivity|].
  split; [vm_compute; reflexivity|].
  unfold exec at 1. rewrite LongScan.fixAllMessages_exact. cbn [snd].
  apply LongScan.fold_visit_all_tracked. intros x Hx.
  unfold exec. rewrite manualFix_exact. cbn [snd].
  rewrite LongScan.fold_visit_fixed.
  apply elem_of_union_l, elem_of_list_to_set, list_elem_of_In, in_map, Hx.
Qed.

(** C9: a message with neither [data-message-id] nor [id] is tracked as
    ['unknown'].  Once one such message has been handled, any other
    message without identifier is skipped by [fixMessageElement], and it
    is handled again only after the set has been cleared. *)
Theorem C9_unknown_identifier (br : Browser) (st : State) (m m' : Node) :
  classList_contains m "message" = true →
  dataset_messageId m = None → node_id_attr m = "" →
  classList_contains m' "message" = true →
  dataset_messageId m' = None → node_id_attr m' = "" →
  let st1 := exec (LongTextFix.fixMessageElement br m) st in
  LongTextFix.messageIdOf m = "unknown"
  ∧ LongTextFix.messageIdOf m' = "unknown"
  ∧ "unknown" ∈ ltf_fixedElements st1
  ∧ LongTextFix.fixMessageElement br m' st1 = (Normal tt, st1)
  ∧ (∀ later, "unknown" ∈ ltf_fixedElements later →
       LongTextFix.fixMessageElement br m' later = (Normal tt, later))
  ∧ (∀ later,
       exec (LongTextFix.fixMessageElement br m')
         (set_ltf_fixedElements ∅ later)
       = set_ltf_fixedElements {["unknown"]}
           (exec (LongTextFix.applyFixes br m')
              (set_ltf_fixedElements ∅ later))).
Proof.
  intros Hc Hd Hi Hc' Hd' Hi'. cbv zeta.
  assert (Hu : LongTextFix.messageIdOf m = "unknown").
  { unfold LongTextFix.messageIdOf. by rewrite Hd, Hi. }
  assert (Hu' : LongTextFix.messageIdOf m' = "unknown").
  { unfold LongTextFix.messageIdOf. by rewrite Hd', Hi'. }
  assert (Hskip : ∀ later, "unknown" ∈ ltf_fixedElements later →
            LongTextFix.fixMessageElement br m' later = (Normal tt, later)).
  { intros later Hin. rewrite LongScan.fixMessageElement_message by done.
    rewrite LongScan.visit_tracked; [done|]. by rewrite Hu'. }
  assert (H1 : "unknown"
               ∈ ltf_fixedElements
                   (exec (LongTextFix.fixMessageElement br m) st)).
  { unfold exec. rewrite LongScan.fixMessageElement_message by done.
    cbn [snd]. rewrite LongScan.visit_fixed, Hu. set_solver. }
  split; [done|]. split; [done|]. split; [done|].
  split; [by apply Hskip|]. split; [exact Hskip|].
  intros later. unfold exec at 1.
  rewrite LongScan.fixMessageElement_message by done. cbn [snd].
  unfold LongEffects.visit. rewrite bool_decide_eq_false_2 by set_solver.
  rewrite Hu'. cbn [ltf_fixedElements set_ltf_fixedElements].
  f_equal; set_solver.
Qed.

Lemma C9_unknown_identifier_witness :
  LongTextFix.fixMessageElement Page.desktop Page.message3
    (exec (LongTextFix.fixMessageElement Page.desktop Page.message2)
       Page.initial)
  = (Normal tt,
     exec (LongTextFix.fixMessageElement Page.desktop Page.message2)
       Page.initial).
Proof.
  destruct (C9_unknown_identifier Page.desktop Page.initial Page.message2
              Page.message3 eq_refl eq_refl eq_refl eq_refl eq_refl eq_refl)
    as (_ & _ & _ & H & _).
  exact H.
Defined.

(* ================================================================== *)
(** ** Failures and missing sub-elements *)
(* ================================================================== *)

(** C6: a scan never raises, whichever [setProperty] calls do.  In
    MobileTextFix every message of the page has each of its container
    styles either assigned or logged as failed; in LongTextFix every
    message of the page is visited (its identifier is tracked afterwards)
    and, from an empty set of pairwise distinct identifiers, has each of
    its container styles either assigned or logged as failed.  The
    methods that style one element never raise either. *)
Theorem C6_failures_do_not_abort (br : Browser) (st : State) (m : Node) :
  In m (querySelectorAll (document br) (ByClass "message")) →
  completion (MobileTextFix.applyMobileFixes br) st = Normal tt
  ∧ (∃ e1 e2,
       effects (exec (MobileTextFix.applyMobileFixes br) st)
       = effects st ++ e1
         ++ map (attempt br MobileStyleFailed m)
              (MobileTextFix.containerStyles (mtf_isSmallScreen st))
         ++ e2)
  ∧ completion (LongTextFix.fixAllMessages br) st = Normal tt
  ∧ LongTextFix.messageIdOf m
    ∈ ltf_fixedElements (exec (LongTextFix.fixAllMessages br) st)
  ∧ (NoDup (map LongTextFix.messageIdOf
              (querySelectorAll (document br) (ByClass "message"))) →
     ltf_fixedElements st = ∅ →
     ∃ e1 e2,
       effects (exec (LongTextFix.fixAllMessages br) st)
       = effects st ++ e1
         ++ map (attempt br LongStyleFailed m) LongTextFix.containerStyles
         ++ e2)
  ∧ (∀ el styles,
       completion (MobileTextFix.applyMobileStyles br el styles) st
       = Normal tt
       ∧ completion (LongTextFix.fixElementStyles br el styles) st
         = Normal tt
       ∧ completion (MobileTextFix.fixMobileMessage br el) st = Normal tt
       ∧ completion (LongTextFix.applyFixes br el) st = Normal tt)
  ∧ (∀ el p v,
       setProperty_throws br (node_id el) (Js.cssProperty p) = true →
       attempt br MobileStyleFailed el (p, v)
       = ConsoleWarn
           (MobileStyleFailed p
              (SetPropertyError (node_id el) (Js.cssProperty p)))
       ∧ attempt br LongStyleFailed el (p, v)
         = ConsoleWarn
             (LongStyleFailed p
                (SetPropertyError (node_id el) (Js.cssProperty p)))).
Proof.
  intros Hm. repeat split.
  - by apply (MobileScan.scan_reaches_all br st m).
  - by apply (MobileScan.scan_reaches_all br st m).
  - unfold completion. by rewrite LongScan.fixAllMessages_exact.
  - unfold exec. rewrite LongScan.fixAllMessages_exact. cbn [snd].
    rewrite LongScan.fold_visit_fixed.
    apply elem_of_union_l, elem_of_list_to_set, list_elem_of_In, in_map, Hm.
  - intros Hnd He. unfold exec. rewrite LongScan.fixAllMessages_exact.
    cbn [snd]. apply LongScan.fold_visit_reaches_all; [done| |done].
    intros x _. rewrite He. set_solver.
  - unfold completion. by rewrite MobileSteps.applyMobileStyles_exact.
  - unfold completion. by rewrite LongSteps.fixElementStyles_exact.
  - apply (step_frame (mtf_isSmallScreen st) _ _ st
             (MobileSteps.step_fixMobileMessage _ br el) eq_refl).
  - apply (step_frame (mtf_isSmallScreen st) _ _ st
             (LongSteps.step_applyFixes _ br el) eq_refl).
  - unfold attempt. by rewrite H.
  - unfold attempt. by rewrite H.
Qed.

Lemma C6_failures_do_not_abort_witness :
  completion (MobileTextFix.applyMobileFixes Page.phone) Page.initial
  = Normal tt
  ∧ ∃ e1 e2,
      effects (exec (LongTextFix.fixAllMessages distinctPage) Page.initial)
      = effects Page.initial ++ e1
        ++ map (attempt distinctPage LongStyleFailed Page.message1)
             LongTextFix.containerStyles
        ++ e2.
Proof.
  assert (H1 : In Page.message1
                 (querySelectorAll (document Page.phone) (ByClass "message")))
    by (vm_compute; tauto).
  pose proof (distinctPage_message _ (or_introl eq_refl)) as H2.
  destruct (C6_failures_do_not_abort Page.phone Page.initial Page.message1 H1)
    as (A & _).
  destruct (C6_failures_do_not_abort distinctPage Page.initial Page.message1
              H2) as (_ & _ & _ & _ & B & _).
  split; [exact A|]. apply B; [exact distinctPage_NoDup|reflexivity].
Defined.

(** C7: fixing an element never raises, whatever sub-elements it has or
    lacks.  A message with no [.message-content] and no [.text-message]
    descendant gets exactly the assignments of its container styles and
    nothing else happens: no declaration of any other element changes.  A
    text message with no link, no [pre] and no [code] gets exactly the
    assignments of its own styles (in MobileTextFix, followed by the
    overflow check). *)
Theorem C7_missing_subelements (br : Browser) (st : State) (m : Node) :
  querySelector m (ByClass "message-content") = None →
  querySelectorAll m (ByClass "text-message") = [] →
  MobileTextFix.fixMobileMessage br m st
  = MobileTextFix.applyMobileStyles br m
      (MobileTextFix.containerStyles (mtf_isSmallScreen st)) st
  ∧ LongTextFix.applyFixes br m st
    = LongTextFix.fixElementStyles br m LongTextFix.containerStyles st
  ∧ (∀ el, completion (MobileTextFix.fixMobileMessage br el) st = Normal tt
           ∧ completion (LongTextFix.applyFixes br el) st = Normal tt)
  ∧ (∀ e p, e ≠ node_id m →
       inlineStyle (exec (MobileTextFix.fixMobileMessage br m) st) !! (e, p)
       = inlineStyle st !! (e, p))
  ∧ (∀ e p, e ≠ node_id m →
       inlineStyle (exec (LongTextFix.applyFixes br m) st) !! (e, p)
       = inlineStyle st !! (e, p))
  ∧ (∀ tm,
       querySelectorAll tm (ByTag "a") = [] →
       querySelectorAll tm (ByTag "pre") = [] →
       querySelectorAll tm (ByTag "code") = [] →
       LongTextFix.fixTextMessage br tm st
       = LongTextFix.fixElementStyles br tm (LongTextFix.textStyles tm) st)
  ∧ (∀ tm,
       querySelectorAll tm (ByTag "a") = [] →
       textNodesOf tm = [] →
       MobileTextFix.fixMobileTextMessage br tm st
       = (MobileTextFix.applyMobileStyles br tm
            (MobileTextFix.mobileStyles (mtf_isSmallScreen st) tm) ;;
          MobileTextFix.checkMobileOverflow br tm) st).
Proof.
  intros Hq1 Hq2.
  assert (HM : MobileTextFix.fixMobileMessage br m st
               = MobileTextFix.applyMobileStyles br m
                   (MobileTextFix.containerStyles (mtf_isSmallScreen st)) st).
  { unfold MobileTextFix.fixMobileMessage, try_catch.
    rewrite Hq1, Hq2, bind_gets. cbn [forEach].
    erewrite bind_normal by apply MobileSteps.applyMobileStyles_exact.
    by rewrite MobileSteps.applyMobileStyles_exact. }
  assert (HL : LongTextFix.applyFixes br m st
               = LongTextFix.fixElementStyles br m
                   LongTextFix.containerStyles st).
  { unfold LongTextFix.applyFixes, LongTextFix.checkForOverflow, try_catch.
    rewrite Hq1, Hq2. cbn [forEach].
    erewrite bind_normal by apply LongSteps.fixElementStyles_exact.
    by rewrite LongSteps.fixElementStyles_exact. }
  split; [exact HM|]. split; [exact HL|]. split; [|split; [|split; [|split]]].
  - intros el. split.
    + apply (step_frame (mtf_isSmallScreen st) _ _ st
               (MobileSteps.step_fixMobileMessage _ br el) eq_refl).
    + apply (step_frame (mtf_isSmallScreen st) _ _ st
               (LongSteps.step_applyFixes _ br el) eq_refl).
  - intros e p Hne. unfold exec.
    rewrite HM, MobileSteps.applyMobileStyles_exact.
    cbn [snd inlineStyle with_style]. by apply assignments_local.
  - intros e p Hne. unfold exec.
    rewrite HL, LongSteps.fixElementStyles_exact.
    cbn [snd inlineStyle with_style]. by apply assignments_local.
  - intros tm Ha Hp Hcode. unfold LongTextFix.fixTextMessage.
    rewrite Ha, Hp, Hcode. cbn [forEach].
    erewrite bind_normal by apply LongSteps.fixElementStyles_exact.
    by rewrite LongSteps.fixElementStyles_exact.
  - intros tm Ha Ht.
    unfold MobileTextFix.fixMobileTextMessage, MobileTextFix.breakLongWords.
    rewrite Ha, Ht, bind_gets. cbn [forEach].
    erewrite bind_normal by apply MobileSteps.applyMobileStyles_exact.
    unfold bind at 1 2. unfold ret. symmetry.
    erewrite bind_normal by apply MobileSteps.applyMobileStyles_exact.
    reflexivity.
Qed.

Lemma C7_missing_subelements_witness :
  MobileTextFix.fixMobileMessage Page.phone Page.message3 Page.initial
  = MobileTextFix.applyMobileStyles Page.phone Page.message3
      (MobileTextFix.containerStyles (mtf_isSmallScreen Page.initial))
      Page.initial
  ∧ LongTextFix.fixTextMessage Page.phone Page.textMessage2 Page.initial
    = LongTextFix.fixElementStyles Page.phone Page.textMessage2
        (LongTextFix.textStyles Page.textMessage2) Page.initial.
Proof.
  destruct (C7_missing_subelements Page.phone Page.initial Page.message3
              eq_refl eq_refl) as (A & _ & _ & _ & _ & B & _).
  split; [exact A|]. apply B; reflexivity.
Defined.


(* ================================================================== *)
(** ** Names of CSS properties *)
(* ================================================================== *)

Lemma lower_not_upper (c : ascii) : Js.is_upper (Js.lower_ascii c) = false.
Proof. destruct c as [[] [] [] [] [] [] [] []]; reflexivity. Qed.

Lemma lower_of_lower (c : ascii) :
  Js.is_upper c = false → Js.lower_ascii c = c.
Proof. destruct c as [[] [] [] [] [] [] [] []]; (reflexivity || discriminate). Qed.

Lemma lower_upper (c : ascii) :
  Js.lower_ascii (Js.upper_ascii c) = Js.lower_ascii c.
Proof. destruct c as [[] [] [] [] [] [] [] []]; reflexivity. Qed.

Lemma capitals_toLowerCase (s : string) : capitals (Js.toLowerCase s) = 0%nat.
Proof.
  induction s as [|c r IH]; [done|]. simpl.
  by rewrite lower_not_upper, IH.
Qed.

Lemma cssProperty_lowercase (s : string) :
  capitals s = 0%nat → Js.cssProperty s = s.
Proof.
  unfold Js.cssProperty. induction s as [|c r IH]; [done|]. simpl.
  destruct (Js.is_upper c) eqn:U; [discriminate|]. simpl. intros H.
  by rewrite lower_of_lower, IH.
Qed.

Lemma length_cssProperty (s : string) :
  String.length (Js.cssProperty s) = (String.length s + capitals s)%nat.
Proof.
  unfold Js.cssProperty. induction s as [|c r IH]; [done|]. simpl.
  destruct (Js.is_upper c); simpl; rewrite IH; lia.
Qed.

(** X1: the CSS name computed from a property name holds no capital
    letter; it is one character longer for every capital of the property
    name (the hyphen put before it); converting a second time changes
    nothing, and a lower-case name is its own CSS name; the CSS name
    begins with a hyphen exactly when the property name begins with a
    capital or with a hyphen, so that a name such as [webkitHyphens]
    yields no vendor prefix. *)
Theorem X1_cssProperty_shape (property : string) (c : ascii) (r : string) :
  capitals (Js.cssProperty property) = 0%nat
  ∧ String.length (Js.cssProperty property)
    = (String.length property + capitals property)%nat
  ∧ Js.cssProperty (Js.cssProperty property) = Js.cssProperty property
  ∧ Js.cssProperty (Js.toLowerCase property) = Js.toLowerCase property
  ∧ String.get 0 (Js.cssProperty (String c r))
    = Some (if Js.is_upper c then "-"%char else c).
Proof.
  split; [apply capitals_toLowerCase|].
  split; [apply length_cssProperty|].
  split; [apply cssProperty_lowercase, capitals_toLowerCase|].
  split; [apply cssProperty_lowercase, capitals_toLowerCase|].
  unfold Js.cssProperty. simpl.
  destruct (Js.is_upper c) eqn:U; simpl; [done|].
  by rewrite lower_of_lower.
Qed.

(* ================================================================== *)
(** ** Device detection *)
(* ================================================================== *)

Lemma toLowerCase_toUpperCase (s : string) :
  Js.toLowerCase (Js.toUpperCase s) = Js.toLowerCase s.
Proof.
  induction s as [|c r IH]; [done|]. simpl. by rewrite lower_upper, IH.
Qed.

Lemma prefix_append (p s : string) : String.prefix p (String.append p s) = true.
Proof.
  induction p as [|c p IH]; simpl; [by destruct s|].
  destruct (ascii_dec c c); [exact IH|done].
Qed.

Lemma includes_append (p pre post : string) :
  Js.includes p (String.append pre (String.append p post)) = true.
Proof.
  induction pre as [|c pre IH].
  - change (String.append "" (String.append p post))
      with (String.append p post).
    pose proof (prefix_append p post) as H.
    set (t := String.append p post) in *. clearbody t.
    destruct t; cbn [Js.includes]; by rewrite H.
  - change (String.append (String c pre) (String.append p post))
      with (String c (String.append pre (String.append p post))).
    cbn [Js.includes]. rewrite IH. apply orb_true_r.
Qed.

(** X2: a user agent that holds one of the seven device names, at any
    position and in any letter case, is classified as mobile whatever the
    touch support and the viewport width; the classification does not
    change when the user agent is put in capitals. *)
Theorem X2_detectMobile_user_agent (br : Browser) (name pre post : string) :
  In name deviceNames →
  Js.toLowerCase (userAgent br)
  = String.append pre (String.append (Js.toLowerCase name) post) →
  detectMobile br = true
  ∧ Js.test_any_ci deviceNames (Js.toUpperCase (userAgent br))
    = Js.test_any_ci deviceNames (userAgent br).
Proof.
  intros Hn Hua. split.
  - unfold detectMobile. apply orb_true_iff. left.
    unfold Js.test_any_ci. apply existsb_exists. exists name.
    split; [exact Hn|]. rewrite Hua. apply includes_append.
  - unfold Js.test_any_ci. by rewrite toLowerCase_toUpperCase.
Qed.

Lemma X2_detectMobile_user_agent_witness :
  detectMobile Page.phone = true.
Proof.
  apply (X2_detectMobile_user_agent Page.phone "iPhone" "mozilla/5.0 ("
           "; cpu iphone os 17_0 like mac os x)").
  - simpl. tauto.
  - reflexivity.
Defined.

(* ================================================================== *)
(** ** Long words *)
(* ================================================================== *)

Lemma concat_split_ws_go (cur : Js.text) (inws : bool) (s : Js.text) :
  concat (Js.split_ws_go cur inws s) = rev cur ++ s.
Proof.
  revert cur inws. induction s as [|c r IH]; intros cur inws.
  - destruct inws; simpl; by rewrite ?app_nil_r.
  - cbn [Js.split_ws_go].
    destruct (Js.is_space c), inws; cbn [concat]; rewrite IH; simpl;
      by rewrite <- ?app_assoc.
Qed.

Lemma has_space_rev (w : Js.text) : Js.has_space (rev w) = Js.has_space w.
Proof.
  unfold Js.has_space. apply eq_true_iff_eq.
  rewrite !existsb_exists. split; intros [x [Hx Hs]]; exists x;
    (split; [|done]); by apply in_rev in Hx || (apply in_rev; by rewrite rev_involutive).
Qed.

Lemma piece_after_word (s cur : Js.text) :
  Js.has_space cur = false →
  ∃ p, In p (Js.split_ws_go cur false s)
       ∧ Js.has_space p = false ∧ (length cur ≤ length p)%nat.
Proof.
  revert cur. induction s as [|c r IH]; intros cur Hcur.
  - exists (rev cur). simpl. rewrite has_space_rev, length_rev. auto.
  - cbn [Js.split_ws_go]. destruct (Js.is_space c) eqn:Hc.
    + exists (rev cur). rewrite has_space_rev, length_rev.
      split; [by left|auto].
    + destruct (IH (c :: cur)) as (p & Hin & Hp & Hlen).
      { simpl. by rewrite Hc. }
      exists p. simpl in Hlen. split; [done|]. split; [done|lia].
Qed.

Lemma piece_of_word (w post cur : Js.text) :
  Js.has_space w = false → Js.has_space cur = false →
  ∃ p, In p (Js.split_ws_go cur false (w ++ post))
       ∧ Js.has_space p = false ∧ (length cur + length w ≤ length p)%nat.
Proof.
  revert cur. induction w as [|c w IH]; intros cur Hw Hcur.
  - destruct (piece_after_word post cur Hcur) as (p & Hin & Hp & Hlen).
    exists p. simpl. split; [done|]. split; [done|lia].
  - simpl in Hw. apply orb_false_iff in Hw as [Hc Hw].
    cbn [app Js.split_ws_go]. rewrite Hc.
    destruct (IH (c :: cur) Hw) as (p & Hin & Hp & Hlen).
    { simpl. by rewrite Hc. }
    exists p. simpl in Hlen. simpl. split; [done|]. split; [done|lia].
Qed.

Lemma piece_without_space (s cur : Js.text) :
  ∃ p, In p (Js.split_ws_go cur true s) ∧ Js.has_space p = false.
Proof.
  revert cur. induction s as [|c r IH]; intros cur.
  - exists []. simpl. auto.
  - cbn [Js.split_ws_go]. destruct (Js.is_space c) eqn:Hc.
    + apply IH.
    + destruct (piece_after_word r [c]) as (p & Hin & Hp & _).
      { simpl. by rewrite Hc. }
      exists p. split; [by right|done].
Qed.

Lemma piece_of_run (pre w post cur : Js.text) (inws : bool) :
  Js.has_space w = false →
  (inws = false → Js.has_space cur = false) →
  ∃ p, In p (Js.split_ws_go cur inws (pre ++ w ++ post))
       ∧ Js.has_space p = false ∧ (length w ≤ length p)%nat.
Proof.
  intros Hw. revert cur inws. induction pre as [|a pre IH]; intros cur inws Hcur.
  - cbn [app]. destruct inws.
    + destruct w as [|c w].
      * destruct (piece_without_space post cur) as (p & Hin & Hp).
        exists p. simpl. split; [done|]. split; [done|lia].
      * simpl in Hw. apply orb_false_iff in Hw as [Hc Hw].
        cbn [app Js.split_ws_go]. rewrite Hc.
        destruct (piece_of_word w post [c] Hw) as (p & Hin & Hp & Hlen).
        { simpl. by rewrite Hc. }
        exists p. simpl in Hlen. simpl. split; [by right|]. split; [done|lia].
    + destruct (piece_of_word w post cur Hw (Hcur eq_refl))
        as (p & Hin & Hp & Hlen).
      exists p. split; [done|]. split; [done|lia].
  - cbn [app Js.split_ws_go]. destruct (Js.is_space a) eqn:Ha, inws.
    + apply IH. discriminate.
    + destruct (IH [a] true) as (p & Hin & Hp); [discriminate|].
      exists p. split; [by right|done].
    + destruct (IH [a] false) as (p & Hin & Hp).
      { intros _. simpl. by rewrite Ha. }
      exists p. split; [by right|done].
    + apply IH. intros _. simpl. by rewrite Ha, (Hcur eq_refl).
Qed.

(** X3: the pieces [text.split(/(\s+)/)] returns, put together again, give
    the text back; and [breakLongWords] finds a long word in a text node
    exactly when the text holds a run of consecutive characters, none of
    them white space, that is longer than [Math.floor(innerWidth / 12)]. *)
Theorem X3_long_word_iff_run (br : Browser) (text : Js.text) :
  concat (Js.split_ws text) = text
  ∧ (MobileTextFix.hasLongWord br text = true ↔
     ∃ pre w post,
       text = pre ++ w ++ post
       ∧ Js.has_space w = false
       ∧ innerWidth br / 12 < Z.of_nat (length w)).
Proof.
  assert (Hc : concat (Js.split_ws text) = text)
    by apply (concat_split_ws_go [] false).
  split; [exact Hc|]. unfold MobileTextFix.hasLongWord. split.
  - intros H. apply existsb_exists in H as (w & Hin & Hw).
    apply andb_true_iff in Hw as [Hlen Hsp].
    apply in_split in Hin as (l1 & l2 & E).
    exists (concat l1), w, (concat l2). split; [|split].
    + rewrite <- Hc at 1. rewrite E, concat_app. reflexivity.
    + by apply negb_true_iff.
    + by apply Z.ltb_lt.
  - intros (pre & w & post & -> & Hw & Hlen).
    destruct (piece_of_run pre w post [] false Hw (fun _ => eq_refl))
      as (p & Hin & Hp & Hle).
    apply existsb_exists. exists p. split; [exact Hin|].
    apply andb_true_iff. split; [apply Z.ltb_lt; lia|by rewrite Hp].
Qed.

Lemma X3_long_word_iff_run_witness :
  MobileTextFix.hasLongWord Page.phone (Page.hello ++ [32%N] ++ Page.token)
  = true.
Proof.
  apply (X3_long_word_iff_run Page.phone).
  exists (Page.hello ++ [32%N]), Page.token, [].
  split; [by rewrite app_nil_r, <- app_assoc|]. split; [reflexivity|].
  vm_compute. reflexivity.
Defined.

Lemma forEach_assignments (br : Browser) {A} (f : A → M unit)
    (Wf : A → list Write) (Ef : A → list Effect) (l : list A) (st : State) :
  (∀ x st, f x st
           = (Normal tt,
              with_style st (apply_writes br (Wf x) (inlineStyle st))
                (Ef x) [])) →
  forEach f l st
  = (Normal tt,
     with_style st (apply_writes br (flat_map Wf l) (inlineStyle st))
       (flat_map Ef l) []).
Proof.
  intros Hf. revert st. induction l as [|x l IH]; intros st.
  - simpl. unfold ret. by rewrite with_style_same.
  - cbn [forEach flat_map]. erewrite bind_normal by apply Hf.
    rewrite IH, with_style_twice. cbn [inlineStyle with_style].
    by rewrite apply_writes_app.
Qed.

(** X4: [breakLongWords] sets no timer and only ever assigns
    [word-break: break-all] and [overflow-wrap: anywhere], with top
    priority, and only on the nearest ancestor with class [text-message]
    of a text node that holds a long word; when no text node of the text
    message holds a long word it changes nothing at all. *)
Theorem X4_breakLongWords_footprint (br : Browser) (tm : Node) (st : State) :
  (∃ evs,
     MobileTextFix.breakLongWords br tm st
     = (Normal tt,
        with_style st
          (apply_writes br (MobileEffects.breakWrites br tm) (inlineStyle st))
          evs [])
     ∧ ∀ e p v pr, In (SetProperty e p v pr) evs →
         pr = "important"
         ∧ (p = "word-break" ∧ v = "break-all"
            ∨ p = "overflow-wrap" ∧ v = "anywhere")
         ∧ ∃ textNode parent,
             In textNode (textNodesOf tm)
             ∧ MobileTextFix.hasLongWord br (node_text textNode) = true
             ∧ List.find
                 (fun parent => classList_contains parent "text-message")
                 (parentChain (document br) textNode) = Some parent
             ∧ classList_contains parent "text-message" = true
             ∧ node_id parent = e)
  ∧ ((∀ textNode, In textNode (textNodesOf tm) →
        MobileTextFix.hasLongWord br (node_text textNode) = false) →
     MobileTextFix.breakLongWords br tm st = (Normal tt, st)).
Proof.
  set (Ef := fun textNode : Node =>
    if MobileTextFix.hasLongWord br (node_text textNode) then
      match List.find (fun parent => classList_contains parent "text-message")
              (parentChain (document br) textNode) with
      | Some parent =>
          map (attempt br MobileStyleFailed parent)
            [("wordBreak", "break-all"); ("overflowWrap", "anywhere")]
      | None => []
      end
    else []).
  split.
  - exists (flat_map Ef (textNodesOf tm)). split.
    + unfold MobileTextFix.breakLongWords, MobileEffects.breakWrites.
      apply forEach_assignments. intros tn st'. unfold Ef.
      destruct (MobileTextFix.hasLongWord br (node_text tn)).
      * destruct (List.find _ _).
        -- apply MobileSteps.applyMobileStyles_exact.
        -- unfold ret. by rewrite with_style_same.
      * unfold ret. by rewrite with_style_same.
    + intros e p v pr Hin. apply in_flat_map in Hin as (tn & Htn & Hin).
      unfold Ef in Hin.
      destruct (MobileTextFix.hasLongWord br (node_text tn)) eqn:Hl; [|done].
      destruct (List.find _ _) as [parent|] eqn:Hf; [|done].
      pose proof (find_some _ _ Hf) as [_ Hcl].
      assert (Hcase :
        SetProperty e p v pr
        = attempt br MobileStyleFailed parent ("wordBreak", "break-all")
        ∨ SetProperty e p v pr
          = attempt br MobileStyleFailed parent ("overflowWrap", "anywhere")).
      { destruct Hin as [<-|[<-|[]]]; auto. }
      unfold attempt in Hcase.
      change (Js.cssProperty "wordBreak") with "word-break" in Hcase.
      change (Js.cssProperty "overflowWrap") with "overflow-wrap" in Hcase.
      destruct Hcase as [E|E];
        destruct (setProperty_throws br (node_id parent) _); try discriminate;
        injection E as -> -> -> ->;
        (split; [done|]); (split; [tauto|]); exists tn, parent; tauto.
  - intros Hno. unfold MobileTextFix.breakLongWords.
    induction (textNodesOf tm) as [|tn l IH]; [done|].
    cbn [forEach]. rewrite Hno by (by left).
    erewrite bind_normal by reflexivity.
    apply IH. intros x Hx. apply Hno. by right.
Qed.

Lemma X4_breakLongWords_footprint_witness :
  MobileTextFix.breakLongWords Page.phone Page.textMessage2 Page.initial
  = (Normal tt, Page.initial).
Proof.
  apply (X4_breakLongWords_footprint Page.phone Page.textMessage2 Page.initial).
  intros textNode [<-|[]]. reflexivity.
Defined.


(* ================================================================== *)
(** ** Starting and stopping *)
(* ================================================================== *)

Lemma step_untouched (small : bool) (m : M unit) (G : Styles → Styles)
    (st : State) :
  style_step small m G → mtf_isSmallScreen st = small →
  mtf_isMobile (exec m st) = mtf_isMobile st
  ∧ ltf_observer (exec m st) = ltf_observer st
  ∧ ltf_isMobile (exec m st) = ltf_isMobile st.
Proof.
  intros H Hs. destruct (H st Hs) as (evs & ts & E & _).
  unfold exec. by rewrite E.
Qed.

Lemma startMobileFix_fields (br : Browser) (st : State) :
  let st' := exec (MobileTextFix.startMobileFix br) st in
  completion (MobileTextFix.startMobileFix br) st = Normal tt
  ∧ inlineStyle st'
    = MobileEffects.afterScan (mtf_isSmallScreen st) br (inlineStyle st)
  ∧ intervals st' = intervals st ++ [(MobileScan, 3000)]
  ∧ listeners st' = listeners st
  ∧ observing st' = observing st ++ observedList br MobileMutations
  ∧ mtf_isMobile st' = mtf_isMobile st
  ∧ mtf_isSmallScreen st' = mtf_isSmallScreen st.
Proof.
  destruct (MobileSteps.step_applyMobileFixes (mtf_isSmallScreen st) br st
              eq_refl) as (evs & ts & E & _).
  cbv zeta. unfold completion, exec, MobileTextFix.startMobileFix.
  erewrite bind_normal by exact E.
  unfold MobileTextFix.setupObserver, observedList.
  destruct (querySelector (document br) (ByClass "message-list"));
    unfold bind, observe, setInterval, ret; simpl;
    rewrite ?app_nil_r; auto 10.
Qed.

(** X5: on a device classified as mobile the constructor of MobileTextFix
    always registers the [orientationchange] and [resize] listeners.  When
    the document is already loaded it also scans at once, starts the
    3000 ms interval and observes the first [.message-list] if there is
    one (without one, the scan and the interval are still there).  When
    the document is still loading it registers a [DOMContentLoaded]
    listener instead and touches no style, interval or observer until that
    listener runs; running it then does what the immediate start does. *)
Theorem X5_mobile_start (br : Browser) (st : State) :
  detectMobile br = true →
  let st' := exec (MobileTextFix.constructor br) st in
  let small := innerWidth br <=? 480 in
  completion (MobileTextFix.constructor br) st = Normal tt
  ∧ mtf_isMobile st' = true
  ∧ mtf_isSmallScreen st' = small
  ∧ (readyState_loading br = false →
     listeners st'
     = listeners st
       ++ [(TheWindow, "orientationchange", MobileOrientationChange);
           (TheWindow, "resize", MobileResize)]
     ∧ intervals st' = intervals st ++ [(MobileScan, 3000)]
     ∧ observing st' = observing st ++ observedList br MobileMutations
     ∧ inlineStyle st' = MobileEffects.afterScan small br (inlineStyle st))
  ∧ (readyState_loading br = true →
     listeners st'
     = listeners st
       ++ [(TheDocument, "DOMContentLoaded", MobileStart);
           (TheWindow, "orientationchange", MobileOrientationChange);
           (TheWindow, "resize", MobileResize)]
     ∧ intervals st' = intervals st
     ∧ observing st' = observing st
     ∧ timeouts st' = timeouts st
     ∧ inlineStyle st' = inlineStyle st
     ∧ let st'' := exec (invoke br MobileStart []) st' in
       intervals st'' = intervals st ++ [(MobileScan, 3000)]
       ∧ observing st'' = observing st ++ observedList br MobileMutations
       ∧ inlineStyle st''
         = MobileEffects.afterScan small br (inlineStyle st)).
Proof.
  intros Hm. cbv zeta.
  unfold MobileTextFix.constructor, MobileTextFix.init.
  unfold completion, exec.
  erewrite bind_normal by (unfold set_mtf_isMobile; reflexivity).
  erewrite bind_normal by (unfold set_mtf_isSmallScreen; reflexivity).
  rewrite bind_gets. cbn [mtf_isMobile]. rewrite Hm. cbn [negb].
  erewrite bind_normal by (unfold console_log, emit; reflexivity).
  destruct (readyState_loading br) eqn:Hr.
  - unfold invoke, bind, addEventListener.
    cbn [fst snd listeners intervals observing timeouts inlineStyle
         effects with_style mtf_isSmallScreen mtf_isMobile ltf_observer
         ltf_fixedElements ltf_isMobile].
    rewrite ?app_nil_r, <- ?app_assoc.
    split; [done|]. split; [done|]. split; [done|].
    split; [discriminate|]. intros _.
    repeat (split; [done|]).
    match goal with
    | |- context [MobileTextFix.startMobileFix br ?s] =>
        destruct (startMobileFix_fields br s)
          as (_ & H1 & H2 & _ & H4 & _)
    end.
    unfold exec in H1, H2, H4. rewrite H1, H2, H4.
    cbn [listeners intervals observing timeouts inlineStyle with_style
         mtf_isSmallScreen].
    auto.
  - unfold bind.
    match goal with
    | |- context [MobileTextFix.startMobileFix br ?s] =>
        destruct (startMobileFix_fields br s)
          as (H0 & H1 & H2 & H3 & H4 & H5 & H6);
        unfold completion, exec in H0, H1, H2, H3, H4, H5, H6;
        destruct (MobileTextFix.startMobileFix br s) as [c s1]
    end.
    cbn [fst snd] in *. subst c.
    unfold addEventListener.
    cbn [fst snd listeners intervals observing timeouts inlineStyle
         effects with_style mtf_isSmallScreen mtf_isMobile ltf_observer
         ltf_fixedElements ltf_isMobile] in *.
    rewrite H1, H2, H3, H4, H5, H6. rewrite ?app_nil_r, <- ?app_assoc.
    split; [done|]. split; [done|]. split; [done|].
    split; [auto|discriminate].
Qed.

Lemma X5_mobile_start_witness :
  intervals (exec (MobileTextFix.constructor Page.phone) Page.initial)
  = intervals Page.initial ++ [(MobileScan, 3000)]
  ∧ inlineStyle (exec (MobileTextFix.constructor loadingPhone) Page.initial)
    = inlineStyle Page.initial.
Proof.
  destruct (X5_mobile_start Page.phone Page.initial eq_refl)
    as (_ & _ & _ & A & _).
  destruct (X5_mobile_start loadingPhone Page.initial eq_refl)
    as (_ & _ & _ & _ & B).
  split; [apply A; reflexivity|apply B; reflexivity].
Defined.

Module LongStart.
Import LongEffects.
Import LongTextFix.
Section Start.
Variable br : Browser.

Lemma visit_style st m :
  inlineStyle (visit br st m)
  = if bool_decide (messageIdOf m ∈ ltf_fixedElements st) then inlineStyle st
    else afterFixes br m (inlineStyle st).
Proof.
  unfold visit. case_bool_decide; [done|].
  cbn [inlineStyle set_ltf_fixedElements].
  apply (step_frame (mtf_isSmallScreen st) _ _ st
           (LongSteps.step_applyFixes _ br m) eq_refl).
Qed.

Lemma visit_frame st m :
  intervals (visit br st m) = intervals st
  ∧ listeners (visit br st m) = listeners st
  ∧ observing (visit br st m) = observing st
  ∧ ltf_observer (visit br st m) = ltf_observer st
  ∧ ltf_isMobile (visit br st m) = ltf_isMobile st.
Proof.
  unfold visit. case_bool_decide; [done|].
  destruct (LongSteps.step_applyFixes (mtf_isSmallScreen st) br m st eq_refl)
    as (evs & ts & E & _).
  unfold exec. by rewrite E.
Qed.

Lemma fold_visit_frame l st :
  intervals (fold_left (visit br) l st) = intervals st
  ∧ listeners (fold_left (visit br) l st) = listeners st
  ∧ observing (fold_left (visit br) l st) = observing st
  ∧ ltf_observer (fold_left (visit br) l st) = ltf_observer st
  ∧ ltf_isMobile (fold_left (visit br) l st) = ltf_isMobile st.
Proof.
  revert st. induction l as [|m l IH]; intros st; [done|]. simpl.
  destruct (IH (visit br st m)) as (A & B & C & D & E).
  destruct (visit_frame st m) as (A' & B' & C' & D' & E').
  rewrite A, B, C, D, E. auto.
Qed.

(** What a scan leaves in the declarations and in the tracked set depends
    on nothing but the declarations and the tracked set it starts from. *)
Lemma fold_visit_agree l st1 st2 :
  inlineStyle st1 = inlineStyle st2 →
  ltf_fixedElements st1 = ltf_fixedElements st2 →
  inlineStyle (fold_left (visit br) l st1)
  = inlineStyle (fold_left (visit br) l st2).
Proof.
  revert st1 st2. induction l as [|m l IH]; intros st1 st2 Hs Hf; [done|].
  simpl. apply IH.
  - rewrite !visit_style, Hs, Hf. done.
  - rewrite !LongScan.visit_fixed, Hf. done.
Qed.

Lemma startMonitoring_exact st :
  startMonitoring br st
  = (Normal tt,
     monitoring br
       (fold_left (visit br)
          (querySelectorAll (document br) (ByClass "message")) st)).
Proof.
  unfold startMonitoring.
  erewrite bind_normal by apply LongScan.fixAllMessages_exact.
  unfold monitoring, observedList.
  destruct (querySelector (document br) (ByClass "message-list"));
    unfold bind, set_ltf_observer, observe, setInterval, ret;
    cbn [fst snd listeners intervals observing timeouts inlineStyle
         effects mtf_isSmallScreen mtf_isMobile ltf_observer
         ltf_fixedElements ltf_isMobile];
    rewrite ?app_nil_r; reflexivity.
Qed.

(** The state a first start leaves, whatever started it. *)
Lemma monitoring_fields st0 st :
  inlineStyle st0 = inlineStyle st →
  ltf_fixedElements st0 = ∅ →
  let st' :=
    monitoring br
      (fold_left (visit br)
         (querySelectorAll (document br) (ByClass "message")) st0) in
  ltf_observer st' = Some LongMutations
  ∧ observing st' = observing st0 ++ observedList br LongMutations
  ∧ intervals st' = intervals st0 ++ [(LongScan, 5000)]
  ∧ listeners st' = listeners st0
  ∧ ltf_isMobile st' = ltf_isMobile st0
  ∧ ltf_fixedElements st' = messageIds br
  ∧ inlineStyle st' = inlineStyle (exec (manualFix br) st).
Proof.
  intros Hs Hf. cbv zeta.
  destruct (fold_visit_frame
              (querySelectorAll (document br) (ByClass "message")) st0)
    as (A & B & C & _ & E).
  unfold monitoring.
  cbn [listeners intervals observing inlineStyle ltf_observer
       ltf_fixedElements ltf_isMobile].
  rewrite A, B, C, E. repeat split.
  - rewrite LongScan.fold_visit_fixed, Hf. unfold messageIds. set_solver.
  - unfold exec. rewrite manualFix_exact. cbn [snd].
    apply fold_visit_agree; [by rewrite Hs|by rewrite Hf].
Qed.

Lemma constructor_exact st :
  constructor br st
  = (Normal tt,
     if readyState_loading br
     then exec (addEventListener TheDocument "DOMContentLoaded" LongStart)
            (created br st)
     else monitoring br
            (fold_left (visit br)
               (querySelectorAll (document br) (ByClass "message"))
               (created br st))).
Proof.
  unfold constructor, init.
  erewrite bind_normal by (unfold set_ltf_observer; reflexivity).
  erewrite bind_normal by reflexivity.
  erewrite bind_normal by (unfold set_ltf_isMobile; reflexivity).
  destruct (readyState_loading br).
  - reflexivity.
  - apply startMonitoring_exact.
Qed.

End Start.
End LongStart.

(** X6: the constructor of LongTextFix starts on every device; the result
    of [detectMobile] is stored and decides nothing.  When the document is
    already loaded it scans at once, stores the observer, attaches it to
    the first [.message-list] if there is one and starts the 5000 ms
    interval; afterwards the tracked set holds exactly the identifiers of
    the messages of the page and the inline declarations are those a call
    of [manualFix] would have left.  When the document is still loading it
    only registers a [DOMContentLoaded] listener; running that listener
    then does what the immediate start does. *)
Theorem X6_long_start (br : Browser) (st : State) :
  let st' := exec (LongTextFix.constructor br) st in
  completion (LongTextFix.constructor br) st = Normal tt
  ∧ ltf_isMobile st' = detectMobile br
  ∧ (readyState_loading br = false →
     ltf_observer st' = Some LongMutations
     ∧ observing st' = observing st ++ observedList br LongMutations
     ∧ intervals st' = intervals st ++ [(LongScan, 5000)]
     ∧ listeners st' = listeners st
     ∧ ltf_fixedElements st' = messageIds br
     ∧ inlineStyle st' = inlineStyle (exec (LongTextFix.manualFix br) st))
  ∧ (readyState_loading br = true →
     listeners st'
     = listeners st ++ [(TheDocument, "DOMContentLoaded", LongStart)]
     ∧ ltf_observer st' = None
     ∧ ltf_fixedElements st' = ∅
     ∧ observing st' = observing st
     ∧ intervals st' = intervals st
     ∧ timeouts st' = timeouts st
     ∧ effects st' = effects st
     ∧ inlineStyle st' = inlineStyle st
     ∧ let st'' := exec (invoke br LongStart []) st' in
       ltf_observer st'' = Some LongMutations
       ∧ observing st'' = observing st ++ observedList br LongMutations
       ∧ intervals st'' = intervals st ++ [(LongScan, 5000)]
       ∧ ltf_fixedElements st'' = messageIds br
       ∧ inlineStyle st''
         = inlineStyle (exec (LongTextFix.manualFix br) st)).
Proof.
  cbv zeta. unfold completion, exec.
  rewrite LongStart.constructor_exact. cbn [fst snd].
  destruct (readyState_loading br) eqn:Hr.
  - unfold invoke, exec, addEventListener.
    cbn [fst snd listeners intervals observing timeouts inlineStyle
         effects ltf_observer ltf_fixedElements ltf_isMobile created].
    split; [done|]. split; [done|]. split; [discriminate|]. intros _.
    repeat (split; [done|]).
    rewrite LongStart.startMonitoring_exact. cbn [snd].
    match goal with
    | |- context [fold_left _ _ ?s] =>
        destruct (LongStart.monitoring_fields br s st eq_refl eq_refl)
          as (A & B & C & _ & _ & F & G)
    end.
    rewrite A, B, C, F, G. done.
  - destruct (LongStart.monitoring_fields br (created br st) st
                eq_refl eq_refl) as (A & B & C & D & E & F & G).
    rewrite A, B, C, D, E, F, G.
    split; [done|]. split; [done|]. split; [done|discriminate].
Qed.

Lemma X6_long_start_witness :
  ltf_fixedElements (exec (LongTextFix.constructor Page.desktop) Page.initial)
  = messageIds Page.desktop
  ∧ inlineStyle (exec (LongTextFix.constructor loadingPhone) Page.initial)
    = inlineStyle Page.initial.
Proof.
  destruct (X6_long_start Page.desktop Page.initial) as (_ & _ & A & _).
  destruct (X6_long_start loadingPhone Page.initial) as (_ & _ & _ & B).
  split; [apply A; reflexivity|apply B; reflexivity].
Defined.

(** X7: [stop] detaches the mutation observer and forgets it, and that is
    all it does: the 5000 ms interval started with the monitoring keeps
    running, so the page is still scanned after [stop]; declarations and
    the tracked set stay as they are, and a second [stop] changes
    nothing.  Called while the document is still loading, [stop] does
    nothing at all (no observer is stored yet), and the monitoring starts
    all the same when the [DOMContentLoaded] listener runs. *)
Theorem X7_stop_leaves_interval (br : Browser) (st : State) :
  let started := exec (LongTextFix.constructor br) st in
  let stopped := exec LongTextFix.stop started in
  completion LongTextFix.stop started = Normal tt
  ∧ inlineStyle stopped = inlineStyle started
  ∧ ltf_fixedElements stopped = ltf_fixedElements started
  ∧ intervals stopped = intervals started
  ∧ LongTextFix.stop stopped = (Normal tt, stopped)
  ∧ (readyState_loading br = false →
     ltf_observer stopped = None
     ∧ observing stopped
       = List.filter (fun '(cb, _) => negb (same_callback cb LongMutations))
           (observing st)
     ∧ In (LongScan, 5000) (intervals stopped))
  ∧ (readyState_loading br = true →
     stopped = started
     ∧ ltf_observer (exec (invoke br LongStart []) stopped)
       = Some LongMutations).
Proof.
  cbv zeta. unfold completion, exec.
  rewrite LongStart.constructor_exact. cbn [fst snd].
  destruct (readyState_loading br) eqn:Hr.
  - unfold LongTextFix.stop, invoke, exec, addEventListener.
    cbn [snd]. rewrite !bind_gets.
    cbn [fst snd ltf_observer created ret].
    do 5 (split; [done|]). split; [discriminate|]. intros _.
    split; [done|].
    rewrite LongStart.startMonitoring_exact. reflexivity.
  - destruct (LongStart.fold_visit_frame br
                (querySelectorAll (document br) (ByClass "message"))
                (created br st)) as (A & _ & C & _).
    unfold LongTextFix.stop. rewrite !bind_gets.
    cbn [ltf_observer monitoring].
    unfold bind, disconnect, set_ltf_observer.
    cbn [fst snd listeners intervals observing timeouts inlineStyle
         effects ltf_observer ltf_fixedElements ltf_isMobile monitoring].
    do 5 (split; [done|]). split; [|discriminate]. intros _.
    split; [done|]. rewrite A, C. split.
    + rewrite List.filter_app. cbn [observing created].
      unfold observedList.
      destruct (querySelector (document br) (ByClass "message-list"));
        cbn [List.filter same_callback negb]; by rewrite app_nil_r.
    + apply in_or_app. right. by left.
Qed.

Lemma X7_stop_leaves_interval_witness :
  let stopped :=
    exec LongTextFix.stop
      (exec (LongTextFix.constructor Page.desktop) Page.initial) in
  observing stopped = [] ∧ In (LongScan, 5000) (intervals stopped).
Proof.
  destruct (X7_stop_leaves_interval Page.desktop Page.initial)
    as (_ & _ & _ & _ & _ & A & _).
  destruct (A eq_refl) as (_ & B & C). split; [exact B|exact C].
Defined.

(* ================================================================== *)
(** ** What a scan guarantees about the declarations *)
(* ================================================================== *)

Lemma fold_left_keep {A S} (f : S → A → S) (P : S → Prop) l s :
  (∀ x s, In x l → P s → P (f s x)) → P s → P (fold_left f l s).
Proof.
  revert s. induction l as [|y l IH]; intros s Hk Hs; [done|].
  simpl. apply IH.
  - intros x s' Hx. apply Hk. by right.
  - apply Hk; [by left|done].
Qed.

Lemma fold_left_establish {A S} (f : S → A → S) (P : S → Prop) l x0 s :
  (∀ x s, In x l → P s → P (f s x)) →
  In x0 l → (∀ s, P (f s x0)) → P (fold_left f l s).
Proof.
  revert s. induction l as [|y l IH]; intros s Hk Hin He; [done|].
  simpl. destruct Hin as [->|Hin].
  - apply fold_left_keep; [|apply He].
    intros x s' Hx. apply Hk. by right.
  - apply IH; [|done|done]. intros x s' Hx. apply Hk. by right.
Qed.

Lemma agree_ok p v styles :
  agree p v styles = true → styles_ok (only_value p v) styles.
Proof.
  unfold agree, styles_ok, only_value. rewrite forallb_forall.
  intros H property value Hin E. specialize (H _ Hin). cbv beta iota in H.
  apply String.eqb_eq in E. rewrite E in H. by apply String.eqb_eq.
Qed.

Lemma absent_ok p styles :
  absent p styles = true → styles_ok (never p) styles.
Proof.
  unfold absent, styles_ok, never. rewrite forallb_forall.
  intros H property value Hin E. specialize (H _ Hin). cbv beta iota in H.
  apply String.eqb_eq in E. by rewrite E in H.
Qed.

Lemma assigns_In p v styles el :
  assigns p v styles = true → In (node_id el, p, v) (writes_of el styles).
Proof.
  unfold assigns, writes_of. rewrite existsb_exists.
  intros [[property value] [Hin H]].
  apply andb_true_iff in H as [H1 H2].
  apply String.eqb_eq in H1, H2. subst p v.
  apply in_map_iff. by exists (property, value).
Qed.

Lemma writes_of_ok ok el styles :
  styles_ok ok styles →
  ∀ e p v, In (e, p, v) (writes_of el styles) → ok p v.
Proof.
  intros H e p v Hin. unfold writes_of in Hin.
  apply in_map_iff in Hin as [[property value] [E Hin]].
  injection E as _ <- <-. by apply H.
Qed.

Lemma flat_map_ok {A} (ok : string → string → Prop) (f : A → list Write)
    (l : list A) :
  (∀ x, In x l → ∀ e p v, In (e, p, v) (f x) → ok p v) →
  ∀ e p v, In (e, p, v) (flat_map f l) → ok p v.
Proof.
  intros H e p v Hin. apply in_flat_map in Hin as (x & Hx & Hin).
  by apply (H x Hx e).
Qed.


(** Declarations that assignments accepted by [ok] keep true. *)
Section Invariant.
Variable br : Browser.
Variable ok : string → string → Prop.
Variable P : Styles → Prop.
Hypothesis P_insert :
  ∀ e p v s, ok p v → P s → P (<[(e, p) := (v, "important")]> s).

Lemma inv_apply_writes W s :
  (∀ e p v, In (e, p, v) W → ok p v) → P s → P (apply_writes br W s).
Proof.
  intros HW. unfold apply_writes. apply fold_left_keep.
  intros [[e p] v] s' Hin Hs. unfold write.
  destruct (setProperty_throws br e p); [done|].
  apply P_insert; [by apply (HW e)|done].
Qed.

Lemma inv_writes_of el styles s :
  styles_ok ok styles → P s → P (apply_writes br (writes_of el styles) s).
Proof. intros H. apply inv_apply_writes. by apply writes_of_ok. Qed.

Lemma mobile_breakWrites_ok small tm :
  mobile_ok small ok →
  ∀ e p v, In (e, p, v) (MobileEffects.breakWrites br tm) → ok p v.
Proof.
  intros (_ & _ & _ & _ & Hb & _). unfold MobileEffects.breakWrites.
  apply flat_map_ok. intros x _.
  destruct (MobileTextFix.hasLongWord br (node_text x)); [|done].
  destruct (List.find _ _); [|done]. by apply writes_of_ok.
Qed.

Lemma mobile_textWrites_ok small tm :
  mobile_ok small ok →
  ∀ e p v, In (e, p, v) (MobileEffects.textWrites small br tm) → ok p v.
Proof.
  intros Hok e p v Hin. unfold MobileEffects.textWrites in Hin.
  pose proof Hok as (_ & _ & Ht & Hl & _).
  apply in_app_or in Hin as [Hin|Hin];
    [by apply (writes_of_ok ok tm _ (Ht tm) e)|].
  apply in_app_or in Hin as [Hin|Hin];
    [|by apply (mobile_breakWrites_ok small tm Hok e)].
  revert Hin. apply flat_map_ok. intros x _. by apply writes_of_ok.
Qed.

Lemma mobile_inv_afterCheck small tm s :
  mobile_ok small ok → P s → P (MobileEffects.afterCheck br tm s).
Proof.
  intros (_ & _ & _ & _ & _ & Hp) Hs. unfold MobileEffects.afterCheck.
  destruct (_ <? _); [|done]. by apply inv_writes_of.
Qed.

Lemma mobile_inv_afterText small tm s :
  mobile_ok small ok → P s → P (MobileEffects.afterText small br tm s).
Proof.
  intros Hok Hs. unfold MobileEffects.afterText.
  apply (mobile_inv_afterCheck small); [done|].
  apply inv_apply_writes; [|done]. by apply mobile_textWrites_ok.
Qed.

Lemma mobile_containerWrites_ok small m :
  mobile_ok small ok →
  ∀ e p v,
    In (e, p, v)
      (writes_of m (MobileTextFix.containerStyles small)
       ++ match querySelector m (ByClass "message-content") with
          | Some messageContent =>
              writes_of messageContent MobileTextFix.contentStyles
          | None => []
          end) → ok p v.
Proof.
  intros (Hc & Hn & _) e p v Hin.
  apply in_app_or in Hin as [Hin|Hin]; [by apply (writes_of_ok ok m _ Hc e)|].
  destruct (querySelector m _); [|done].
  by apply (writes_of_ok ok n _ Hn e).
Qed.

Lemma mobile_inv_afterMessage small m s :
  mobile_ok small ok → P s → P (MobileEffects.afterMessage small br m s).
Proof.
  intros Hok Hs. unfold MobileEffects.afterMessage.
  apply fold_left_keep.
  - intros tm s' _. by apply mobile_inv_afterText.
  - apply inv_apply_writes; [|done]. by apply mobile_containerWrites_ok.
Qed.

Lemma mobile_inv_afterScan small s :
  mobile_ok small ok → P s → P (MobileEffects.afterScan small br s).
Proof.
  intros Hok. unfold MobileEffects.afterScan. apply fold_left_keep.
  intros m s' _. by apply mobile_inv_afterMessage.
Qed.

Lemma long_textWrites_ok tm :
  long_ok ok →
  ∀ e p v, In (e, p, v) (LongEffects.textWrites br tm) → ok p v.
Proof.
  intros (_ & _ & Ht & Hl & Hp & Hc & _) e p v Hin.
  unfold LongEffects.textWrites in Hin.
  apply in_app_or in Hin as [Hin|Hin];
    [by apply (writes_of_ok ok tm _ (Ht tm) e)|].
  apply in_app_or in Hin as [Hin|Hin].
  { revert Hin. apply flat_map_ok. intros x _. by apply writes_of_ok. }
  apply in_app_or in Hin as [Hin|Hin].
  { revert Hin. apply flat_map_ok. intros x _. by apply writes_of_ok. }
  revert Hin. apply flat_map_ok. intros x _.
  destruct (LongTextFix.notInsidePre br x); [|done]. by apply writes_of_ok.
Qed.

Lemma long_messageWrites_ok m :
  long_ok ok →
  ∀ e p v, In (e, p, v) (LongEffects.messageWrites br m) → ok p v.
Proof.
  intros Hok e p v Hin. pose proof Hok as (Hc & Hn & _).
  unfold LongEffects.messageWrites in Hin.
  apply in_app_or in Hin as [Hin|Hin]; [by apply (writes_of_ok ok m _ Hc e)|].
  apply in_app_or in Hin as [Hin|Hin].
  { destruct (querySelector m _); [|done].
    by apply (writes_of_ok ok n _ Hn e). }
  revert Hin. apply flat_map_ok. intros tm _. by apply long_textWrites_ok.
Qed.

Lemma long_inv_afterChecks m s :
  long_ok ok → P s → P (LongEffects.afterChecks br m s).
Proof.
  intros (_ & _ & _ & _ & _ & _ & Hp). unfold LongEffects.afterChecks.
  apply fold_left_keep. intros tm s' _ Hs. unfold LongEffects.afterCheck.
  destruct (_ <? _); [|done]. by apply inv_writes_of.
Qed.

Lemma long_inv_afterFixes m s :
  long_ok ok → P s → P (LongEffects.afterFixes br m s).
Proof.
  intros Hok Hs. unfold LongEffects.afterFixes.
  apply long_inv_afterChecks; [done|].
  apply inv_apply_writes; [|done]. by apply long_messageWrites_ok.
Qed.

End Invariant.

Lemma declared_insert (e : nat) (p v : string) (e' : nat) (p' v' : string)
    (s : Styles) :
  only_value p v p' v' → declared s e p v →
  declared (<[(e', p') := (v', "important")]> s) e p v.
Proof.
  unfold only_value, declared. intros Hok Hs.
  destruct (decide ((e', p') = (e, p))) as [E|N].
  - injection E as -> ->. rewrite Hok by done. by rewrite lookup_insert_eq.
  - by rewrite lookup_insert_ne.
Qed.

Lemma same_insert (x : option (string * string)) (e : nat) (p : string)
    (e' : nat) (p' v' : string) (s : Styles) :
  never p p' v' → s !! (e, p) = x →
  <[(e', p') := (v', "important")]> s !! (e, p) = x.
Proof.
  unfold never. intros Hok Hs. rewrite lookup_insert_ne; [done|congruence].
Qed.

Lemma apply_writes_establish (br : Browser) (W : list Write) (s : Styles)
    (e : nat) (p v : string) :
  (∀ e' p' v', In (e', p', v') W → only_value p v p' v') →
  In (e, p, v) W → setProperty_throws br e p = false →
  declared (apply_writes br W s) e p v.
Proof.
  intros Hok Hin T. unfold apply_writes.
  apply (fold_left_establish (write br) (fun s => declared s e p v) W
           (e, p, v)).
  - intros [[e' p'] v'] s' Hx Hs. unfold write.
    destruct (setProperty_throws br e' p'); [done|].
    apply declared_insert; [by apply (Hok e')|done].
  - done.
  - intros s'. unfold write. rewrite T. unfold declared.
    by rewrite lookup_insert_eq.
Qed.

Ltac styles_by_computation :=
  repeat split; intros;
  first [apply agree_ok | apply absent_ok]; vm_compute; reflexivity.

(** The scans of MobileTextFix assign [max-height], [height] and
    [overflow] one value each; [max-width] and [line-height] depend on the
    small-screen flag. *)
Lemma mobile_unclamp_ok (small : bool) (p v : string) :
  In (p, v)
    [("max-height", "none"); ("height", "auto"); ("overflow", "visible")] →
  mobile_ok small (only_value p v).
Proof.
  intros [E|[E|[E|[]]]]; injection E as <- <-; destruct small;
    styles_by_computation.
Qed.

Lemma mobile_max_width_ok (small : bool) :
  mobile_ok small (only_value "max-width" (if small then "95%" else "90%")).
Proof. destruct small; styles_by_computation. Qed.

Lemma mobile_line_height_ok :
  mobile_ok true (only_value "line-height" "1.4").
Proof. styles_by_computation. Qed.

Lemma mobile_line_height_never :
  mobile_ok false (never "line-height").
Proof. styles_by_computation. Qed.

Lemma long_unclamp_ok (p v : string) :
  In (p, v)
    [("max-height", "none"); ("overflow", "visible");
     ("overflow-y", "visible")] →
  long_ok (only_value p v).
Proof.
  intros [E|[E|[E|[]]]]; injection E as <- <-; styles_by_computation.
Qed.

Module MobileGuarantee.
Import MobileEffects.
Import MobileTextFix.
Section Guarantee.
Variable small : bool.
Variable br : Browser.
Variables (p v : string).
Hypothesis Hok : mobile_ok small (only_value p v).

Lemma afterMessage_declares m el s :
  el = m ∧ assigns p v (containerStyles small) = true
  ∨ querySelector m (ByClass "message-content") = Some el
    ∧ assigns p v contentStyles = true
  ∨ In el (querySelectorAll m (ByClass "text-message"))
    ∧ assigns p v (mobileStyles small el) = true →
  setProperty_throws br (node_id el) p = false →
  declared (afterMessage small br m s) (node_id el) p v.
Proof.
  intros Hel T. unfold afterMessage.
  assert (Hkeep : ∀ tm s',
            declared s' (node_id el) p v →
            declared (afterText small br tm s') (node_id el) p v).
  { intros tm s'.
    apply (mobile_inv_afterText br (only_value p v)
             (fun s => declared s (node_id el) p v)); [|done].
    intros. by apply declared_insert. }
  destruct Hel as [[-> Ha]|[[Hq Ha]|[Hin Ha]]].
  - apply fold_left_keep; [intros tm s' _; apply Hkeep|].
    apply apply_writes_establish;
      [by apply mobile_containerWrites_ok| |done].
    apply in_or_app. left. by apply assigns_In.
  - apply fold_left_keep; [intros tm s' _; apply Hkeep|].
    apply apply_writes_establish;
      [by apply mobile_containerWrites_ok| |done].
    apply in_or_app. right. rewrite Hq. by apply assigns_In.
  - apply (fold_left_establish (fun s tm => afterText small br tm s)
             (fun s => declared s (node_id el) p v) _ el);
      [intros tm s' _; apply Hkeep|done|].
    intros s'. unfold afterText.
    apply (mobile_inv_afterCheck br (only_value p v)
             (fun s => declared s (node_id el) p v)
             ltac:(intros; by apply declared_insert) small);
      [done|].
    apply apply_writes_establish;
      [by apply (mobile_textWrites_ok br _ small)| |done].
    unfold textWrites. apply in_or_app. left. by apply assigns_In.
Qed.

Lemma afterScan_declares m el s :
  In m (querySelectorAll (document br) (ByClass "message")) →
  el = m ∧ assigns p v (containerStyles small) = true
  ∨ querySelector m (ByClass "message-content") = Some el
    ∧ assigns p v contentStyles = true
  ∨ In el (querySelectorAll m (ByClass "text-message"))
    ∧ assigns p v (mobileStyles small el) = true →
  setProperty_throws br (node_id el) p = false →
  declared (afterScan small br s) (node_id el) p v.
Proof.
  intros Hm Hel T. unfold afterScan.
  apply (fold_left_establish (fun s m => afterMessage small br m s)
           (fun s => declared s (node_id el) p v) _ m); [|done|].
  - intros x s' _.
    apply (mobile_inv_afterMessage br (only_value p v)
             (fun s => declared s (node_id el) p v)); [|done].
    intros. by apply declared_insert.
  - intros s'. by apply afterMessage_declares.
Qed.

End Guarantee.
End MobileGuarantee.

Lemma applyMobileFixes_style (br : Browser) (st : State) :
  inlineStyle (exec (MobileTextFix.applyMobileFixes br) st)
  = MobileEffects.afterScan (mtf_isSmallScreen st) br (inlineStyle st).
Proof.
  apply (step_frame (mtf_isSmallScreen st) _ _ st
           (MobileSteps.step_applyMobileFixes _ br) eq_refl).
Qed.

Lemma onResize_fields (br : Browser) (st : State) :
  inlineStyle (exec (MobileTextFix.onResize br) st)
  = MobileEffects.afterScan (innerWidth br <=? 480) br (inlineStyle st)
  ∧ mtf_isSmallScreen (exec (MobileTextFix.onResize br) st)
    = (innerWidth br <=? 480).
Proof.
  unfold MobileTextFix.onResize, exec.
  erewrite bind_normal by (unfold set_mtf_isSmallScreen; reflexivity).
  match goal with
  | |- context [MobileTextFix.applyMobileFixes br ?s] =>
      destruct (step_frame (mtf_isSmallScreen s) _ _ s
                  (MobileSteps.step_applyMobileFixes _ br) eq_refl)
        as (_ & A & _ & _ & _ & _ & _ & B & _)
  end.
  unfold exec in A, B. rewrite A, B. done.
Qed.

Lemma styled_in_assigns (small : bool) (m el : Node) (p v : string) :
  styled_in m el →
  In (p, v)
    [("max-height", "none"); ("height", "auto"); ("overflow", "visible")] →
  el = m ∧ assigns p v (MobileTextFix.containerStyles small) = true
  ∨ querySelector m (ByClass "message-content") = Some el
    ∧ assigns p v MobileTextFix.contentStyles = true
  ∨ In el (querySelectorAll m (ByClass "text-message"))
    ∧ assigns p v (MobileTextFix.mobileStyles small el) = true.
Proof.
  intros Hel Hp.
  assert (assigns p v (MobileTextFix.containerStyles small) = true
          ∧ assigns p v MobileTextFix.contentStyles = true
          ∧ assigns p v (MobileTextFix.mobileStyles small el) = true)
    as (A & B & C).
  { destruct Hp as [E|[E|[E|[]]]]; injection E as <- <-; destruct small;
      repeat split; vm_compute; reflexivity. }
  unfold styled_in in Hel. tauto.
Qed.

(** X8: after a scan of MobileTextFix every message of the page, its
    content wrapper and each of its text messages carries
    [max-height: none], [height: auto] and [overflow: visible], all
    [!important], whatever the declarations were before and whatever else
    the scan assigned (nested or repeated elements, the height pulse);
    the only exception is a declaration whose assignment raises. *)
Theorem X8_mobile_scan_unclamps (br : Browser) (st : State) (m el : Node)
    (p v : string) :
  In m (querySelectorAll (document br) (ByClass "message")) →
  styled_in m el →
  In (p, v)
    [("max-height", "none"); ("height", "auto"); ("overflow", "visible")] →
  setProperty_throws br (node_id el) p = false →
  declared (inlineStyle (exec (MobileTextFix.applyMobileFixes br) st))
    (node_id el) p v.
Proof.
  intros Hm Hel Hp T. rewrite applyMobileFixes_style.
  apply (MobileGuarantee.afterScan_declares _ br p v
           (mobile_unclamp_ok _ p v Hp) m el); [done| |done].
  by apply styled_in_assigns.
Qed.

Lemma X8_mobile_scan_unclamps_witness :
  declared
    (inlineStyle (exec (MobileTextFix.applyMobileFixes Page.phone)
                    Page.initial))
    12 "height" "auto".
Proof.
  apply (X8_mobile_scan_unclamps Page.phone Page.initial Page.message1
           Page.textMessage1 "height" "auto").
  - vm_compute. tauto.
  - right. right. vm_compute. tauto.
  - vm_compute. tauto.
  - reflexivity.
Defined.

(** X9: the [resize] listener and the timer of the [orientationchange]
    listener evaluate the small-screen flag again, as
    [window.innerWidth <= 480], and scan; afterwards every message has
    [max-width: 95% !important] on a small screen and
    [max-width: 90% !important] otherwise.  The [orientationchange]
    listener itself only sets that timer, 500 ms ahead. *)
Theorem X9_resize_max_width (br : Browser) (st : State) (m : Node) :
  In m (querySelectorAll (document br) (ByClass "message")) →
  setProperty_throws br (node_id m) "max-width" = false →
  let width := if innerWidth br <=? 480 then "95%" else "90%" in
  (∀ cb, cb = MobileResize ∨ cb = MobileOrientationSettled →
     let st' := exec (invoke br cb []) st in
     completion (invoke br cb []) st = Normal tt
     ∧ mtf_isSmallScreen st' = (innerWidth br <=? 480)
     ∧ declared (inlineStyle st') (node_id m) "max-width" width)
  ∧ invoke br MobileOrientationChange [] st
    = (Normal tt,
       with_style st (inlineStyle st) [] [(MobileOrientationSettled, 500)]).
Proof.
  intros Hm T. cbv zeta. split; [|reflexivity].
  assert (H : completion (MobileTextFix.onResize br) st = Normal tt
              ∧ mtf_isSmallScreen (exec (MobileTextFix.onResize br) st)
                = (innerWidth br <=? 480)
              ∧ declared (inlineStyle (exec (MobileTextFix.onResize br) st))
                  (node_id m) "max-width"
                  (if innerWidth br <=? 480 then "95%" else "90%")).
  { destruct (onResize_fields br st) as [A B]. rewrite A, B.
    split; [|split; [done|]].
    - unfold MobileTextFix.onResize, completion.
      erewrite bind_normal by (unfold set_mtf_isSmallScreen; reflexivity).
      match goal with
      | |- context [MobileTextFix.applyMobileFixes br ?s] =>
          apply (step_frame (mtf_isSmallScreen s) _ _ s
                   (MobileSteps.step_applyMobileFixes _ br) eq_refl)
      end.
    - apply (MobileGuarantee.afterScan_declares _ br _ _
               (mobile_max_width_ok _) m m); [done| |done].
      left. split; [done|]. by destruct (innerWidth br <=? 480). }
  intros cb [-> | ->]; exact H.
Qed.

Lemma X9_resize_max_width_witness :
  declared (inlineStyle (exec (invoke Page.phone MobileResize []) Page.initial))
    30 "max-width" "95%"
  ∧ declared
      (inlineStyle (exec (invoke Page.desktop MobileResize []) Page.initial))
      30 "max-width" "90%".
Proof.
  assert (Hm : In Page.message3
                 (querySelectorAll Page.body (ByClass "message")))
    by (vm_compute; tauto).
  destruct (X9_resize_max_width Page.phone Page.initial Page.message3
              Hm eq_refl) as [A _].
  destruct (X9_resize_max_width Page.desktop Page.initial Page.message3
              Hm eq_refl) as [B _].
  split.
  - apply (A MobileResize). by left.
  - apply (B MobileResize). by left.
Defined.

(** X10: what a small-screen scan adds is not taken back.  A scan made
    while the small-screen flag is set gives every text message
    [line-height: 1.4 !important], unless that assignment raises; when the
    window is then resized to more than 480 px the flag is cleared and the
    messages are scanned again, but that scan assigns [line-height]
    nowhere, so the declaration stays. *)
Theorem X10_small_screen_styles_stay (br : Browser) (st : State)
    (m tm : Node) :
  mtf_isSmallScreen st = true →
  480 < innerWidth br →
  In m (querySelectorAll (document br) (ByClass "message")) →
  In tm (querySelectorAll m (ByClass "text-message")) →
  setProperty_throws br (node_id tm) "line-height" = false →
  let st1 := exec (MobileTextFix.applyMobileFixes br) st in
  let st2 := exec (invoke br MobileResize []) st1 in
  declared (inlineStyle st1) (node_id tm) "line-height" "1.4"
  ∧ mtf_isSmallScreen st2 = false
  ∧ (∀ e, inlineStyle st2 !! (e, "line-height")
          = inlineStyle st1 !! (e, "line-height"))
  ∧ declared (inlineStyle st2) (node_id tm) "line-height" "1.4".
Proof.
  intros Hs Hw Hm Htm T. cbv zeta.
  assert (Hlarge : (innerWidth br <=? 480) = false) by (apply Z.leb_gt; lia).
  assert (H1 : declared
                 (inlineStyle (exec (MobileTextFix.applyMobileFixes br) st))
                 (node_id tm) "line-height" "1.4").
  { rewrite applyMobileFixes_style, Hs.
    apply (MobileGuarantee.afterScan_declares _ br _ _
             mobile_line_height_ok m tm); [done| |done].
    right. right. split; [done|]. vm_compute. reflexivity. }
  unfold invoke.
  destruct (onResize_fields br (exec (MobileTextFix.applyMobileFixes br) st))
    as [A B].
  rewrite Hlarge in A, B.
  assert (H2 : ∀ e,
            inlineStyle
              (exec (MobileTextFix.onResize br)
                 (exec (MobileTextFix.applyMobileFixes br) st))
              !! (e, "line-height")
            = inlineStyle (exec (MobileTextFix.applyMobileFixes br) st)
                !! (e, "line-height")).
  { intros e. rewrite A.
    apply (mobile_inv_afterScan br (never "line-height")
             (fun s => s !! (e, "line-height")
                       = inlineStyle
                           (exec (MobileTextFix.applyMobileFixes br) st)
                           !! (e, "line-height")));
      [|apply mobile_line_height_never|done].
    intros. by apply same_insert. }
  split; [done|]. split; [done|]. split; [done|].
  unfold declared. rewrite H2. exact H1.
Qed.

Lemma X10_small_screen_styles_stay_witness :
  let st := exec (set_mtf_isSmallScreen true) Page.initial in
  declared
    (inlineStyle
       (exec (invoke Page.desktop MobileResize [])
          (exec (MobileTextFix.applyMobileFixes Page.desktop) st)))
    22 "line-height" "1.4".
Proof.
  cbv zeta.
  destruct (X10_small_screen_styles_stay Page.desktop
              (exec (set_mtf_isSmallScreen true) Page.initial)
              Page.message2 Page.textMessage2) as (_ & _ & _ & A).
  - reflexivity.
  - reflexivity.
  - vm_compute. tauto.
  - vm_compute. tauto.
  - reflexivity.
  - exact A.
Defined.

Module LongGuarantee.
Import LongEffects.
Import LongTextFix.
Section Guarantee.
Variable br : Browser.
Variables (p v : string).
Hypothesis Hok : long_ok (only_value p v).

Lemma afterFixes_keeps m (e : nat) s :
  declared s e p v → declared (afterFixes br m s) e p v.
Proof.
  apply (long_inv_afterFixes br (only_value p v)
           (fun s => declared s e p v)); [|done].
  intros. by apply declared_insert.
Qed.

Lemma afterFixes_declares m el s :
  el = m ∧ assigns p v containerStyles = true
  ∨ querySelector m (ByClass "message-content") = Some el
    ∧ assigns p v contentStyles = true
  ∨ In el (querySelectorAll m (ByClass "text-message"))
    ∧ assigns p v (textStyles el) = true →
  setProperty_throws br (node_id el) p = false →
  declared (afterFixes br m s) (node_id el) p v.
Proof.
  intros Hel T. unfold afterFixes.
  apply (long_inv_afterChecks br (only_value p v)
           (fun s => declared s (node_id el) p v));
    [intros; by apply declared_insert|done|].
  apply apply_writes_establish;
    [by apply long_messageWrites_ok| |done].
  unfold messageWrites.
  destruct Hel as [[-> Ha]|[[Hq Ha]|[Hin Ha]]].
  - apply in_or_app. left. by apply assigns_In.
  - apply in_or_app. right. apply in_or_app. left.
    rewrite Hq. by apply assigns_In.
  - apply in_or_app. right. apply in_or_app. right.
    apply in_flat_map. exists el. split; [done|].
    unfold textWrites. apply in_or_app. left. by apply assigns_In.
Qed.

Lemma fold_visit_keeps l st (e : nat) :
  declared (inlineStyle st) e p v →
  declared (inlineStyle (fold_left (visit br) l st)) e p v.
Proof.
  revert st. induction l as [|y l IH]; intros st Hs; [done|].
  simpl. apply IH. rewrite LongStart.visit_style.
  case_bool_decide; [done|]. by apply afterFixes_keeps.
Qed.

(** With pairwise distinct identifiers, none of them tracked, the scan
    leaves the declaration on the elements of every message. *)
Lemma fold_visit_declares l st m el :
  NoDup (map messageIdOf l) →
  (∀ x, In x l → messageIdOf x ∉ ltf_fixedElements st) →
  In m l →
  el = m ∧ assigns p v containerStyles = true
  ∨ querySelector m (ByClass "message-content") = Some el
    ∧ assigns p v contentStyles = true
  ∨ In el (querySelectorAll m (ByClass "text-message"))
    ∧ assigns p v (textStyles el) = true →
  setProperty_throws br (node_id el) p = false →
  declared (inlineStyle (fold_left (visit br) l st)) (node_id el) p v.
Proof.
  revert st. induction l as [|y l IH]; intros st Hnd Hun Hm Hel T; [done|].
  simpl in Hnd. apply NoDup_cons in Hnd as [Hy Hnd]. simpl.
  destruct Hm as [->|Hm].
  - apply fold_visit_keeps. rewrite LongStart.visit_style.
    rewrite bool_decide_eq_false_2 by (apply Hun; by left).
    by apply afterFixes_declares.
  - apply IH; [done| |done|done|done].
    intros x Hx. rewrite LongScan.visit_fixed. intros Hin.
    apply elem_of_union in Hin as [Hin|Hin].
    + apply elem_of_singleton in Hin. apply Hy.
      rewrite <- Hin. apply list_elem_of_In, in_map, Hx.
    + by apply (Hun x); [right|].
Qed.

End Guarantee.
End LongGuarantee.

Lemma styled_in_long_assigns (m el : Node) (p v : string) :
  styled_in m el →
  In (p, v)
    [("max-height", "none"); ("overflow", "visible");
     ("overflow-y", "visible")] →
  el = m ∧ assigns p v LongTextFix.containerStyles = true
  ∨ querySelector m (ByClass "message-content") = Some el
    ∧ assigns p v LongTextFix.contentStyles = true
  ∨ In el (querySelectorAll m (ByClass "text-message"))
    ∧ assigns p v (LongTextFix.textStyles el) = true.
Proof.
  intros Hel Hp.
  assert (assigns p v LongTextFix.containerStyles = true
          ∧ assigns p v LongTextFix.contentStyles = true
          ∧ assigns p v (LongTextFix.textStyles el) = true)
    as (A & B & C).
  { destruct Hp as [E|[E|[E|[]]]]; injection E as <- <-;
      repeat split; vm_compute; reflexivity. }
  unfold styled_in in Hel. tauto.
Qed.

(** X11: [applyFixes] of LongTextFix leaves [max-height: none],
    [overflow: visible] and [overflow-y: visible], all [!important], on
    the message, on its content wrapper and on each of its text messages,
    whatever the declarations were before and whatever the overflow check
    that closes the method assigned; the only exception is a declaration
    whose assignment raises.  When the identifiers of the messages of the
    page are pairwise distinct, [manualFix] leaves these declarations on
    every message of the page. *)
Theorem X11_long_fix_unclamps (br : Browser) (st : State) (m el : Node)
    (p v : string) :
  styled_in m el →
  In (p, v)
    [("max-height", "none"); ("overflow", "visible");
     ("overflow-y", "visible")] →
  setProperty_throws br (node_id el) p = false →
  declared (inlineStyle (exec (LongTextFix.applyFixes br m) st))
    (node_id el) p v
  ∧ (In m (querySelectorAll (document br) (ByClass "message")) →
     NoDup (map LongTextFix.messageIdOf
              (querySelectorAll (document br) (ByClass "message"))) →
     declared (inlineStyle (exec (LongTextFix.manualFix br) st))
       (node_id el) p v).
Proof.
  intros Hel Hp T.
  pose proof (styled_in_long_assigns m el p v Hel Hp) as Ha.
  pose proof (long_unclamp_ok p v Hp) as Hok.
  split.
  - destruct (step_frame (mtf_isSmallScreen st) _ _ st
                (LongSteps.step_applyFixes _ br m) eq_refl) as (_ & E & _).
    rewrite E. by apply LongGuarantee.afterFixes_declares.
  - intros Hm Hnd. unfold exec. rewrite manualFix_exact. cbn [snd].
    apply (LongGuarantee.fold_visit_declares br p v Hok _ _ m el);
      [done| |done|done|done].
    intros x _. cbn [ltf_fixedElements set_ltf_fixedElements].
    apply not_elem_of_empty.
Qed.

Lemma X11_long_fix_unclamps_witness :
  declared
    (inlineStyle (exec (LongTextFix.manualFix distinctPage) Page.initial))
    12 "max-height" "none".
Proof.
  destruct (X11_long_fix_unclamps distinctPage Page.initial Page.message1
              Page.textMessage1 "max-height" "none") as [_ A].
  - right. right. vm_compute. tauto.
  - vm_compute. tauto.
  - reflexivity.
  - apply A.
    + apply distinctPage_message. by left.
    + apply distinctPage_NoDup.
Defined.

(* ================================================================== *)
(** ** Mutation notifications *)
(* ================================================================== *)

Lemma forEach_flat {A B} (f : A → M unit) (g : State → B → State)
    (h : A → list B) (l : list A) (st : State) :
  (∀ x s, In x l → f x s = (Normal tt, fold_left g (h x) s)) →
  forEach f l st = (Normal tt, fold_left g (flat_map h l) st).
Proof.
  revert st. induction l as [|x l IH]; intros st H; [done|].
  cbn [forEach flat_map]. rewrite fold_left_app.
  erewrite bind_normal by (apply H; by left).
  apply IH. intros y s Hy. apply H. by right.
Qed.

Lemma fixMessageElement_exact (br : Browser) (element : Node) (st : State) :
  LongTextFix.fixMessageElement br element st
  = (Normal tt, fold_left (LongEffects.visit br) (messagesOf element) st).
Proof.
  unfold messagesOf.
  destruct (classList_contains element "message") eqn:Hc.
  { by apply LongScan.fixMessageElement_message. }
  assert (Hin : ∀ m s,
            classList_contains m "message" = true →
            LongTextFix.fixMessageElement br m s
            = (Normal tt, fold_left (LongEffects.visit br) [m] s)).
  { intros m s Hm. by apply LongScan.fixMessageElement_message. }
  unfold LongTextFix.fixMessageElement in *. rewrite Hc.
  set (inner := fun message : Node => _) in *.
  assert (Hinner : ∀ m s,
            In m (querySelectorAll element (ByClass "message")) →
            inner m s = (Normal tt, fold_left (LongEffects.visit br) [m] s)).
  { intros m s Hm.
    pose proof (Hin m s (querySelectorAll_class _ _ _ Hm)) as H.
    rewrite (querySelectorAll_class _ _ _ Hm) in H.
    cbn [forEach] in H. unfold bind in H.
    destruct (inner m s) as [[[]|e] s']; [exact H|discriminate]. }
  rewrite (forEach_flat inner (LongEffects.visit br) (fun m => [m]) _ st
             Hinner).
  assert (Hflat : ∀ l : list Node, flat_map (fun m => [m]) l = l)
    by (induction l as [|x l IH]; [done|]; simpl; by rewrite IH).
  by rewrite Hflat.
Qed.

Lemma onMutations_exact (br : Browser) (mutations : list MutationRecord)
    (st : State) :
  LongTextFix.onMutations br mutations st
  = (Normal tt,
     fold_left (LongEffects.visit br) (addedMessages mutations) st).
Proof.
  unfold LongTextFix.onMutations, addedMessages.
  apply forEach_flat. intros mutation s _.
  destruct (bool_decide (mutation_type mutation = "childList")); [|done].
  apply forEach_flat. intros node s' _.
  destruct (isElement node); [|done].
  apply fixMessageElement_exact.
Qed.

Lemma messagesOf_class (element m : Node) :
  In m (messagesOf element) → classList_contains m "message" = true.
Proof.
  unfold messagesOf.
  destruct (classList_contains element "message") eqn:Hc.
  - by intros [<-|[]].
  - apply querySelectorAll_class.
Qed.

(** X12: a mutation notification makes LongTextFix look at the messages of
    the elements added by its records of type [childList] (an added
    message itself, or the messages inside an added element that is not
    one), in order, each handled as a scan handles it; other records and
    added text nodes are passed over.  The callback never raises; every
    message it looked at is tracked afterwards; the same notification
    delivered again changes nothing, and one that brings only tracked
    messages changes nothing either.  Intervals, listeners and observers
    are left alone. *)
Theorem X12_long_mutations (br : Browser) (mutations : list MutationRecord)
    (st : State) :
  let st' := exec (LongTextFix.onMutations br mutations) st in
  LongTextFix.onMutations br mutations st
  = (Normal tt,
     fold_left (LongEffects.visit br) (addedMessages mutations) st)
  ∧ (∀ m, In m (addedMessages mutations) →
       classList_contains m "message" = true
       ∧ LongTextFix.messageIdOf m ∈ ltf_fixedElements st')
  ∧ LongTextFix.onMutations br mutations st' = (Normal tt, st')
  ∧ ((∀ m, In m (addedMessages mutations) →
        LongTextFix.messageIdOf m ∈ ltf_fixedElements st) →
     st' = st)
  ∧ intervals st' = intervals st
  ∧ listeners st' = listeners st
  ∧ observing st' = observing st.
Proof.
  cbv zeta. unfold exec. rewrite !onMutations_exact. cbn [snd].
  split; [done|]. split; [|split; [|split]].
  - intros m Hm. split.
    + unfold addedMessages in Hm.
      apply in_flat_map in Hm as (mu & _ & Hm).
      destruct (bool_decide _); [|done].
      apply in_flat_map in Hm as (node & _ & Hm).
      destruct (isElement node); [|done]. by apply messagesOf_class in Hm.
    + rewrite LongScan.fold_visit_fixed.
      apply elem_of_union_l, elem_of_list_to_set, list_elem_of_In, in_map, Hm.
  - rewrite LongScan.fold_visit_all_tracked; [done|].
    intros m Hm. rewrite LongScan.fold_visit_fixed.
    apply elem_of_union_l, elem_of_list_to_set, list_elem_of_In, in_map, Hm.
  - intros H. by apply LongScan.fold_visit_all_tracked.
  - destruct (LongStart.fold_visit_frame br (addedMessages mutations) st)
      as (A & B & C & _).
    auto.
Qed.

Lemma X12_long_mutations_witness :
  let mutations :=
    [{| mutation_type := "attributes"; addedNodes := [Page.message1] |};
     {| mutation_type := "childList";
        addedNodes := [TextNode 13 Page.hello; Page.message2] |}] in
  exec (LongTextFix.onMutations Page.desktop mutations)
    (set_ltf_fixedElements {["unknown"]} Page.initial)
  = set_ltf_fixedElements {["unknown"]} Page.initial.
Proof.
  cbv zeta.
  destruct (X12_long_mutations Page.desktop
              [{| mutation_type := "attributes";
                  addedNodes := [Page.message1] |};
               {| mutation_type := "childList";
                  addedNodes := [TextNode 13 Page.hello; Page.message2] |}]
              (set_ltf_fixedElements {["unknown"]} Page.initial))
    as (_ & _ & _ & A & _).
  apply A. intros m Hm. vm_compute in Hm. destruct Hm as [<-|[]].
  vm_compute. set_solver.
Defined.

Lemma hasNewMessages_added (mutations : list MutationRecord) :
  existsb
    (fun mutation =>
       bool_decide (mutation_type mutation = "childList") &&
       existsb
         (fun node =>
            isElement node &&
            (classList_contains node "message"
             || bool_decide
                  (is_Some (querySelector node (ByClass "message")))))
         (addedNodes mutation))
    mutations
  = negb (bool_decide (addedMessages mutations = [])).
Proof.
  induction mutations as [|mu l IH]; [done|].
  cbn [existsb addedMessages flat_map]. fold (addedMessages l). rewrite IH.
  assert (Hnodes : ∀ nodes,
            existsb
              (fun node =>
                 isElement node &&
                 (classList_contains node "message"
                  || bool_decide
                       (is_Some (querySelector node (ByClass "message")))))
              nodes
            = negb (bool_decide
                      (flat_map
                         (fun node =>
                            if isElement node then messagesOf node else [])
                         nodes = []))).
  { induction nodes as [|node nodes IHn]; [done|].
    cbn [existsb flat_map]. rewrite IHn.
    unfold messagesOf, querySelector.
    destruct (isElement node); cbn [andb orb app]; [|done].
    destruct (classList_contains node "message"); cbn [orb app]; [done|].
    destruct (querySelectorAll node (ByClass "message")); cbn [head app].
    - rewrite bool_decide_eq_false_2 by (intros [? ?]; discriminate). done.
    - rewrite bool_decide_eq_true_2 by eauto. done. }
  destruct (bool_decide (mutation_type mu = "childList")); cbn [andb app].
  - rewrite Hnodes.
    destruct (flat_map _ (addedNodes mu)); cbn [app]; [done|].
    done.
  - done.
Qed.

(** X13: the observer callback of MobileTextFix styles nothing itself.  It
    sets one 100 ms timer for a full scan when the notification brings at
    least one message (the same messages LongTextFix looks at for the
    same notification), however many they are, and does nothing at all
    otherwise. *)
Theorem X13_mobile_mutations (mutations : list MutationRecord) (st : State) :
  MobileTextFix.onMutations mutations st
  = (Normal tt,
     if bool_decide (addedMessages mutations = []) then st
     else with_style st (inlineStyle st) [] [(MobileScan, 100)]).
Proof.
  unfold MobileTextFix.onMutations. rewrite hasNewMessages_added.
  by destruct (bool_decide (addedMessages mutations = [])).
Qed.

(* ================================================================== *)
(** ** Diagnostics *)
(* ================================================================== *)

Section Listing.
Context {D : Type}.
Variable mk : nat → Node → Node → D.
Variable ix : D → Z.
Hypothesis ix_mk : ∀ i m tm, ix (mk i m tm) = Z.of_nat i + 1.

Lemma listing_from (a : nat) (l : list Node) :
  let report :=
    flat_map
      (fun '(index, message) =>
         match querySelector message (ByClass "text-message") with
         | Some textMessage => [mk index message textMessage]
         | None => []
         end)
      (combine (seq a (length l)) l) in
  (∀ d, In d report ↔
        ∃ i message textMessage,
          nth_error l i = Some message
          ∧ querySelector message (ByClass "text-message") = Some textMessage
          ∧ d = mk (a + i) message textMessage)
  ∧ StronglySorted Z.lt (map ix report)
  ∧ (∀ d, In d report →
          Z.of_nat a + 1 ≤ ix d ≤ Z.of_nat a + Z.of_nat (length l)).
Proof.
  cbv zeta. revert a. induction l as [|x l IH]; intros a.
  { simpl. split; [|split; [constructor|done]].
    intros d. split; [done|]. intros (i & m & tm & H & _). by destruct i. }
  cbn [length seq combine flat_map].
  destruct (IH (S a)) as (Hin & Hsorted & Hrange).
  set (rest := flat_map _ (combine (seq (S a) (length l)) l)) in *.
  assert (Hrest : ∀ d, In d rest →
            Z.of_nat a + 1 < ix d
            ∧ ix d ≤ Z.of_nat a + Z.of_nat (S (length l))).
  { intros d Hd. apply Hrange in Hd. lia. }
  split; [|split].
  - intros d. rewrite in_app_iff, Hin. split.
    + intros [Hd|(i & m & tm & Hn & Hq & ->)].
      * destruct (querySelector x (ByClass "text-message")) as [tm|] eqn:Hq;
          [|done].
        destruct Hd as [<-|[]]. exists 0%nat, x, tm.
        by rewrite Nat.add_0_r.
      * exists (S i), m, tm. by rewrite Nat.add_succ_r.
    + intros (i & m & tm & Hn & Hq & ->). destruct i as [|i].
      * left. injection Hn as ->. rewrite Hq, Nat.add_0_r. by left.
      * right. exists i, m, tm. by rewrite Nat.add_succ_r.
  - rewrite map_app.
    destruct (querySelector x (ByClass "text-message")) as [tm|]; [|done].
    cbn [map app]. constructor; [done|].
    apply List.Forall_forall. intros z Hz.
    apply in_map_iff in Hz as (d & <- & Hd).
    rewrite ix_mk. by apply Hrest.
  - intros d Hd. apply in_app_or in Hd as [Hd|Hd].
    + destruct (querySelector x (ByClass "text-message")) as [tm|]; [|done].
      destruct Hd as [<-|[]]. rewrite ix_mk. lia.
    + apply Hrest in Hd. lia.
Qed.

End Listing.

(** X14: both diagnostic methods report one entry for each message of the
    page that holds a text message, for its first text message, in
    document order, and none for the other messages.  The index of an
    entry is the position of its message among all messages of the page,
    counted from 1; so indices are strictly ascending, lie between 1 and
    the number of messages, and skip the messages without text.  The two
    methods number alike, and neither changes the page. *)
Theorem X14_diagnostics_listing {Num : Type} (br : Browser)
    (ins : Inspector Num) (st : State) :
  let all := querySelectorAll (document br) (ByClass "message") in
  ∃ report mobileReport,
    LongTextFix.getDiagnostics br ins st = (Normal report, st)
    ∧ MobileTextFix.getMobileDiagnostics br ins st = (Normal mobileReport, st)
    ∧ (∀ d, In d report ↔
            ∃ i message textMessage,
              nth_error all i = Some message
              ∧ querySelector message (ByClass "text-message")
                = Some textMessage
              ∧ d = LongTextFix.diagnostic br ins (inlineStyle st) i message
                      textMessage)
    ∧ (∀ d, In d (messages mobileReport) ↔
            ∃ i message textMessage,
              nth_error all i = Some message
              ∧ querySelector message (ByClass "text-message")
                = Some textMessage
              ∧ d = MobileTextFix.mobileDiagnostic br ins (inlineStyle st) i
                      message textMessage)
    ∧ StronglySorted Z.lt (map diag_index report)
    ∧ (∀ d, In d report → 1 ≤ diag_index d ≤ Z.of_nat (length all))
    ∧ map mdiag_index (messages mobileReport) = map diag_index report.
Proof.
  cbv zeta. eexists _, _. split; [reflexivity|]. split; [reflexivity|].
  cbn [messages]. unfold indexed.
  destruct (listing_from (LongTextFix.diagnostic br ins (inlineStyle st))
              diag_index ltac:(reflexivity) 0
              (querySelectorAll (document br) (ByClass "message")))
    as (A & B & C).
  destruct (listing_from
              (MobileTextFix.mobileDiagnostic br ins (inlineStyle st))
              mdiag_index ltac:(reflexivity) 0
              (querySelectorAll (document br) (ByClass "message")))
    as (A' & _ & _).
  split; [exact A|]. split; [exact A'|]. split; [exact B|].
  split; [intros d Hd; apply C in Hd; lia|].
  generalize (combine
                (seq 0 (length (querySelectorAll (document br)
                                  (ByClass "message"))))
                (querySelectorAll (document br) (ByClass "message"))).
  induction l as [|[i m] l IH]; [done|].
  cbn [flat_map]. rewrite !map_app, IH. f_equal.
  by destruct (querySelector m (ByClass "text-message")).
Qed.

(** X15: what the diagnostics report is not always what the fixes act on.
    LongTextFix reports a text message as overflowing exactly when its
    overflow check pulses it.  MobileTextFix reports without the 5 px
    tolerance of its check: a text message 1 to 5 px taller than its box
    is reported as overflowing and left alone by the check.  The reported
    identifier ignores the [id] attribute: it equals the identifier
    LongTextFix tracks the message by, except for a message without
    [data-message-id] that has an [id], which is reported as ['unknown'].
    The content excerpt ends in three dots even when nothing was cut. *)
Theorem X15_diagnostics_against_fixes {Num : Type} (br : Browser)
    (ins : Inspector Num) (st : State) (index : nat)
    (message textMessage : Node) :
  let d :=
    LongTextFix.diagnostic br ins (inlineStyle st) index message textMessage in
  let md :=
    MobileTextFix.mobileDiagnostic br ins (inlineStyle st) index message
      textMessage in
  let sh := scrollHeight br (inlineStyle st) (node_id textMessage) in
  let ch := clientHeight br (inlineStyle st) (node_id textMessage) in
  (diag_isOverflowing d = false →
   LongTextFix.checkTextMessage br textMessage st = (Normal tt, st))
  ∧ (diag_isOverflowing d = true →
     timeouts (exec (LongTextFix.checkTextMessage br textMessage) st)
     = timeouts st ++ [(LongResetHeight textMessage, 100)])
  ∧ mdiag_isOverflowing md = diag_isOverflowing d
  ∧ (ch < sh ≤ ch + 5 →
     mdiag_isOverflowing md = true
     ∧ MobileTextFix.checkMobileOverflow br textMessage st = (Normal tt, st))
  ∧ (ch + 5 < sh →
     mdiag_isOverflowing md = true
     ∧ timeouts (exec (MobileTextFix.checkMobileOverflow br textMessage) st)
       = timeouts st ++ [(MobileResetHeight textMessage, 100)])
  ∧ (diag_messageId d = LongTextFix.messageIdOf message
     ∨ diag_messageId d = "unknown"
       ∧ LongTextFix.messageIdOf message = node_id_attr message
       ∧ node_id_attr message ≠ "")
  ∧ mdiag_messageId md = diag_messageId d
  ∧ mdiag_content md = diag_content d
  ∧ ((length (textContentOf textMessage) ≤ 50)%nat →
     diag_content d = textContentOf textMessage ++ [46; 46; 46]%N).
Proof.
  cbv zeta.
  cbn [diag_isOverflowing mdiag_isOverflowing diag_messageId mdiag_messageId
       diag_content mdiag_content LongTextFix.diagnostic
       MobileTextFix.mobileDiagnostic].
  unfold exec.
  rewrite LongSteps.checkTextMessage_exact,
    MobileSteps.checkMobileOverflow_exact.
  cbv zeta. cbn [snd].
  set (sh := scrollHeight br (inlineStyle st) (node_id textMessage)).
  set (ch := clientHeight br (inlineStyle st) (node_id textMessage)).
  split; [by intros ->|]. split.
  { intros ->. cbn [timeouts with_style]. reflexivity. }
  split; [done|]. split.
  { intros [H1 H2]. split; [by apply Z.ltb_lt|].
    assert (E : (ch + 5 <? sh) = false) by (apply Z.ltb_ge; lia).
    by rewrite E. }
  split.
  { intros H. split; [apply Z.ltb_lt; lia|].
    assert (E : (ch + 5 <? sh) = true) by (by apply Z.ltb_lt).
    rewrite E. reflexivity. }
  split.
  { unfold diagnosticId, LongTextFix.messageIdOf.
    destruct (dataset_messageId message) as [i|];
      repeat case_bool_decide; auto. }
  split; [done|]. split; [done|].
  intros H. unfold excerpt. by rewrite firstn_all2.
Qed.
